(** * Task manager: task mutation / audit engine, push registry and client
      reconnection controller.

    Shallow embedding of
      - backend/models/Task.js            (schema, addAuditEntry, pre-save hook)
      - backend/controllers/taskController.js
      - backend/controllers/userController.js
      - the WebSocketServer class          (registry, fan-out, heartbeat)
      - frontend/src/hooks/useWebSocket.js (reconnection)
      - frontend/src/components/Dashboard.jsx (the columns of the board)

    Modelling conventions.
      - The document store is a finite map from ObjectId to the stored
        document.  A mongoose document in memory is a [Document]: the
        current field values, the [_original] snapshot taken by the
        post-init hook, and the modification mark of the [status] path that
        [isModified('status')] reads.
      - A request-body field is an [option]: [None] stands for a field that
        is absent (undefined).  [status] and [priority] range over the
        enumerations the schema declares; every member is a non-empty
        string, hence truthy.  [title] is a string and its truthiness test
        is kept.
      - A string is a sequence of code units below 256; [trim] removes the
        white space of that range, as [String.prototype.trim] does.  A date
        is its time value in milliseconds; a request value that denotes no
        date is a time outside the range of [Date].  Ids of users and tasks
        are taken at their type, except where a controller compares one as
        a string ([deleteUser]).
      - What the schema declares is applied where the driver applies it: an
        assignment to a path runs the setter of the path ([trim]) and marks
        the path modified when the value changes; [save] validates the
        modified paths ([required], [maxlength]) and refuses a document
        with a value that did not cast, before the pre-save hook runs.  A
        stored document was validated when it was written, so the paths a
        request leaves alone are not validated again.
      - [Date.now()], [new Date()] and the ObjectId the driver allocates for
        a new sub-document are inputs of a request ([Env]).
      - Controllers return the HTTP response, the effects they emitted
        (pushes to the socket server, file removal) and the new store.
      - The socket server handles one event at a time.  [handleConnection]
        is asynchronous: it runs with the 'connection' event up to
        [await User.findById], and resumes when the lookup settles; other
        events are handled in between. *)

From Stdlib Require Import ZArith String List Bool Lia Sorted.
From Stdlib Require Import Ascii.
From stdpp Require Import gmap strings list fin_maps.
Import ListNotations.

Local Open Scope string_scope.
Local Open Scope list_scope.
Local Open Scope nat_scope.

(** ** Data model (backend/models/Task.js) *)

Definition ObjectId := nat.
Definition Date := Z.

(** *** Strings, dates and ids as the driver casts them *)

(** The code units below 256 that [String.prototype.trim] removes: tab, line
    feed, vertical tab, form feed, carriage return, space and the no-break
    space. *)
Definition isSpace (c : Ascii.ascii) : bool :=
  let n := nat_of_ascii c in
  ((9 <=? n) && (n <=? 13)) || (n =? 32) || (n =? 160).

Fixpoint trimStart (s : string) : string :=
  match s with
  | EmptyString => EmptyString
  | String c rest => if isSpace c then trimStart rest else s
  end.

Fixpoint trimEnd (s : string) : string :=
  match s with
  | EmptyString => EmptyString
  | String c rest =>
      match trimEnd rest with
      | EmptyString => if isSpace c then EmptyString else String c EmptyString
      | kept => String c kept
      end
  end.

(** The setter of a schema path declared with [trim: true]. *)
Definition trim (s : string) : string := trimEnd (trimStart s).

(** The time values a [Date] can hold: at most 8.64e15 ms on either side of
    the epoch.  [new Date(v)] is an invalid date for any other value, and
    the cast of such a value to a schema path of type Date fails. *)
Definition maxTime : Z := 8640000000000000.

Definition validDate (v : Z) : bool := ((- maxTime <=? v) && (v <=? maxTime))%Z.

(** [ObjectId.prototype.toString]: 24 hexadecimal digits, in lower case.  An
    id is 12 bytes, a number below 16^24. *)
Definition toHexDigit (d : N) : Ascii.ascii :=
  match d with
  | 0 => "0" | 1 => "1" | 2 => "2" | 3 => "3" | 4 => "4" | 5 => "5" | 6 => "6"
  | 7 => "7" | 8 => "8" | 9 => "9" | 10 => "a" | 11 => "b" | 12 => "c"
  | 13 => "d" | 14 => "e" | _ => "f"
  end%N%char.

Fixpoint toHex (width : nat) (n : N) : string :=
  match width with
  | O => EmptyString
  | S w => toHex w (n / 16)%N +:+ String (toHexDigit (n mod 16)%N) EmptyString
  end.

Definition idString (i : ObjectId) : string := toHex 24 (N.of_nat i).

(** The cast of a string to an ObjectId: it succeeds on 24 hexadecimal
    digits, of either case.  Any other string is taken not to cast, as in
    the current driver; earlier versions also took a string of 12 bytes for
    an id, and the properties below are stated for strings that cast. *)
Definition hexValue (c : Ascii.ascii) : option N :=
  let n := N_of_ascii c in
  (if (48 <=? n) && (n <=? 57) then Some (n - 48)
   else if (97 <=? n) && (n <=? 102) then Some (n - 87)
   else if (65 <=? n) && (n <=? 70) then Some (n - 55)
   else None)%N.

Fixpoint fromHex (acc : N) (s : string) : option N :=
  match s with
  | EmptyString => Some acc
  | String c rest =>
      match hexValue c with
      | Some d => fromHex (16 * acc + d)%N rest
      | None => None
      end
  end.

Definition castObjectId (s : string) : option ObjectId :=
  if String.length s =? 24 then N.to_nat <$> fromHex 0%N s else None.

Inductive Status := ToDo | InProgress | Completed.
Inductive Priority := High | Medium | Low.

#[global] Instance Status_eq_dec : EqDecision Status.
Proof. solve_decision. Defined.
#[global] Instance Priority_eq_dec : EqDecision Priority.
Proof. solve_decision. Defined.

Definition statusName (s : Status) : string :=
  match s with
  | ToDo => "To Do"
  | InProgress => "In Progress"
  | Completed => "Completed"
  end.

Definition priorityName (p : Priority) : string :=
  match p with
  | High => "High"
  | Medium => "Medium"
  | Low => "Low"
  end.

(** [mongoose.Schema.Types.Mixed], as far as the controllers store in it. *)
Inductive Mixed :=
| MUndefined
| MString (s : string)
| MDate (d : Date).

Inductive AuditAction :=
| created | updated | status_changed | priority_changed | assigned
| reassigned | comment_added | attachment_added | attachment_removed.

#[global] Instance AuditAction_eq_dec : EqDecision AuditAction.
Proof. solve_decision. Defined.

Record Comment := {
  comment_user : ObjectId;
  comment_text : string;
  comment_createdAt : Date
}.

Record Attachment := {
  att_id : ObjectId;
  att_filename : string;
  att_originalName : string;
  att_mimetype : string;
  att_size : nat;
  att_uploadedBy : ObjectId;
  att_uploadedAt : Date
}.

Record AuditEntry := {
  audit_user : ObjectId;
  audit_action : AuditAction;
  audit_field : option string;
  audit_oldValue : Mixed;
  audit_newValue : Mixed;
  audit_description : option string;
  audit_timestamp : Date
}.

Record Task := {
  title : string;
  description : option string;
  assignedTo : ObjectId;
  createdBy : ObjectId;
  status : Status;
  priority : Priority;
  dueDate : Date;
  tags : list string;
  attachments : list Attachment;
  comments : list Comment;
  auditHistory : list AuditEntry;
  completedAt : option Date;
  isDeleted : bool
}.

Record User := {
  name : string;
  email : string
}.

(** Field assignments on a task. *)
Definition set_title (v : string) (t : Task) : Task :=
  {| title := v; description := description t; assignedTo := assignedTo t;
     createdBy := createdBy t; status := status t; priority := priority t;
     dueDate := dueDate t; tags := tags t; attachments := attachments t;
     comments := comments t; auditHistory := auditHistory t;
     completedAt := completedAt t; isDeleted := isDeleted t |}.

Definition set_description (v : option string) (t : Task) : Task :=
  {| title := title t; description := v; assignedTo := assignedTo t;
     createdBy := createdBy t; status := status t; priority := priority t;
     dueDate := dueDate t; tags := tags t; attachments := attachments t;
     comments := comments t; auditHistory := auditHistory t;
     completedAt := completedAt t; isDeleted := isDeleted t |}.

Definition set_assignedTo (v : ObjectId) (t : Task) : Task :=
  {| title := title t; description := description t; assignedTo := v;
     createdBy := createdBy t; status := status t; priority := priority t;
     dueDate := dueDate t; tags := tags t; attachments := attachments t;
     comments := comments t; auditHistory := auditHistory t;
     completedAt := completedAt t; isDeleted := isDeleted t |}.

Definition set_status (v : Status) (t : Task) : Task :=
  {| title := title t; description := description t; assignedTo := assignedTo t;
     createdBy := createdBy t; status := v; priority := priority t;
     dueDate := dueDate t; tags := tags t; attachments := attachments t;
     comments := comments t; auditHistory := auditHistory t;
     completedAt := completedAt t; isDeleted := isDeleted t |}.

Definition set_priority (v : Priority) (t : Task) : Task :=
  {| title := title t; description := description t; assignedTo := assignedTo t;
     createdBy := createdBy t; status := status t; priority := v;
     dueDate := dueDate t; tags := tags t; attachments := attachments t;
     comments := comments t; auditHistory := auditHistory t;
     completedAt := completedAt t; isDeleted := isDeleted t |}.

Definition set_dueDate (v : Date) (t : Task) : Task :=
  {| title := title t; description := description t; assignedTo := assignedTo t;
     createdBy := createdBy t; status := status t; priority := priority t;
     dueDate := v; tags := tags t; attachments := attachments t;
     comments := comments t; auditHistory := auditHistory t;
     completedAt := completedAt t; isDeleted := isDeleted t |}.

Definition set_tags (v : list string) (t : Task) : Task :=
  {| title := title t; description := description t; assignedTo := assignedTo t;
     createdBy := createdBy t; status := status t; priority := priority t;
     dueDate := dueDate t; tags := v; attachments := attachments t;
     comments := comments t; auditHistory := auditHistory t;
     completedAt := completedAt t; isDeleted := isDeleted t |}.

Definition set_attachments (v : list Attachment) (t : Task) : Task :=
  {| title := title t; description := description t; assignedTo := assignedTo t;
     createdBy := createdBy t; status := status t; priority := priority t;
     dueDate := dueDate t; tags := tags t; attachments := v;
     comments := comments t; auditHistory := auditHistory t;
     completedAt := completedAt t; isDeleted := isDeleted t |}.

Definition set_comments (v : list Comment) (t : Task) : Task :=
  {| title := title t; description := description t; assignedTo := assignedTo t;
     createdBy := createdBy t; status := status t; priority := priority t;
     dueDate := dueDate t; tags := tags t; attachments := attachments t;
     comments := v; auditHistory := auditHistory t;
     completedAt := completedAt t; isDeleted := isDeleted t |}.

Definition set_auditHistory (v : list AuditEntry) (t : Task) : Task :=
  {| title := title t; description := description t; assignedTo := assignedTo t;
     createdBy := createdBy t; status := status t; priority := priority t;
     dueDate := dueDate t; tags := tags t; attachments := attachments t;
     comments := comments t; auditHistory := v;
     completedAt := completedAt t; isDeleted := isDeleted t |}.

Definition set_completedAt (v : option Date) (t : Task) : Task :=
  {| title := title t; description := description t; assignedTo := assignedTo t;
     createdBy := createdBy t; status := status t; priority := priority t;
     dueDate := dueDate t; tags := tags t; attachments := attachments t;
     comments := comments t; auditHistory := auditHistory t;
     completedAt := v; isDeleted := isDeleted t |}.

Definition set_isDeleted (v : bool) (t : Task) : Task :=
  {| title := title t; description := description t; assignedTo := assignedTo t;
     createdBy := createdBy t; status := status t; priority := priority t;
     dueDate := dueDate t; tags := tags t; attachments := attachments t;
     comments := comments t; auditHistory := auditHistory t;
     completedAt := completedAt t; isDeleted := v |}.

(** ** Documents and the store *)

(** The paths of a task that carry a validator which a request value can
    fail; a sub-document pushed onto [comments] or [attachments] is a path
    of its own. *)
Inductive Path :=
| path_title
| path_description
| path_dueDate
| path_tags
| path_comment (c : Comment)
| path_attachment (a : Attachment).

(** A mongoose document held by a controller. *)
Record Document := {
  _id : ObjectId;
  fields : Task;
  _original : option Task;     (* set by the post-init hook only *)
  statusModified : bool;       (* isModified('status') *)
  modifiedPaths : list Path;   (* the other modified paths, of those above *)
  invalidated : list Path      (* paths assigned a value that did not cast *)
}.

Definition on_fields (f : Task -> Task) (d : Document) : Document :=
  {| _id := _id d; fields := f (fields d); _original := _original d;
     statusModified := statusModified d; modifiedPaths := modifiedPaths d;
     invalidated := invalidated d |}.

Definition markModified (p : Path) (d : Document) : Document :=
  {| _id := _id d; fields := fields d; _original := _original d;
     statusModified := statusModified d; modifiedPaths := modifiedPaths d ++ [p];
     invalidated := invalidated d |}.

Definition invalidate (p : Path) (d : Document) : Document :=
  {| _id := _id d; fields := fields d; _original := _original d;
     statusModified := statusModified d; modifiedPaths := modifiedPaths d;
     invalidated := invalidated d ++ [p] |}.

(** [task.status = v]: the path is marked modified when the value differs. *)
Definition assign_status (v : Status) (d : Document) : Document :=
  {| _id := _id d; fields := set_status v (fields d); _original := _original d;
     statusModified := statusModified d || negb (bool_decide (status (fields d) = v));
     modifiedPaths := modifiedPaths d; invalidated := invalidated d |}.

(** [task.title = v], [task.description = v], [task.tags = v]: the setter
    trims the value (for [tags], every element); the path is marked modified
    when the value differs from the one the document holds. *)
Definition assign_title (v : string) (d : Document) : Document :=
  if bool_decide (trim v = title (fields d)) then d
  else markModified path_title (on_fields (set_title (trim v)) d).

Definition assign_description (v : string) (d : Document) : Document :=
  if bool_decide (Some (trim v) = description (fields d)) then d
  else markModified path_description (on_fields (set_description (Some (trim v))) d).

Definition assign_tags (v : list string) (d : Document) : Document :=
  if bool_decide (trim <$> v = tags (fields d)) then d
  else markModified path_tags (on_fields (set_tags (trim <$> v)) d).

(** [task.dueDate = v]: a value that is no date does not cast; the document
    keeps the date it had and the path is invalidated. *)
Definition assign_dueDate (v : Z) (d : Document) : Document :=
  if validDate v then
    if bool_decide (v = dueDate (fields d)) then d
    else markModified path_dueDate (on_fields (set_dueDate v) d)
  else invalidate path_dueDate d.

(** [task.comments.push(c)], [task.attachments.push(a)]. *)
Definition push_comment (c : Comment) (d : Document) : Document :=
  markModified (path_comment c) (on_fields (fun t => set_comments (comments t ++ [c]) t) d).

Definition push_attachment (a : Attachment) (d : Document) : Document :=
  markModified (path_attachment a)
    (on_fields (fun t => set_attachments (attachments t ++ [a]) t) d).

(** [taskSchema.post('init')]: a document loaded from the store keeps a
    snapshot of itself. *)
Definition init (id : ObjectId) (t : Task) : Document :=
  {| _id := id; fields := t; _original := Some t; statusModified := false;
     modifiedPaths := []; invalidated := [] |}.

Record Db := {
  Tasks : gmap ObjectId Task;
  Users : gmap ObjectId User
}.

Definition with_Tasks (m : gmap ObjectId Task) (db : Db) : Db :=
  {| Tasks := m; Users := Users db |}.

Definition with_Users (m : gmap ObjectId User) (db : Db) : Db :=
  {| Tasks := Tasks db; Users := m |}.

(** What a request reads from its surroundings. *)
Record Env := {
  now : Date;          (* Date.now() / new Date() *)
  oid : ObjectId;      (* ObjectId of a sub-document created by the request *)
  wss : bool           (* is global.wss set *)
}.

(** The [details] argument of [addAuditEntry]; [noDetails] is its default
    [{}]. *)
Record Details := {
  d_field : option string;
  d_oldValue : Mixed;
  d_newValue : Mixed;
  d_description : option string
}.

Definition noDetails : Details :=
  {| d_field := None; d_oldValue := MUndefined; d_newValue := MUndefined;
     d_description := None |}.

Definition describe (s : string) : Details :=
  {| d_field := None; d_oldValue := MUndefined; d_newValue := MUndefined;
     d_description := Some s |}.

Definition mkAudit (e : Env) (userId : ObjectId) (action : AuditAction)
    (details : Details) : AuditEntry :=
  {| audit_user := userId; audit_action := action;
     audit_field := d_field details; audit_oldValue := d_oldValue details;
     audit_newValue := d_newValue details;
     audit_description := d_description details;
     audit_timestamp := now e |}.

(** [taskSchema.methods.addAuditEntry]: push onto [auditHistory]; the
    sub-document's [timestamp] defaults to [Date.now]. *)
Definition addAuditEntry (e : Env) (userId : ObjectId) (action : AuditAction)
    (details : Details) (d : Document) : Document :=
  on_fields (fun t => set_auditHistory
                        (auditHistory t ++ [mkAudit e userId action details]) t) d.

(** What a controller hands to [next]. *)
Inductive Exception :=
| CannotRevert       (* Error('Cannot revert status from Completed'), statusCode 400 *)
| ValidationError    (* a document that does not pass the validators of the schema *)
| CastError.         (* a query value that does not cast to the type of its path *)

(** The validators of the schema, each on the value the document holds under
    the path: [required] and [maxlength] of [title], [maxlength] of
    [description] and of every tag, [required] and [maxlength] of the text of
    a comment, [required] of the two names of an attachment. *)
Definition truthy (s : string) : bool := negb (bool_decide (s = "")).

Definition validator (t : Task) (p : Path) : bool :=
  match p with
  | path_title => truthy (title t) && (String.length (title t) <=? 200)
  | path_description =>
      from_option (fun s => String.length s <=? 5000) true (description t)
  | path_dueDate => true
  | path_tags => forallb (fun tag => String.length tag <=? 50) (tags t)
  | path_comment c =>
      truthy (comment_text c) && (String.length (comment_text c) <=? 2000)
  | path_attachment a => truthy (att_filename a) && truthy (att_originalName a)
  end.

(** The validation that [save] runs first: no path is invalidated and every
    modified path passes its validators. *)
Definition validate (d : Document) : bool :=
  match invalidated d with
  | [] => forallb (validator (fields d)) (modifiedPaths d)
  | _ :: _ => false
  end.

(** [taskSchema.pre('save')]. *)
Definition preSave (e : Env) (d : Document) : Document + Exception :=
  if statusModified d then
    let previousStatus := status <$> _original d in
    if bool_decide (previousStatus = Some Completed)
       && negb (bool_decide (status (fields d) = Completed))
    then inr CannotRevert
    else
      if bool_decide (status (fields d) = Completed)
         && negb (bool_decide (is_Some (completedAt (fields d))))
      then inl (on_fields (set_completedAt (Some (now e))) d)
      else inl d
  else inl d.

(** [doc.save()]: validate, run the pre-save hook, then write the document
    under its id; the saved document has no pending modification. *)
Definition save (e : Env) (db : Db) (d : Document) : (Db * Document) + Exception :=
  if validate d then
    match preSave e d with
    | inl d' =>
        inl (with_Tasks (<[_id d' := fields d']> (Tasks db)) db,
             {| _id := _id d'; fields := fields d'; _original := _original d';
                statusModified := false; modifiedPaths := []; invalidated := [] |})
    | inr err => inr err
    end
  else inr ValidationError.

(** ** Controllers: responses and emitted effects *)

Inductive EventType := TASK_CREATED | TASK_UPDATED | TASK_DELETED.

(** [Push u ty id t] is [global.wss.broadcastToUser(u, {type: ty, ...})];
    [t] is the re-read, populated task ([None] for TASK_DELETED, which
    carries the id only). *)
Inductive Effect :=
| Push (userId : ObjectId) (type : EventType) (taskId : ObjectId) (task : option Task)
| Unlink (filename : string).

Inductive Body :=
| BodyMessage (message : string)
| BodyTask (task : option Task)
| BodyTaskCount (message : string) (taskCount : nat)
| BodyDeleted (message : string) (tasksReassigned : nat).

Inductive Response :=
| json (statusCode : nat) (success : bool) (body : Body)
| next (err : Exception).

Definition Result : Type := Response * list Effect * Db.

Definition push (e : Env) (u : ObjectId) (ty : EventType) (id : ObjectId)
    (t : option Task) : list Effect :=
  if wss e then [Push u ty id t] else [].

(** [Task.findOne({_id, assignedTo, isDeleted: false})]. *)
Definition findOne (db : Db) (id userId : ObjectId) : option Document :=
  match Tasks db !! id with
  | Some t =>
      if bool_decide (assignedTo t = userId) && negb (isDeleted t)
      then Some (init id t) else None
  | None => None
  end.

Definition findById (db : Db) (id : ObjectId) : option Task := Tasks db !! id.

Definition notFound : Response :=
  json 404 false (BodyMessage "Task not found or access denied").

(** *** updateTask *)

Record UpdateBody := {
  b_title : option string;
  b_description : option string;
  b_dueDate : option Z;          (* the time the value denotes, if it is a date *)
  b_priority : option Priority;
  b_tags : option (list string);
  b_status : option Status
}.

Record Change := {
  c_field : string;
  c_oldValue : Mixed;
  c_newValue : Mixed
}.

Definition descriptionValue (o : option string) : Mixed :=
  match o with
  | Some s => MString s
  | None => MUndefined
  end.

(** The response that stands for the spec's InvalidTransitionError. *)
Definition invalidTransition : Response :=
  json 400 false (BodyMessage "Cannot revert status from Completed").

Definition Staged : Type := Document * list Change.

Definition stageTitle (b : UpdateBody) (s : Staged) : Staged :=
  let '(task, changes) := s in
  match b_title b with
  | Some v =>
      if truthy v && negb (bool_decide (v = title (fields task))) then
        (assign_title v task,
         changes ++ [{| c_field := "title";
                        c_oldValue := MString (title (fields task));
                        c_newValue := MString v |}])
      else s
  | None => s
  end.

Definition stageDescription (b : UpdateBody) (s : Staged) : Staged :=
  let '(task, changes) := s in
  match b_description b with
  | Some v =>
      if negb (bool_decide (Some v = description (fields task))) then
        (assign_description v task,
         changes ++ [{| c_field := "description";
                        c_oldValue := descriptionValue (description (fields task));
                        c_newValue := MString v |}])
      else s
  | None => s
  end.

(** [new Date(v).getTime()]: [None] is NaN, the time of an invalid date. *)
Definition getTime (v : Z) : option Z := if validDate v then Some v else None.

Definition stageDueDate (b : UpdateBody) (s : Staged) : Staged :=
  let '(task, changes) := s in
  match b_dueDate b with
  | Some v =>
      if negb (bool_decide (getTime v = Some (dueDate (fields task)))) then
        (assign_dueDate v task,
         changes ++ [{| c_field := "dueDate";
                        c_oldValue := MDate (dueDate (fields task));
                        c_newValue := MDate v |}])
      else s
  | None => s
  end.

Definition stagePriority (e : Env) (userId : ObjectId) (b : UpdateBody)
    (s : Staged) : Staged :=
  let '(task, changes) := s in
  match b_priority b with
  | Some v =>
      if negb (bool_decide (v = priority (fields task))) then
        let old := MString (priorityName (priority (fields task))) in
        let new := MString (priorityName v) in
        (on_fields (set_priority v)
           (addAuditEntry e userId priority_changed
              {| d_field := Some "priority"; d_oldValue := old;
                 d_newValue := new; d_description := None |} task),
         changes ++ [{| c_field := "priority"; c_oldValue := old;
                        c_newValue := new |}])
      else s
  | None => s
  end.

(** The status step is the one that can answer the request early. *)
Definition stageStatus (e : Env) (userId : ObjectId) (b : UpdateBody)
    (s : Staged) : Staged + Response :=
  let '(task, changes) := s in
  match b_status b with
  | Some v =>
      if negb (bool_decide (v = status (fields task))) then
        if bool_decide (status (fields task) = Completed)
           && negb (bool_decide (v = Completed))
        then inr invalidTransition
        else
          let old := MString (statusName (status (fields task))) in
          let new := MString (statusName v) in
          inl (assign_status v
                 (addAuditEntry e userId status_changed
                    {| d_field := Some "status"; d_oldValue := old;
                       d_newValue := new; d_description := None |} task),
               changes ++ [{| c_field := "status"; c_oldValue := old;
                              c_newValue := new |}])
      else inl s
  | None => inl s
  end.

Definition stageTags (b : UpdateBody) (task : Document) : Document :=
  match b_tags b with
  | Some v => assign_tags v task
  | None => task
  end.

(** [changes.map(c => c.field).join(', ')] *)
Definition changedFields (changes : list Change) : string :=
  String.concat ", " (map c_field changes).

Definition stageSummary (e : Env) (userId : ObjectId) (changes : list Change)
    (task : Document) : Document :=
  if 0 <? length changes then
    addAuditEntry e userId updated
      (describe ("Updated: " +:+ changedFields changes)) task
  else task.

(** Everything [updateTask] does to the loaded document before it saves. *)
Definition applyPatch (e : Env) (userId : ObjectId) (b : UpdateBody)
    (task : Document) : Document + Response :=
  let s := stagePriority e userId b
             (stageDueDate b (stageDescription b (stageTitle b (task, [])))) in
  match stageStatus e userId b s with
  | inr res => inr res
  | inl (task', changes) => inl (stageSummary e userId changes (stageTags b task'))
  end.

Definition updateTask (e : Env) (db : Db) (userId id : ObjectId)
    (b : UpdateBody) : Result :=
  match findOne db id userId with
  | None => (notFound, [], db)
  | Some task =>
      match applyPatch e userId b task with
      | inr res => (res, [], db)
      | inl task' =>
          match save e db task' with
          | inr err => (next err, [], db)
          | inl (db', saved) =>
              let populatedTask := findById db' (_id saved) in
              (json 200 true (BodyTask populatedTask),
               push e (assignedTo (fields saved)) TASK_UPDATED (_id saved) populatedTask,
               db')
          end
      end
  end.

(** *** createTask *)

Record CreateBody := {
  cb_title : string;
  cb_description : option string;
  cb_assignedTo : ObjectId;
  cb_dueDate : Z;                (* the time the value denotes, if it is a date *)
  cb_priority : option Priority;
  cb_tags : option (list string)
}.

(** [new Task({...})]: a document under an id the store does not use yet,
    with the values the setters made of the request's; no post-init
    snapshot, and every path the constructor was given is modified.  A
    [dueDate] that is no date is not cast, and the path is invalidated. *)
Definition newTask (db : Db) (userId : ObjectId) (b : CreateBody) : Document :=
  {| _id := fresh (dom (Tasks db));
     fields := {| title := trim (cb_title b);
                  description := trim <$> cb_description b;
                  assignedTo := cb_assignedTo b; createdBy := userId;
                  status := ToDo;
                  priority := default Medium (cb_priority b);
                  dueDate := cb_dueDate b;
                  tags := trim <$> default [] (cb_tags b);
                  attachments := []; comments := []; auditHistory := [];
                  completedAt := None; isDeleted := false |};
     _original := None;
     statusModified := true;
     modifiedPaths := [path_title; path_description; path_dueDate; path_tags];
     invalidated := if validDate (cb_dueDate b) then [] else [path_dueDate] |}.

Definition createTask (e : Env) (db : Db) (userId : ObjectId)
    (b : CreateBody) : Result :=
  match Users db !! cb_assignedTo b with
  | None => (json 404 false (BodyMessage "Assigned user not found"), [], db)
  | Some assignedUser =>
      match save e db (newTask db userId b) with
      | inr err => (next err, [], db)
      | inl (db1, task) =>
          let task' := addAuditEntry e userId created
                         (describe ("Task created and assigned to " +:+ name assignedUser))
                         task in
          match save e db1 task' with
          | inr err => (next err, [], db1)
          | inl (db2, saved) =>
              let populatedTask := findById db2 (_id saved) in
              (json 201 true (BodyTask populatedTask),
               push e (cb_assignedTo b) TASK_CREATED (_id saved) populatedTask,
               db2)
          end
      end
  end.

(** *** deleteTask (soft delete) *)

Definition deleteTask (e : Env) (db : Db) (userId id : ObjectId) : Result :=
  match findOne db id userId with
  | None => (notFound, [], db)
  | Some task =>
      match save e db (on_fields (set_isDeleted true) task) with
      | inr err => (next err, [], db)
      | inl (db', saved) =>
          (json 200 true (BodyMessage "Task deleted successfully"),
           push e (assignedTo (fields saved)) TASK_DELETED (_id saved) None,
           db')
      end
  end.

(** *** addComment *)

Definition addComment (e : Env) (db : Db) (userId id : ObjectId)
    (text : string) : Result :=
  match findOne db id userId with
  | None => (notFound, [], db)
  | Some task =>
      let task1 :=
        push_comment {| comment_user := userId; comment_text := text;
                        comment_createdAt := now e |} task in
      let task2 := addAuditEntry e userId comment_added (describe "Added a comment") task1 in
      match save e db task2 with
      | inr err => (next err, [], db)
      | inl (db', saved) =>
          let populatedTask := findById db' (_id saved) in
          (json 200 true (BodyTask populatedTask),
           push e (assignedTo (fields saved)) TASK_UPDATED (_id saved) populatedTask,
           db')
      end
  end.

(** *** addAttachment / removeAttachment *)

Record File := {
  f_filename : string;
  f_originalname : string;
  f_mimetype : string;
  f_size : nat
}.

Definition addAttachment (e : Env) (db : Db) (userId id : ObjectId)
    (file : option File) : Result :=
  match findOne db id userId with
  | None => (notFound, [], db)
  | Some task =>
      match file with
      | None => (json 400 false (BodyMessage "Please upload a file"), [], db)
      | Some f =>
          let task1 :=
            push_attachment
              {| att_id := oid e; att_filename := f_filename f;
                 att_originalName := f_originalname f;
                 att_mimetype := f_mimetype f; att_size := f_size f;
                 att_uploadedBy := userId; att_uploadedAt := now e |} task in
          let task2 := addAuditEntry e userId attachment_added
                         (describe ("Added attachment: " +:+ f_originalname f)) task1 in
          match save e db task2 with
          | inr err => (next err, [], db)
          | inl (db', saved) =>
              let populatedTask := findById db' (_id saved) in
              (json 200 true (BodyTask populatedTask),
               push e (assignedTo (fields saved)) TASK_UPDATED (_id saved) populatedTask,
               db')
          end
      end
  end.

(** [task.attachments.id(x)] and [task.attachments.pull(x)]. *)
Definition attachmentById (x : ObjectId) (l : list Attachment) : option Attachment :=
  List.find (fun a => bool_decide (att_id a = x)) l.

Definition pull (x : ObjectId) (l : list Attachment) : list Attachment :=
  List.filter (fun a => negb (bool_decide (att_id a = x))) l.

Definition removeAttachment (e : Env) (db : Db) (userId id attachmentId : ObjectId)
    : Result :=
  match findOne db id userId with
  | None => (notFound, [], db)
  | Some task =>
      match attachmentById attachmentId (attachments (fields task)) with
      | None => (json 404 false (BodyMessage "Attachment not found"), [], db)
      | Some attachment =>
          (* fs.unlink: a failure is logged and ignored *)
          let unlink := [Unlink (att_filename attachment)] in
          let task1 := addAuditEntry e userId attachment_removed
                         (describe ("Removed attachment: " +:+ att_originalName attachment))
                         task in
          let task2 := on_fields (fun t => set_attachments
                                    (pull attachmentId (attachments t)) t) task1 in
          match save e db task2 with
          | inr err => (next err, unlink, db)
          | inl (db', saved) =>
              let populatedTask := findById db' (_id saved) in
              (json 200 true (BodyTask populatedTask),
               unlink ++ push e (assignedTo (fields saved)) TASK_UPDATED (_id saved)
                           populatedTask,
               db')
          end
      end
  end.

(** ** userController.deleteUser *)

(** The filter [{assignedTo: id, isDeleted: false}] of both queries. *)
Definition assignedOpen (id : ObjectId) (kv : ObjectId * Task) : Prop :=
  assignedTo kv.2 = id /\ isDeleted kv.2 = false.

#[global] Instance assignedOpen_dec id kv : Decision (assignedOpen id kv).
Proof. unfold assignedOpen. apply _. Defined.

Definition countDocuments (db : Db) (id : ObjectId) : nat :=
  size (filter (assignedOpen id) (Tasks db)).

Definition find (db : Db) (id : ObjectId) : list Document :=
  (fun kv : ObjectId * Task => init kv.1 kv.2)
    <$> map_to_list (filter (assignedOpen id) (Tasks db)).

Definition reassignedDescription (user reassignUser : User) : string :=
  "Reassigned from " +:+ name user +:+ " to " +:+ name reassignUser
    +:+ " (user deletion)".

(** The [for (const task of tasks)] loop.  Every task is saved and pushed on
    its own; a failing save leaves the loop through [next(error)] with the
    earlier tasks already written. *)
Fixpoint reassignAll (e : Env) (userId reassignTo : ObjectId) (descr : string)
    (tasks : list Document) (db : Db) : option Exception * list Effect * Db :=
  match tasks with
  | [] => (None, [], db)
  | task :: rest =>
      let task1 := on_fields (set_assignedTo reassignTo) task in
      let task2 := addAuditEntry e userId reassigned (describe descr) task1 in
      match save e db task2 with
      | inr err => (Some err, [], db)
      | inl (db', saved) =>
          let '(r, effs, db'') := reassignAll e userId reassignTo descr rest db' in
          (r,
           push e reassignTo TASK_CREATED (_id saved) (findById db' (_id saved)) ++ effs,
           db'')
      end
  end.

Definition selfDeletion : Response :=
  json 400 false (BodyMessage "You cannot delete your own account").

Definition needsReassign (taskCount : nat) : Response :=
  json 400 false
    (BodyTaskCount "User has assigned tasks. Please provide reassignTo user ID."
       taskCount).

Definition userDeleted (taskCount : nat) : Response :=
  json 200 true (BodyDeleted "User deleted successfully" taskCount).

(** [User.findByIdAndDelete] *)
Definition findByIdAndDelete (id : ObjectId) (db : Db) : Db :=
  with_Users (delete id (Users db)) db.

(** [params_id] is [req.params.id], the string of the route; [userId] is
    the id of [req.user], whose [id] getter gives [idString userId].  The
    first test compares the two strings; every query after it casts
    [params_id] to an ObjectId, and a string that does not cast makes the
    first query throw. *)
Definition deleteUser (e : Env) (db : Db) (userId : ObjectId) (params_id : string)
    (reassignTo : option ObjectId) : Result :=
  if bool_decide (params_id = idString userId) then (selfDeletion, [], db)
  else
    match castObjectId params_id with
    | None => (next CastError, [], db)
    | Some id =>
        match Users db !! id with
        | None => (json 404 false (BodyMessage "User not found"), [], db)
        | Some user =>
            let taskCount := countDocuments db id in
            if 0 <? taskCount then
              match reassignTo with
              | None => (needsReassign taskCount, [], db)
              | Some target =>
                  match Users db !! target with
                  | None =>
                      (json 404 false (BodyMessage "Reassign target user not found"),
                       [], db)
                  | Some reassignUser =>
                      match reassignAll e userId target
                              (reassignedDescription user reassignUser) (find db id) db with
                      | (Some err, effs, db') => (next err, effs, db')
                      | (None, effs, db') =>
                          (userDeleted taskCount, effs, findByIdAndDelete id db')
                      end
                  end
              end
            else (userDeleted taskCount, [], findByIdAndDelete id db)
        end
    end.

(** ** The mutation requests of the API *)

Inductive Request :=
| CreateTask (userId : ObjectId) (b : CreateBody)
| UpdateTask (userId id : ObjectId) (b : UpdateBody)
| DeleteTask (userId id : ObjectId)
| AddComment (userId id : ObjectId) (text : string)
| AddAttachment (userId id : ObjectId) (file : option File)
| RemoveAttachment (userId id attachmentId : ObjectId)
| DeleteUser (userId : ObjectId) (params_id : string) (reassignTo : option ObjectId).

Definition handle (e : Env) (db : Db) (r : Request) : Result :=
  match r with
  | CreateTask userId b => createTask e db userId b
  | UpdateTask userId id b => updateTask e db userId id b
  | DeleteTask userId id => deleteTask e db userId id
  | AddComment userId id text => addComment e db userId id text
  | AddAttachment userId id file => addAttachment e db userId id file
  | RemoveAttachment userId id a => removeAttachment e db userId id a
  | DeleteUser userId id reassignTo => deleteUser e db userId id reassignTo
  end.

(** A run of requests, each with its own environment. *)
Fixpoint run (db : Db) (rs : list (Env * Request)) : Db :=
  match rs with
  | [] => db
  | (e, r) :: rest => run (handle e db r).2 rest
  end.

(** ** Read-only endpoints *)

(** *** getTask *)

Definition getTask (db : Db) (userId id : ObjectId) : Response :=
  match findOne db id userId with
  | None => notFound
  | Some task => json 200 true (BodyTask (Some (fields task)))
  end.

(** *** downloadAttachment *)

(** [path.join(dir, filename)], kept as its two arguments. *)
Record FilePath := {
  p_dir : string;
  p_file : string
}.

Inductive Download :=
| answered (r : Response)
| download (filePath : FilePath) (filename : string).   (* res.download(filePath, filename) *)

(** [process.env.UPLOAD_PATH || './uploads'] *)
Definition uploadDir (UPLOAD_PATH : option string) : string :=
  match UPLOAD_PATH with
  | Some p => if truthy p then p else "./uploads"
  | None => "./uploads"
  end.

Definition downloadAttachment (UPLOAD_PATH : option string) (db : Db)
    (userId id attachmentId : ObjectId) : Download :=
  match findOne db id userId with
  | None => answered notFound
  | Some task =>
      match attachmentById attachmentId (attachments (fields task)) with
      | None => answered (json 404 false (BodyMessage "Attachment not found"))
      | Some attachment =>
          download {| p_dir := uploadDir UPLOAD_PATH; p_file := att_filename attachment |}
            (att_originalName attachment)
      end
  end.

(** *** getTasks *)







Section Queries.

(** Two operations of the database that are not code of the repository:
    [regexMatch p s] tells whether the pattern [p], taken without regard to
    case, matches somewhere in [s]; [sortBy field order l] orders the
    documents [l] by [field], ascending for [1] and descending for [-1]. *)
Variable regexMatch : string -> string -> bool.
Variable sortBy : string -> Z -> list (ObjectId * Task) -> list (ObjectId * Task).



End Queries.


(** *** getUsers, getUser (userController) *)

Inductive UserResponse :=
| usersJson (statusCode : nat) (success : bool) (count : nat) (users : list (ObjectId * User))
| userJson (statusCode : nat) (success : bool) (user : User)
| userError (statusCode : nat) (success : bool) (message : string).

Definition getUsers (db : Db) : UserResponse :=
  let users := map_to_list (Users db) in
  usersJson 200 true (length users) users.

Definition getUser (db : Db) (id : ObjectId) : UserResponse :=
  match Users db !! id with
  | None => userError 404 false "User not found"
  | Some user => userJson 200 true user
  end.

(** * Vocabulary of the task engine properties *)

(** ** What an update stages, read off the request and the loaded task *)

Definition titleChanged (b : UpdateBody) (t : Task) : bool :=
  match b_title b with
  | Some v => truthy v && negb (bool_decide (v = title t))
  | None => false
  end.

Definition descriptionChanged (b : UpdateBody) (t : Task) : bool :=
  match b_description b with
  | Some v => negb (bool_decide (Some v = description t))
  | None => false
  end.

Definition dueDateChanged (b : UpdateBody) (t : Task) : bool :=
  match b_dueDate b with
  | Some v => negb (bool_decide (getTime v = Some (dueDate t)))
  | None => false
  end.

Definition priorityChanged (b : UpdateBody) (t : Task) : bool :=
  match b_priority b with
  | Some v => negb (bool_decide (v = priority t))
  | None => false
  end.

Definition statusChanged (b : UpdateBody) (t : Task) : bool :=
  match b_status b with
  | Some v => negb (bool_decide (v = status t))
  | None => false
  end.

(** The update asks to leave Completed. *)
Definition reverts (b : UpdateBody) (t : Task) : bool :=
  match b_status b with
  | Some v => bool_decide (status t = Completed) && negb (bool_decide (v = Completed))
  | None => false
  end.

(** The values the document holds after the assignments: what the setters
    made of the request's. *)
Definition newTitle (b : UpdateBody) (t : Task) : string :=
  if titleChanged b t then from_option trim (title t) (b_title b) else title t.

Definition newDescription (b : UpdateBody) (t : Task) : option string :=
  if descriptionChanged b t then trim <$> b_description b else description t.

Definition newDueDate (b : UpdateBody) (t : Task) : Date :=
  match b_dueDate b with
  | Some v => if validDate v then v else dueDate t
  | None => dueDate t
  end.

Definition newTags (b : UpdateBody) (t : Task) : list string :=
  from_option (fmap trim) (tags t) (b_tags b).

Definition newPriority (b : UpdateBody) (t : Task) : Priority :=
  default (priority t) (b_priority b).

Definition newStatus (b : UpdateBody) (t : Task) : Status :=
  default (status t) (b_status b).

Definition changedNames (b : UpdateBody) (t : Task) : list string :=
  (if titleChanged b t then ["title"] else [])
  ++ (if descriptionChanged b t then ["description"] else [])
  ++ (if dueDateChanged b t then ["dueDate"] else [])
  ++ (if priorityChanged b t then ["priority"] else [])
  ++ (if statusChanged b t then ["status"] else []).

Definition priorityEntry (e : Env) (userId : ObjectId) (old new : Priority) : AuditEntry :=
  {| audit_user := userId; audit_action := priority_changed;
     audit_field := Some "priority";
     audit_oldValue := MString (priorityName old);
     audit_newValue := MString (priorityName new);
     audit_description := None; audit_timestamp := now e |}.

Definition statusEntry (e : Env) (userId : ObjectId) (old new : Status) : AuditEntry :=
  {| audit_user := userId; audit_action := status_changed;
     audit_field := Some "status";
     audit_oldValue := MString (statusName old);
     audit_newValue := MString (statusName new);
     audit_description := None; audit_timestamp := now e |}.

Definition summaryEntry (e : Env) (userId : ObjectId) (names : list string) : AuditEntry :=
  {| audit_user := userId; audit_action := updated; audit_field := None;
     audit_oldValue := MUndefined; audit_newValue := MUndefined;
     audit_description := Some ("Updated: " +:+ String.concat ", " names);
     audit_timestamp := now e |}.

Definition stagedEntries (e : Env) (userId : ObjectId) (b : UpdateBody) (t : Task)
    : list AuditEntry :=
  (if priorityChanged b t then [priorityEntry e userId (priority t) (newPriority b t)] else [])
  ++ (if statusChanged b t then [statusEntry e userId (status t) (newStatus b t)] else [])
  ++ (if 0 <? length (changedNames b t) then [summaryEntry e userId (changedNames b t)] else []).

Definition patched (e : Env) (userId : ObjectId) (b : UpdateBody) (t : Task) : Task :=
  {| title := newTitle b t; description := newDescription b t;
     assignedTo := assignedTo t; createdBy := createdBy t;
     status := newStatus b t; priority := newPriority b t;
     dueDate := newDueDate b t; tags := newTags b t;
     attachments := attachments t; comments := comments t;
     auditHistory := auditHistory t ++ stagedEntries e userId b t;
     completedAt := completedAt t; isDeleted := isDeleted t |}.

(** The document after a stage of a controller: its fields changed by [f],
    the paths [mp] marked modified and the paths [inv] invalidated. *)
Definition amend (f : Task -> Task) (mp inv : list Path) (d : Document) : Document :=
  {| _id := _id d; fields := f (fields d); _original := _original d;
     statusModified := statusModified d;
     modifiedPaths := modifiedPaths d ++ mp; invalidated := invalidated d ++ inv |}.

(** A document without a pending modification, as [init] gives it. *)
Definition pristine (d : Document) : Prop :=
  statusModified d = false /\ modifiedPaths d = [] /\ invalidated d = [].

(** A document as [save] leaves it: no pending modification. *)
Definition settled (d : Document) : Document :=
  {| _id := _id d; fields := fields d; _original := _original d;
     statusModified := false; modifiedPaths := []; invalidated := [] |}.

(** The paths an update modifies, and the ones it invalidates. *)
Definition touched (b : UpdateBody) (t : Task) : list Path :=
  (if bool_decide (newTitle b t = title t) then [] else [path_title])
  ++ (if bool_decide (newDescription b t = description t) then [] else [path_description])
  ++ (if bool_decide (newDueDate b t = dueDate t) then [] else [path_dueDate])
  ++ (if bool_decide (newTags b t = tags t) then [] else [path_tags]).

Definition uncast (b : UpdateBody) : list Path :=
  match b_dueDate b with
  | Some v => if validDate v then [] else [path_dueDate]
  | None => []
  end.

(** The update of [t] passes the validation of [save]. *)
Definition passes (e : Env) (userId : ObjectId) (b : UpdateBody) (t : Task) : bool :=
  match uncast b with
  | [] => forallb (validator (patched e userId b t)) (touched b t)
  | _ :: _ => false
  end.

(** ** Stored tasks before and after a request *)

(** The request of [userId] for task [id] reaches the stored task [t]. *)
Definition reaches (db : Db) (userId id : ObjectId) (t : Task) : Prop :=
  Tasks db !! id = Some t /\ assignedTo t = userId /\ isDeleted t = false.

(** What the pre-save hook adds to an accepted update of [t]. *)
Definition stamped (e : Env) (userId : ObjectId) (b : UpdateBody) (t : Task) : Task :=
  if statusChanged b t
     && bool_decide (newStatus b t = Completed)
     && negb (bool_decide (is_Some (completedAt t)))
  then set_completedAt (Some (now e)) (patched e userId b t)
  else patched e userId b t.

Definition reassignedTask (e : Env) (userId target : ObjectId) (descr : string)
    (t : Task) : Task :=
  set_auditHistory
    (auditHistory t ++ [mkAudit e userId reassigned (describe descr)])
    (set_assignedTo target t).

(** [after e t t']: [t'] is what a request handled in environment [e] may
    leave in place of the stored task [t]. *)
Definition after (e : Env) (t t' : Task) : Prop :=
  auditHistory t `prefix_of` auditHistory t'
  /\ completedAt t'
     = match completedAt t with
       | Some d => Some d
       | None =>
           if bool_decide (status t <> Completed /\ status t' = Completed)
           then Some (now e) else None
       end
  /\ (status t = Completed -> status t' = Completed).

Definition createdTask (e : Env) (db : Db) (userId : ObjectId) (b : CreateBody)
    (assignedUser : User) : Task :=
  set_auditHistory
    [mkAudit e userId created
       (describe ("Task created and assigned to " +:+ name assignedUser))]
    (fields (newTask db userId b)).

(** The audit history stored under an id; empty while no task is stored there. *)
Definition historyOf (db : Db) (i : ObjectId) : list AuditEntry :=
  from_option auditHistory [] (Tasks db !! i).




(** The update is not one that asks a Completed task to leave Completed. *)
Definition accepted (b : UpdateBody) (t : Task) : Prop :=
  status t = Completed -> forall s, b_status b = Some s -> s = Completed.

(** No scalar field of the patch differs from the stored task. *)
Definition scalarsKept (b : UpdateBody) (t : Task) : Prop :=
  (forall v, b_title b = Some v -> v = title t)
  /\ (forall v, b_description b = Some v -> Some v = description t)
  /\ (forall v, b_dueDate b = Some v -> v = dueDate t)
  /\ (forall v, b_priority b = Some v -> v = priority t)
  /\ (forall v, b_status b = Some v -> v = status t).

(** ** What the other task requests store *)

(** The task after [addComment]. *)
Definition commented (e : Env) (userId : ObjectId) (text : string) (t : Task) : Task :=
  set_auditHistory
    (auditHistory t ++ [mkAudit e userId comment_added (describe "Added a comment")])
    (set_comments
       (comments t ++ [{| comment_user := userId; comment_text := text;
                          comment_createdAt := now e |}]) t).

(** The sub-document [addAttachment] pushes, and the task after it. *)
Definition newAttachment (e : Env) (userId : ObjectId) (f : File) : Attachment :=
  {| att_id := oid e; att_filename := f_filename f;
     att_originalName := f_originalname f; att_mimetype := f_mimetype f;
     att_size := f_size f; att_uploadedBy := userId; att_uploadedAt := now e |}.

Definition attached (e : Env) (userId : ObjectId) (f : File) (t : Task) : Task :=
  set_auditHistory
    (auditHistory t ++
       [mkAudit e userId attachment_added
          (describe ("Added attachment: " +:+ f_originalname f))])
    (set_attachments (attachments t ++ [newAttachment e userId f]) t).

(** The task after [removeAttachment] found [att] under the id [a]. *)
Definition detached (e : Env) (userId a : ObjectId) (att : Attachment) (t : Task) : Task :=
  set_attachments (pull a (attachments t))
    (set_auditHistory
       (auditHistory t ++
          [mkAudit e userId attachment_removed
             (describe ("Removed attachment: " +:+ att_originalName att))])
       t).


Definition storablePatch (b : UpdateBody) : Prop :=
  (forall v, b_title b = Some v -> v <> "" ->
     trim v <> "" /\ String.length (trim v) <= 200)
  /\ (forall v, b_description b = Some v -> String.length (trim v) <= 5000)
  /\ (forall l tag, b_tags b = Some l -> tag ∈ l -> String.length (trim tag) <= 50)
  /\ (forall v, b_dueDate b = Some v -> validDate v = true).

(** The same as tests, on the values a request hands to [save]. *)
Definition validCreate (b : CreateBody) : bool :=
  validDate (cb_dueDate b)
  && truthy (trim (cb_title b)) && (String.length (trim (cb_title b)) <=? 200)
  && from_option (fun d => String.length (trim d) <=? 5000) true (cb_description b)
  && forallb (fun tag => String.length tag <=? 50) (trim <$> default [] (cb_tags b)).

Definition validComment (text : string) : bool :=
  truthy text && (String.length text <=? 2000).

Definition validFile (f : File) : bool :=
  truthy (f_filename f) && truthy (f_originalname f).

Definition storableComment (text : string) : Prop :=
  text <> "" /\ String.length text <= 2000.

Definition storableFile (f : File) : Prop :=
  f_filename f <> "" /\ f_originalname f <> "".


(** The patch carries none of the free-text fields. *)
Definition plainPatch (b : UpdateBody) : Prop :=
  b_title b = None /\ b_description b = None /\ b_tags b = None.

(** The completion date is set exactly on the Completed tasks. *)
Definition consistent (t : Task) : Prop :=
  status t = Completed <-> is_Some (completedAt t).

(** [kept t t']: what no request changes when it leaves [t'] in place of the
    stored task [t]. *)
Definition kept (t t' : Task) : Prop :=
  createdBy t' = createdBy t
  /\ comments t `prefix_of` comments t'
  /\ (isDeleted t = true -> t' = t).

(** Every task of the store is one the requester cannot reach under [id]. *)
Definition unreachable (db : Db) (userId id : ObjectId) : Prop :=
  forall t, Tasks db !! id = Some t -> assignedTo t <> userId \/ isDeleted t = true.

(** * The push registry (class WebSocketServer) *)

Module Registry.

Definition ConnId := nat.

Inductive ReadyState := CONNECTING | OPEN | CLOSING | CLOSED.

#[global] Instance ReadyState_eq_dec : EqDecision ReadyState.
Proof. solve_decision. Defined.

(** The fields the server keeps on a [ws] object.  The 'pong', 'message',
    'close' and 'error' handlers are attached in the same run as [userId] is
    set ([ws.send] in between does not throw on a socket that is open or
    closed), so a socket has handlers exactly when [ws_userId] is set. *)
Record Socket := {
  ws_userId : option ObjectId;
  isAlive : option bool;          (* undefined until the handshake succeeds *)
  readyState : ReadyState
}.

(** [socks] are the socket objects by identity, [clients] is [this.clients]
    (Map of userId to Set of sockets, a Set being a duplicate-free list in
    insertion order) and [wssClients] is [this.wss.clients], the sockets the
    underlying server tracks.  [awaiting] holds the calls of
    [handleConnection] that are suspended at [await User.findById], each with
    the id it looks up: other events are handled while they wait. *)
Record Server := {
  socks : gmap ConnId Socket;
  clients : gmap ObjectId (list ConnId);
  wssClients : list ConnId;
  awaiting : gmap ConnId ObjectId
}.

Definition empty : Server :=
  {| socks := ∅; clients := ∅; wssClients := []; awaiting := ∅ |}.

(** ** Vocabulary of the registry properties *)

(** No user maps to an empty set. *)
Definition noEmptySet (st : Server) : Prop :=
  forall u conns, clients st !! u = Some conns -> conns <> [].

(** The tracked sockets are distinct and known; a registry set is not
    empty, has no duplicate, and holds sockets of its user only; a socket
    whose handshake is suspended is known and carries no [userId] yet. *)
Definition wf (st : Server) : Prop :=
  NoDup (wssClients st)
  /\ (forall c, c ∈ wssClients st -> is_Some (socks st !! c))
  /\ (forall u conns, clients st !! u = Some conns ->
        conns <> [] /\ NoDup conns
        /\ forall c, c ∈ conns ->
             exists s, socks st !! c = Some s /\ ws_userId s = Some u)
  /\ (forall c u, awaiting st !! c = Some u ->
        exists s, socks st !! c = Some s /\ ws_userId s = None).

(** The liveness flag of a socket is [false]. *)
Definition flagged (st : Server) (ws : ConnId) : bool :=
  match socks st !! ws with
  | Some s => bool_decide (isAlive s = Some false)
  | None => false
  end.

Definition cleared (s : Socket) : Socket :=
  {| ws_userId := ws_userId s; isAlive := Some false; readyState := readyState s |}.

(** The socket is in the registry set of some user. *)
Definition registered (st : Server) (ws : ConnId) : Prop :=
  exists u conns, clients st !! u = Some conns /\ ws ∈ conns.

(** [silent st ws]: the socket is gone -- no longer tracked and in no
    registry set --, or it is tracked and its flag is still [false]: it has
    not answered since the flag was cleared. *)
Definition silent (st : Server) (ws : ConnId) : Prop :=
  ((ws ∉ wssClients st) /\ ~ registered st ws)
  \/ (ws ∈ wssClients st /\ flagged st ws = true).

(** The socket went through a handshake that was refused: it has no
    [userId] and no handler, and no lookup is pending for it. *)
Definition refused (st : Server) (ws : ConnId) : Prop :=
  (exists s, socks st !! ws = Some s /\ ws_userId s = None)
  /\ awaiting st !! ws = None.

(** The handshake of the socket is suspended at the lookup of user [u]. *)
Definition pending (st : Server) (ws : ConnId) (u : ObjectId) : Prop :=
  awaiting st !! ws = Some u.

(** The socket went through a handshake that was accepted: it carries a
    [userId] and the handlers. *)
Definition authenticated (st : Server) (ws : ConnId) : Prop :=
  exists s u, socks st !! ws = Some s /\ ws_userId s = Some u.

Section Serializer.

Context {Message : Type}.
(** [JSON.stringify] *)
Variable stringify : Message -> string.
(** The three messages the server itself builds. *)
Variable connectedMsg : ObjectId -> Message.
Variable pongMsg : Message.

(** What the server does to the outside, in order. *)
Inductive Out :=
| Stringify (m : Message)
| Send (ws : ConnId) (payload : string)
| Ping (ws : ConnId)
| Terminate (ws : ConnId)
| CloseWith (ws : ConnId) (code : nat) (reason : string).

Definition isOpen (st : Server) (ws : ConnId) : bool :=
  match socks st !! ws with
  | Some s => bool_decide (readyState s = OPEN)
  | None => false
  end.

(** [Set.prototype.add] and [Set.prototype.delete] *)
Definition setAdd (ws : ConnId) (s : list ConnId) : list ConnId :=
  if bool_decide (ws ∈ s) then s else s ++ [ws].

Definition setDelete (ws : ConnId) (s : list ConnId) : list ConnId :=
  filter (fun c => c <> ws) s.

(** [broadcastToUser(userId, message)] *)
Definition broadcastToUser (st : Server) (userId : ObjectId) (message : Message)
    : list Out :=
  match clients st !! userId with
  | Some userConnections =>
      let messageStr := stringify message in
      Stringify message ::
      flat_map (fun ws => if isOpen st ws then [Send ws messageStr] else [])
        userConnections
  | None => []
  end.

(** [broadcast(message)]: every open connection of every user.  The registry
    is a finite map here, so the users are visited in the order of the map,
    not in the insertion order of the JavaScript [Map]; within one user the
    order of the set is kept. *)
Definition broadcast (st : Server) (message : Message) : list Out :=
  let messageStr := stringify message in
  Stringify message ::
  flat_map (fun kv : ObjectId * list ConnId =>
              flat_map (fun ws => if isOpen st ws then [Send ws messageStr] else []) kv.2)
    (map_to_list (clients st)).

(** [getClientCount()] *)
Definition getClientCount (st : Server) : nat :=
  foldl (fun count (kv : ObjectId * list ConnId) => count + length kv.2) 0
    (map_to_list (clients st)).

(** [handleDisconnection(ws)] *)
Definition handleDisconnection (st : Server) (ws : ConnId) : Server :=
  match socks st !! ws with
  | Some s =>
      match ws_userId s with
      | Some u =>
          match clients st !! u with
          | Some conns =>
              let conns' := setDelete ws conns in
              {| socks := socks st;
                 clients := if length conns' =? 0 then delete u (clients st)
                            else <[u := conns']> (clients st);
                 wssClients := wssClients st; awaiting := awaiting st |}
          | None => st
          end
      | None => st
      end
  | None => st
  end.

(** The outcome of the part of [handleConnection] that runs with the
    'connection' event, up to the await: no token, a token that does not
    verify, an exception (the URL does not parse), or a verified token with
    the id it carries. *)
Inductive Handshake :=
| NoToken
| InvalidToken
| Verified (userId : ObjectId)
| Thrown.

(** How [await User.findById(decoded.id)] settles. *)
Inductive Lookup :=
| UserFound
| UserNotFound
| LookupFailed.

Definition newSocket (st : Server) : ConnId := fresh (dom (socks st)).

(** [ws.close(code, reason)]: nothing happens to a socket that is closed. *)
Definition closing (s : Socket) : Socket :=
  {| ws_userId := ws_userId s; isAlive := isAlive s;
     readyState := if bool_decide (readyState s = CLOSED) then CLOSED else CLOSING |}.

(** The server's 'connection' event followed by [handleConnection], up to
    the await.  The underlying server tracks the new socket; with a verified
    token the call is suspended and the socket stays as it is, open and
    without handlers. *)
Definition handleConnection (st : Server) (h : Handshake) : list Out * Server :=
  let ws := newSocket st in
  let fresh_socket := {| ws_userId := None; isAlive := None; readyState := OPEN |} in
  let rejected code reason :=
    ([CloseWith ws code reason],
     {| socks := <[ws := closing fresh_socket]> (socks st);
        clients := clients st;
        wssClients := wssClients st ++ [ws];
        awaiting := awaiting st |}) in
  match h with
  | NoToken => rejected 1008 "Token required"
  | InvalidToken => rejected 1008 "Invalid token"
  | Thrown => rejected 1011 "Authentication failed"
  | Verified u =>
      ([],
       {| socks := <[ws := fresh_socket]> (socks st);
          clients := clients st;
          wssClients := wssClients st ++ [ws];
          awaiting := <[ws := u]> (awaiting st) |})
  end.

(** [handleConnection] from the await on, when the lookup settles.  The
    socket is whatever it has become in the meantime: if it was closed, it is
    registered all the same, the greeting is handed to [ws.send] and lost,
    and the handlers that are attached now never run. *)
Definition resumeConnection (st : Server) (ws : ConnId) (r : Lookup)
    : list Out * Server :=
  match awaiting st !! ws, socks st !! ws with
  | Some u, Some s =>
      let rejected code reason :=
        ([CloseWith ws code reason],
         {| socks := <[ws := closing s]> (socks st);
            clients := clients st;
            wssClients := wssClients st;
            awaiting := delete ws (awaiting st) |}) in
      match r with
      | UserNotFound => rejected 1008 "User not found"
      | LookupFailed => rejected 1011 "Authentication failed"
      | UserFound =>
          ([Stringify (connectedMsg u); Send ws (stringify (connectedMsg u))],
           {| socks := <[ws := {| ws_userId := Some u; isAlive := Some true;
                                  readyState := readyState s |}]> (socks st);
              clients := <[u := setAdd ws (default [] (clients st !! u))]> (clients st);
              wssClients := wssClients st;
              awaiting := delete ws (awaiting st) |})
      end
  | _, _ => ([], st)
  end.

(** The 'pong' handler: [ws.isAlive = true]. *)
Definition onPong (st : Server) (ws : ConnId) : Server :=
  match socks st !! ws with
  | Some s =>
      match ws_userId s with
      | Some _ =>
          {| socks := <[ws := {| ws_userId := ws_userId s; isAlive := Some true;
                                 readyState := readyState s |}]> (socks st);
             clients := clients st; wssClients := wssClients st;
             awaiting := awaiting st |}
      | None => st
      end
  | None => st
  end.

(** The 'message' handler with [handleMessage]; [None] is a payload that
    does not parse, [Some ty] a parsed message of type [ty]. *)
Definition onMessage (st : Server) (ws : ConnId) (data : option string) : list Out :=
  match socks st !! ws with
  | Some s =>
      match ws_userId s, data with
      | Some _, Some ty =>
          if bool_decide (ty = "PING")
          then [Stringify pongMsg; Send ws (stringify pongMsg)] else []
      | _, _ => []
      end
  | None => []
  end.

(** The socket is gone: the underlying server drops it from its own set and
    the 'close' handler, if attached, runs [handleDisconnection]. *)
Definition onClose (st : Server) (ws : ConnId) : Server :=
  match socks st !! ws with
  | Some s =>
      let st' := handleDisconnection st ws in
      {| socks := <[ws := {| ws_userId := ws_userId s; isAlive := isAlive s;
                             readyState := CLOSED |}]> (socks st');
         clients := clients st';
         wssClients := setDelete ws (wssClients st');
         awaiting := awaiting st' |}
  | None => st
  end.

(** The 'error' handler. *)
Definition onError (st : Server) (ws : ConnId) : Server := handleDisconnection st ws.


(** One socket of the sweep: [terminate()] a socket whose flag is [false],
    otherwise clear the flag and [ping()]. *)
Definition sweepOne (acc : list Out * list ConnId * Server) (ws : ConnId)
    : list Out * list ConnId * Server :=
  let '(out, terminated, st) := acc in
  match socks st !! ws with
  | Some s =>
      if bool_decide (isAlive s = Some false) then
        (out ++ [Terminate ws], terminated ++ [ws], st)
      else
        (out ++ [Ping ws], terminated,
         {| socks := <[ws := {| ws_userId := ws_userId s; isAlive := Some false;
                                readyState := readyState s |}]> (socks st);
            clients := clients st; wssClients := wssClients st;
            awaiting := awaiting st |})
  | None => acc
  end.

(** [startHeartbeat()]: [setInterval(callback, 30000)], as the period in
    milliseconds and the callback.  The callback is the [forEach] over
    [this.wss.clients]; the 'close' events of the sockets it terminated
    follow it. *)
Definition startHeartbeat : Z * (Server -> list Out * Server) :=
  (30000%Z,
   fun st =>
     let '(out, terminated, st1) := foldl sweepOne ([], [], st) (wssClients st) in
     (out, foldl onClose st1 terminated)).

(** One firing of the timer that [startHeartbeat] set. *)
Definition heartbeat (st : Server) : list Out * Server := startHeartbeat.2 st.

(** What can happen to the server. *)
Inductive Event :=
| EConnection (h : Handshake)
| EFindById (ws : ConnId) (r : Lookup)
| EPong (ws : ConnId)
| EMessage (ws : ConnId) (data : option string)
| EClose (ws : ConnId)
| EError (ws : ConnId)
| EHeartbeat
| EBroadcast (userId : ObjectId) (message : Message).

Definition step (st : Server) (ev : Event) : list Out * Server :=
  match ev with
  | EConnection h => handleConnection st h
  | EFindById ws r => resumeConnection st ws r
  | EPong ws => ([], onPong st ws)
  | EMessage ws data => (onMessage st ws data, st)
  | EClose ws => ([], onClose st ws)
  | EError ws => ([], onError st ws)
  | EHeartbeat => heartbeat st
  | EBroadcast u m => (broadcastToUser st u m, st)
  end.

(** A run of events: everything the server emitted, and its final state. *)
Fixpoint run (st : Server) (evs : list Event) : list Out * Server :=
  match evs with
  | [] => ([], st)
  | ev :: rest =>
      let '(out, st') := step st ev in
      let '(outs, st'') := run st' rest in
      (out ++ outs, st'')
  end.

Definition exec (st : Server) (evs : list Event) : Server := (run st evs).2.

(** ** Observations on a trace *)

Definition probe (st : Server) (ws : ConnId) : Out :=
  if flagged st ws then Terminate ws else Ping ws.

(** What a trace serialized, and what it delivered to which socket. *)
Definition serializations (out : list Out) : list Message :=
  omap (fun o => match o with Stringify m => Some m | _ => None end) out.

Definition deliveries (out : list Out) : list (ConnId * string) :=
  omap (fun o => match o with Send ws p => Some (ws, p) | _ => None end) out.

End Serializer.

End Registry.

(** * The client reconnection controller (hooks/useWebSocket.js) *)

Module Client.

Inductive ReadyState := CONNECTING | OPEN | CLOSING | CLOSED.

#[global] Instance ReadyState_eq_dec : EqDecision ReadyState.
Proof. solve_decision. Defined.

(** A [WebSocket] the hook created: the token its effect closed over, its
    state, and whether its [onclose] handler is still attached. *)
Record WsObj := {
  ws_token : string;
  ws_readyState : ReadyState;
  ws_onclose : bool
}.

(** The refs and state of one mounted component.  [token] is the value of
    [useAuth()] at the last render; [cleanup] tells whether the last run of
    the effect returned its cleanup function and that function has not run
    yet; [timers] are the pending [setTimeout] callbacks with the token they
    closed over. *)
Record Hook := {
  token : option string;
  sockets : gmap nat WsObj;
  wsRef : option nat;
  reconnectTimeoutRef : option nat;
  timers : gmap nat string;
  reconnectAttemptsRef : nat;
  isConnected : bool;
  mountedRef : bool;
  cleanup : bool;
  unmounted : bool
}.

(** What the hook does to the outside. *)
Inductive Action :=
| NewWebSocket (id : nat) (token : string)
| Schedule (delay : Z) (attempt : nat)      (* setTimeout(..., delay) *)
| AttemptReconnect                          (* the timer callback passes its guard *)
| Deliver (data : string)                   (* onMessage(data) *)
| CloseSocket (id : nat) (code : nat).      (* ws.close(code, ...) *)

(** JavaScript truthiness of the token. *)
Definition hasToken (tok : option string) : bool :=
  match tok with
  | Some s => negb (bool_decide (s = ""))
  | None => false
  end.

Definition cleanClose : nat := 1000.
Definition baseDelay : Z := 3000%Z.
Definition maxAttempts : nat := 3.

Definition liveState (h : Hook) (id : nat) : bool :=
  match sockets h !! id with
  | Some w => bool_decide (ws_readyState w = OPEN)
              || bool_decide (ws_readyState w = CONNECTING)
  | None => false
  end.

(** The body of the effect, run with the token of the render. *)
Definition effect (tok : option string) (h : Hook) : list Action * Hook :=
  let h1 := {| token := tok; sockets := sockets h; wsRef := wsRef h;
               reconnectTimeoutRef := reconnectTimeoutRef h; timers := timers h;
               reconnectAttemptsRef := reconnectAttemptsRef h;
               isConnected := isConnected h; mountedRef := true;
               cleanup := false; unmounted := unmounted h |} in
  match tok with
  | Some t =>
      if negb (hasToken tok) then ([], h1)
      else if from_option (liveState h) false (wsRef h) then ([], h1)
      else
        let id := fresh (dom (sockets h)) in
        ([NewWebSocket id t],
         {| token := tok;
            sockets := <[id := {| ws_token := t; ws_readyState := CONNECTING;
                                  ws_onclose := true |}]> (sockets h);
            wsRef := Some id;
            reconnectTimeoutRef := reconnectTimeoutRef h; timers := timers h;
            reconnectAttemptsRef := reconnectAttemptsRef h;
            isConnected := isConnected h; mountedRef := true;
            cleanup := true; unmounted := unmounted h |})
  | None => ([], h1)
  end.

(** The cleanup function the effect returned. *)
Definition runCleanup (h : Hook) : list Action * Hook :=
  let timers' := match reconnectTimeoutRef h with
                 | Some t => delete t (timers h)
                 | None => timers h
                 end in
  match wsRef h with
  | Some id =>
      ([CloseSocket id cleanClose],
       {| token := token h;
          sockets := match sockets h !! id with
                     | Some w =>
                         <[id := {| ws_token := ws_token w;
                                    ws_readyState :=
                                      if bool_decide (ws_readyState w = CLOSED)
                                      then CLOSED else CLOSING;
                                    ws_onclose := false |}]> (sockets h)
                     | None => sockets h
                     end;
          wsRef := None; reconnectTimeoutRef := None; timers := timers';
          reconnectAttemptsRef := reconnectAttemptsRef h;
          isConnected := isConnected h; mountedRef := false;
          cleanup := false; unmounted := unmounted h |})
  | None =>
      ([],
       {| token := token h; sockets := sockets h; wsRef := None;
          reconnectTimeoutRef := None; timers := timers';
          reconnectAttemptsRef := reconnectAttemptsRef h;
          isConnected := isConnected h; mountedRef := false;
          cleanup := false; unmounted := unmounted h |})
  end.

Definition cleanupIfAny (h : Hook) : list Action * Hook :=
  if cleanup h then runCleanup h else ([], h).

(** A render: the effect depends on [token] only, so it runs again (after
    the cleanup of the previous run) only when the token has changed. *)
Definition render (tok : option string) (h : Hook) : list Action * Hook :=
  if unmounted h then ([], h)
  else if bool_decide (tok = token h) then ([], h)
  else
    let '(a1, h1) := cleanupIfAny h in
    let '(a2, h2) := effect tok h1 in
    (a1 ++ a2, h2).

Definition unmount (h : Hook) : list Action * Hook :=
  if unmounted h then ([], h)
  else
    let '(a, h1) := cleanupIfAny h in
    (a, {| token := token h1; sockets := sockets h1; wsRef := wsRef h1;
           reconnectTimeoutRef := reconnectTimeoutRef h1; timers := timers h1;
           reconnectAttemptsRef := reconnectAttemptsRef h1;
           isConnected := isConnected h1; mountedRef := mountedRef h1;
           cleanup := cleanup h1; unmounted := true |}).

(** The first render of a component: fresh refs, then the effect. *)
Definition initial : Hook :=
  {| token := None; sockets := ∅; wsRef := None; reconnectTimeoutRef := None;
     timers := ∅; reconnectAttemptsRef := 0; isConnected := false;
     mountedRef := true; cleanup := false; unmounted := false |}.

Definition mount (tok : option string) : list Action * Hook := effect tok initial.

Definition setSocket (id : nat) (w : WsObj) (h : Hook) : Hook :=
  {| token := token h; sockets := <[id := w]> (sockets h); wsRef := wsRef h;
     reconnectTimeoutRef := reconnectTimeoutRef h; timers := timers h;
     reconnectAttemptsRef := reconnectAttemptsRef h;
     isConnected := isConnected h; mountedRef := mountedRef h;
     cleanup := cleanup h; unmounted := unmounted h |}.

(** [ws.onopen], for a socket that was connecting. *)
Definition onopen (id : nat) (h : Hook) : list Action * Hook :=
  match sockets h !! id with
  | Some w =>
      if bool_decide (ws_readyState w = CONNECTING) then
        let h1 := setSocket id {| ws_token := ws_token w; ws_readyState := OPEN;
                                  ws_onclose := ws_onclose w |} h in
        if negb (mountedRef h1) then ([], h1)
        else
          ([],
           {| token := token h1; sockets := sockets h1; wsRef := wsRef h1;
              reconnectTimeoutRef := reconnectTimeoutRef h1; timers := timers h1;
              reconnectAttemptsRef := 0;
              isConnected := true; mountedRef := mountedRef h1;
              cleanup := cleanup h1; unmounted := unmounted h1 |})
      else ([], h)
  | None => ([], h)
  end.

(** [ws.onclose], for a socket that was not closed yet; [code] is
    [event.code]. *)
Definition onclose (id : nat) (code : nat) (h : Hook) : list Action * Hook :=
  match sockets h !! id with
  | Some w =>
      if bool_decide (ws_readyState w = CLOSED) then ([], h)
      else
        let h1 := setSocket id {| ws_token := ws_token w; ws_readyState := CLOSED;
                                  ws_onclose := ws_onclose w |} h in
        if negb (ws_onclose w) then ([], h1)
        else if negb (mountedRef h1) then ([], h1)
        else
          if mountedRef h1
             && negb (bool_decide (code = cleanClose))
             && (reconnectAttemptsRef h1 <? maxAttempts)
             && hasToken (Some (ws_token w))
          then
            let attempts := reconnectAttemptsRef h1 + 1 in
            let delay := (baseDelay * Z.of_nat attempts)%Z in
            let timer := fresh (dom (timers h1)) in
            ([Schedule delay attempts],
             {| token := token h1; sockets := sockets h1; wsRef := None;
                reconnectTimeoutRef := Some timer;
                timers := <[timer := ws_token w]> (timers h1);
                reconnectAttemptsRef := attempts;
                isConnected := false; mountedRef := mountedRef h1;
                cleanup := cleanup h1; unmounted := unmounted h1 |})
          else
            ([],
             {| token := token h1; sockets := sockets h1; wsRef := None;
                reconnectTimeoutRef := reconnectTimeoutRef h1; timers := timers h1;
                reconnectAttemptsRef := reconnectAttemptsRef h1;
                isConnected := false; mountedRef := mountedRef h1;
                cleanup := cleanup h1; unmounted := unmounted h1 |})
  | None => ([], h)
  end.

(** [ws.onmessage]; [data] is the [type] of a payload that parses, [None]
    one that does not. *)
Definition onmessage (id : nat) (data : option string) (h : Hook) : list Action :=
  match sockets h !! id, data with
  | Some _, Some ty =>
      if negb (mountedRef h) then []
      else if negb (bool_decide (ty = "PONG")) && negb (bool_decide (ty = "CONNECTED"))
           then [Deliver ty] else []
  | _, _ => []
  end.

(** The callback of a pending timer. *)
Definition ontimeout (timer : nat) (h : Hook) : list Action * Hook :=
  match timers h !! timer with
  | Some tok =>
      let h1 := {| token := token h; sockets := sockets h; wsRef := wsRef h;
                   reconnectTimeoutRef := reconnectTimeoutRef h;
                   timers := delete timer (timers h);
                   reconnectAttemptsRef := reconnectAttemptsRef h;
                   isConnected := isConnected h; mountedRef := mountedRef h;
                   cleanup := cleanup h; unmounted := unmounted h |} in
      if mountedRef h && hasToken (Some tok) then
        ([AttemptReconnect],
         {| token := token h1; sockets := sockets h1; wsRef := wsRef h1;
            reconnectTimeoutRef := reconnectTimeoutRef h1; timers := timers h1;
            reconnectAttemptsRef := reconnectAttemptsRef h1;
            isConnected := false; mountedRef := mountedRef h1;
            cleanup := cleanup h1; unmounted := unmounted h1 |})
      else ([], h1)
  | None => ([], h)
  end.

Inductive Event :=
| Render (tok : option string)
| Unmount
| Opened (id : nat)
| Closed (id : nat) (code : nat)
| Incoming (id : nat) (data : option string)
| Errored (id : nat)
| Timeout (timer : nat).

Definition step (h : Hook) (ev : Event) : list Action * Hook :=
  match ev with
  | Render tok => render tok h
  | Unmount => unmount h
  | Opened id => onopen id h
  | Closed id code => onclose id code h
  | Incoming id data => (onmessage id data h, h)
  | Errored id => ([], h)               (* ws.onerror only logs *)
  | Timeout timer => ontimeout timer h
  end.

Fixpoint run (h : Hook) (evs : list Event) : list Action * Hook :=
  match evs with
  | [] => ([], h)
  | ev :: rest =>
      let '(a, h') := step h ev in
      let '(as', h'') := run h' rest in
      (a ++ as', h'')
  end.

(** The delays of the reconnections a trace scheduled, in order, and the
    number of reconnections it attempted. *)
Definition scheduled (acts : list Action) : list Z :=
  omap (fun a => match a with Schedule d _ => Some d | _ => None end) acts.

Definition attempted (acts : list Action) : nat :=
  length (List.filter (fun a => match a with AttemptReconnect => true | _ => false end) acts).

(** ** Vocabulary of the controller properties *)

(** A socket whose [onclose] handler can still run. *)
Definition armed (h : Hook) (id : nat) : Prop :=
  exists w, sockets h !! id = Some w /\ ws_onclose w = true /\ ws_readyState w <> CLOSED.

(** An armed socket is the current one of an effect whose cleanup is still
    to run, and no timer is pending beside it; a pending timer is the one
    the ref holds, again under a cleanup still to run; and a cleanup is
    never left behind by an unmounted component or without a token. *)
Definition Inv (h : Hook) : Prop :=
  (forall id, armed h id -> wsRef h = Some id /\ cleanup h = true /\ timers h = ∅)
  /\ (forall t tok, timers h !! t = Some tok ->
        reconnectTimeoutRef h = Some t /\ cleanup h = true)
  /\ (cleanup h = true -> unmounted h = false /\ hasToken (token h) = true).

(** Nothing armed, nothing pending. *)
Definition quiet (h : Hook) : Prop :=
  (forall id, ~ armed h id) /\ timers h = ∅ /\ cleanup h = false.

(** Nothing armed and no timer pending: nothing can be scheduled or
    attempted until an effect runs with a token. *)
Definition calm (h : Hook) : Prop :=
  (forall id, ~ armed h id) /\ timers h = ∅.

(** A socket whose [onclose] handler was removed has been closed by the
    cleanup. *)
Definition disarmedClosing (h : Hook) : Prop :=
  forall id w, sockets h !! id = Some w -> ws_onclose w = false ->
    ws_readyState w = CLOSING \/ ws_readyState w = CLOSED.

End Client.

(** * The task board (components/Dashboard.jsx): its columns *)

Module Dashboard.

(** A task of the [tasks] state, with its [_id]. *)
Definition Item : Type := ObjectId * Task.

(** The columns of the board, in the order they are rendered. *)
Definition columns : list string := ["To Do"; "In Progress"; "Completed"].

(** [getTasksByStatus(status)] over the current [tasks]. *)
Definition getTasksByStatus (tasks : list Item) (status' : string) : list Item :=
  filter (fun task : Item => statusName (status task.2) = status') tasks.

End Dashboard.

(** * Sample data for the examples *)

(** Sample data used by the examples below. *)
Module Sample.

Definition alice : User := {| name := "Alice"; email := "alice@example.org" |}.
Definition bob : User := {| name := "Bob"; email := "bob@example.org" |}.

Definition env (t : Z) : Env := {| now := t; oid := 100; wss := true |}.

Definition task (owner : ObjectId) (s : Status) (done : option Date) : Task :=
  {| title := "Write report"; description := None; assignedTo := owner;
     createdBy := 1; status := s; priority := Medium; dueDate := 5000%Z;
     tags := ["a"]; attachments := []; comments := []; auditHistory := [];
     completedAt := done; isDeleted := false |}.

Definition db : Db :=
  {| Tasks := <[10 := task 1 ToDo None]>
                (<[11 := task 1 Completed (Some 40%Z)]>
                   (<[12 := task 2 InProgress None]> ∅));
     Users := <[1 := alice]> (<[2 := bob]> ∅) |}.

Definition patch : UpdateBody :=
  {| b_title := None; b_description := None; b_dueDate := None;
     b_priority := None; b_tags := None; b_status := None |}.



Definition carol : User := {| name := "Carol"; email := "carol@example.org" |}.

Definition dbCarol : Db := with_Users (<[10 := carol]> (Users db)) db.

(** A tag of 51 characters. *)
Definition longTag : string :=
  "aaaaaaaaaaaaaaaaaaaaaaaaaaaaaaaaaaaaaaaaaaaaaaaaaaa".





End Sample.

(** ** A concrete serializer and a few registry states *)

Module RegistrySample.

Definition stringify (m : string) : string := "{type:" +:+ m +:+ "}".
Definition connectedMsg (u : ObjectId) : string := "CONNECTED".
Definition pongMsg : string := "PONG".

Definition run := Registry.run stringify connectedMsg pongMsg.
Definition exec := Registry.exec stringify connectedMsg pongMsg.

(** A connection that is accepted: the 'connection' event with a verified
    token, then the lookup that finds the user. *)
Definition connect (ws : Registry.ConnId) (u : ObjectId) : list (Registry.Event (Message := string)) :=
  [Registry.EConnection (Registry.Verified u); Registry.EFindById ws Registry.UserFound].

(** Two devices of user 1 and one of user 2; the second device of user 1
    then loses its transport without the server noticing a close. *)
Definition three : Registry.Server :=
  exec Registry.empty (connect 0 1 ++ connect 1 1 ++ connect 2 2).

Definition halfOpen : Registry.Server :=
  {| Registry.socks :=
       <[1 := {| Registry.ws_userId := Some 1; Registry.isAlive := Some true;
                 Registry.readyState := Registry.CLOSING |}]> (Registry.socks three);
     Registry.clients := Registry.clients three;
     Registry.wssClients := Registry.wssClients three;
     Registry.awaiting := Registry.awaiting three |}.

End RegistrySample.

(** * Properties of the task engine *)

(** *** The stages, one by one *)

Lemma task_eta (t : Task) :
  {| title := title t; description := description t; assignedTo := assignedTo t;
     createdBy := createdBy t; status := status t; priority := priority t;
     dueDate := dueDate t; tags := tags t; attachments := attachments t;
     comments := comments t; auditHistory := auditHistory t;
     completedAt := completedAt t; isDeleted := isDeleted t |} = t.
Proof. destruct t; reflexivity. Qed.

Lemma amend_same f d : f (fields d) = fields d -> amend f [] [] d = d.
Proof.
  intros H. destruct d as [i t o m mp inv]. unfold amend; simpl in *.
  now rewrite H, !app_nil_r.
Qed.

Lemma amend_amend f g mp mp' inv inv' d :
  amend g mp' inv' (amend f mp inv d)
  = amend (fun t => g (f t)) (mp ++ mp') (inv ++ inv') d.
Proof. unfold amend; simpl. now rewrite !app_assoc. Qed.

Lemma on_fields_amend f d : on_fields f d = amend f [] [] d.
Proof. unfold on_fields, amend. now rewrite !app_nil_r. Qed.

Lemma stageTitle_spec b d ch :
  exists cs,
    stageTitle b (d, ch)
    = (amend (set_title (newTitle b (fields d)))
         (if bool_decide (newTitle b (fields d) = title (fields d))
          then [] else [path_title]) [] d,
       ch ++ cs)
    /\ map c_field cs = if titleChanged b (fields d) then ["title"] else [].
Proof.
  assert (Hsame : amend (set_title (title (fields d))) [] [] d = d).
  { apply amend_same. unfold set_title. apply task_eta. }
  unfold stageTitle, newTitle, titleChanged.
  destruct (b_title b) as [v|]; simpl.
  - destruct (truthy v && negb (bool_decide (v = title (fields d)))).
    + assert (Hd : assign_title v d
                   = amend (set_title (trim v))
                       (if bool_decide (trim v = title (fields d))
                        then [] else [path_title]) [] d).
      { unfold assign_title. case_bool_decide as H.
        - rewrite H. now rewrite Hsame.
        - unfold markModified, on_fields, amend; simpl. now rewrite app_nil_r. }
      rewrite Hd. eexists; split; reflexivity.
    + exists []. rewrite app_nil_r. split; [|reflexivity].
      rewrite bool_decide_eq_true_2 by reflexivity. now rewrite Hsame.
  - exists []. rewrite app_nil_r. split; [|reflexivity].
    rewrite bool_decide_eq_true_2 by reflexivity. now rewrite Hsame.
Qed.

Lemma stageDescription_spec b d ch :
  exists cs,
    stageDescription b (d, ch)
    = (amend (set_description (newDescription b (fields d)))
         (if bool_decide (newDescription b (fields d) = description (fields d))
          then [] else [path_description]) [] d,
       ch ++ cs)
    /\ map c_field cs = if descriptionChanged b (fields d) then ["description"] else [].
Proof.
  assert (Hsame : amend (set_description (description (fields d))) [] [] d = d).
  { apply amend_same. unfold set_description. apply task_eta. }
  unfold stageDescription, newDescription, descriptionChanged.
  destruct (b_description b) as [v|]; simpl.
  - destruct (bool_decide (Some v = description (fields d))); simpl.
    + exists []. rewrite app_nil_r. split; [|reflexivity].
      rewrite bool_decide_eq_true_2 by reflexivity. now rewrite Hsame.
    + assert (Hd : assign_description v d
                   = amend (set_description (Some (trim v)))
                       (if bool_decide (Some (trim v) = description (fields d))
                        then [] else [path_description]) [] d).
      { unfold assign_description. case_bool_decide as H.
        - rewrite H. now rewrite Hsame.
        - unfold markModified, on_fields, amend; simpl. now rewrite app_nil_r. }
      rewrite Hd. eexists; split; reflexivity.
  - exists []. rewrite app_nil_r. split; [|reflexivity].
    rewrite bool_decide_eq_true_2 by reflexivity. now rewrite Hsame.
Qed.

Lemma stageDueDate_spec b d ch :
  exists cs,
    stageDueDate b (d, ch)
    = (amend (set_dueDate (newDueDate b (fields d)))
         (if bool_decide (newDueDate b (fields d) = dueDate (fields d))
          then [] else [path_dueDate])
         (uncast b) d,
       ch ++ cs)
    /\ map c_field cs = if dueDateChanged b (fields d) then ["dueDate"] else [].
Proof.
  assert (Hsame : amend (set_dueDate (dueDate (fields d))) [] [] d = d).
  { apply amend_same. unfold set_dueDate. apply task_eta. }
  unfold stageDueDate, newDueDate, dueDateChanged, uncast, getTime.
  destruct (b_dueDate b) as [v|]; simpl.
  - destruct (validDate v) eqn:Hv.
    + case_bool_decide as H; simpl.
      * exists []. rewrite app_nil_r. split; [|reflexivity].
        injection H as ->. rewrite bool_decide_eq_true_2 by reflexivity.
        now rewrite Hsame.
      * assert (Hd : assign_dueDate v d
                     = amend (set_dueDate v)
                         (if bool_decide (v = dueDate (fields d))
                          then [] else [path_dueDate]) [] d).
        { unfold assign_dueDate. rewrite Hv.
          assert (Hne : v <> dueDate (fields d)) by (intros ->; now apply H).
          rewrite !(bool_decide_eq_false_2 _ Hne).
          unfold markModified, on_fields, amend; simpl. now rewrite app_nil_r. }
        rewrite Hd. eexists; split; reflexivity.
    + rewrite bool_decide_eq_false_2 by discriminate. simpl.
      assert (Hd : assign_dueDate v d
                   = amend (set_dueDate (dueDate (fields d)))
                       (if bool_decide (dueDate (fields d) = dueDate (fields d))
                        then [] else [path_dueDate]) [path_dueDate] d).
      { unfold assign_dueDate. rewrite Hv.
        rewrite bool_decide_eq_true_2 by reflexivity.
        unfold invalidate, amend, set_dueDate; simpl.
        now rewrite task_eta, app_nil_r. }
      rewrite Hd. eexists; split; reflexivity.
  - exists []. rewrite app_nil_r. split; [|reflexivity].
    rewrite bool_decide_eq_true_2 by reflexivity. now rewrite Hsame.
Qed.

Lemma stagePriority_spec e userId b d ch :
  exists cs,
    stagePriority e userId b (d, ch)
    = (amend
         (fun t => set_priority (newPriority b (fields d))
                     (set_auditHistory
                        (auditHistory t ++
                           if priorityChanged b (fields d)
                           then [priorityEntry e userId (priority (fields d))
                                   (newPriority b (fields d))]
                           else []) t)) [] [] d,
       ch ++ cs)
    /\ map c_field cs = if priorityChanged b (fields d) then ["priority"] else [].
Proof.
  unfold stagePriority, newPriority, priorityChanged.
  destruct (b_priority b) as [v|]; simpl.
  - case_bool_decide as Hv; simpl.
    + exists []. rewrite app_nil_r. split; [|reflexivity].
      rewrite amend_same; [reflexivity|].
      unfold set_priority, set_auditHistory; simpl.
      rewrite app_nil_r, Hv. apply task_eta.
    + unfold addAuditEntry. rewrite !on_fields_amend, amend_amend.
      eexists; split; reflexivity.
  - exists []. rewrite app_nil_r. split; [|reflexivity].
    rewrite amend_same; [reflexivity|].
    unfold set_priority, set_auditHistory; simpl.
    rewrite app_nil_r. apply task_eta.
Qed.

Lemma stageStatus_spec e userId b d ch :
  exists cs,
    stageStatus e userId b (d, ch)
    = (if reverts b (fields d) then inr invalidTransition
       else inl
         (assign_status (newStatus b (fields d))
            (amend
               (fun t => set_auditHistory
                  (auditHistory t ++
                     if statusChanged b (fields d)
                     then [statusEntry e userId (status (fields d))
                             (newStatus b (fields d))]
                     else []) t) [] [] d),
          ch ++ cs))
    /\ map c_field cs = if statusChanged b (fields d) then ["status"] else [].
Proof.
  destruct d as [i t o m mp inv].
  unfold stageStatus, newStatus, statusChanged, reverts,
    assign_status, addAuditEntry, on_fields, amend, set_status, set_auditHistory; simpl.
  destruct (b_status b) as [v|]; simpl.
  - case_bool_decide as Hv; simpl.
    + exists []. rewrite !app_nil_r. split; [|reflexivity].
      subst v. destruct (bool_decide (status t = Completed)); simpl;
        rewrite bool_decide_eq_true_2, orb_false_r by reflexivity;
        now rewrite task_eta.
    + destruct (bool_decide (status t = Completed)
                && negb (bool_decide (v = Completed))).
      * exists [{| c_field := "status"; c_oldValue := MUndefined;
                   c_newValue := MUndefined |}].
        split; reflexivity.
      * rewrite !app_nil_r. eexists; split; reflexivity.
  - exists []. rewrite !app_nil_r. split; [|reflexivity].
    rewrite bool_decide_eq_true_2, orb_false_r by reflexivity.
    now rewrite task_eta.
Qed.

(** The same, for a document that agrees with a task [t0] on the field the
    stage reads: this is how the stages follow one another. *)
Lemma stageDescription_after b d ch t0 :
  description (fields d) = description t0 ->
  exists cs,
    stageDescription b (d, ch)
    = (amend (set_description (newDescription b t0))
         (if bool_decide (newDescription b t0 = description t0)
          then [] else [path_description]) [] d,
       ch ++ cs)
    /\ map c_field cs = if descriptionChanged b t0 then ["description"] else [].
Proof.
  intros H. destruct (stageDescription_spec b d ch) as (cs & -> & Hc).
  exists cs. unfold newDescription, descriptionChanged in *.
  rewrite H in *. now split.
Qed.

Lemma stageDueDate_after b d ch t0 :
  dueDate (fields d) = dueDate t0 ->
  exists cs,
    stageDueDate b (d, ch)
    = (amend (set_dueDate (newDueDate b t0))
         (if bool_decide (newDueDate b t0 = dueDate t0) then [] else [path_dueDate])
         (uncast b) d,
       ch ++ cs)
    /\ map c_field cs = if dueDateChanged b t0 then ["dueDate"] else [].
Proof.
  intros H. destruct (stageDueDate_spec b d ch) as (cs & -> & Hc).
  exists cs. unfold newDueDate, dueDateChanged in *.
  rewrite H in *. now split.
Qed.

Lemma stagePriority_after e userId b d ch t0 :
  priority (fields d) = priority t0 ->
  exists cs,
    stagePriority e userId b (d, ch)
    = (amend
         (fun t => set_priority (newPriority b t0)
                     (set_auditHistory
                        (auditHistory t ++
                           if priorityChanged b t0
                           then [priorityEntry e userId (priority t0) (newPriority b t0)]
                           else []) t)) [] [] d,
       ch ++ cs)
    /\ map c_field cs = if priorityChanged b t0 then ["priority"] else [].
Proof.
  intros H. destruct (stagePriority_spec e userId b d ch) as (cs & -> & Hc).
  exists cs. unfold newPriority, priorityChanged in *.
  rewrite H in *. now split.
Qed.

Lemma stageStatus_after e userId b d ch t0 :
  status (fields d) = status t0 ->
  exists cs,
    stageStatus e userId b (d, ch)
    = (if reverts b t0 then inr invalidTransition
       else inl
         (assign_status (newStatus b t0)
            (amend
               (fun t => set_auditHistory
                  (auditHistory t ++
                     if statusChanged b t0
                     then [statusEntry e userId (status t0) (newStatus b t0)]
                     else []) t) [] [] d),
          ch ++ cs))
    /\ map c_field cs = if statusChanged b t0 then ["status"] else [].
Proof.
  intros H. destruct (stageStatus_spec e userId b d ch) as (cs & -> & Hc).
  exists cs. unfold newStatus, statusChanged, reverts in *.
  rewrite H in *. now split.
Qed.

Lemma stageTags_after b d t0 :
  tags (fields d) = tags t0 ->
  stageTags b d
  = amend (set_tags (newTags b t0))
      (if bool_decide (newTags b t0 = tags t0) then [] else [path_tags]) [] d.
Proof.
  intros H.
  assert (Hsame : amend (set_tags (tags (fields d))) [] [] d = d).
  { apply amend_same. unfold set_tags. apply task_eta. }
  unfold stageTags, newTags. rewrite <- H.
  destruct (b_tags b) as [v|]; simpl.
  - unfold assign_tags. case_bool_decide as Hv.
    + rewrite Hv. now rewrite Hsame.
    + unfold markModified, on_fields, amend; simpl. now rewrite app_nil_r.
  - rewrite bool_decide_eq_true_2 by reflexivity. now rewrite Hsame.
Qed.

(** [applyPatch] is the staged mutation of the controller; [patched] is the
    same update told field by field. *)
Lemma applyPatch_eq e userId b d :
  applyPatch e userId b d =
  if reverts b (fields d) then inr invalidTransition
  else inl {| _id := _id d; fields := patched e userId b (fields d);
              _original := _original d;
              statusModified := statusModified d || statusChanged b (fields d);
              modifiedPaths := modifiedPaths d ++ touched b (fields d);
              invalidated := invalidated d ++ uncast b |}.
Proof.
  unfold applyPatch.
  destruct (stageTitle_spec b d []) as (c1 & -> & H1).
  match goal with |- context [stageDescription b (?x, ?c)] =>
    destruct (stageDescription_after b x c (fields d) eq_refl) as (c2 & -> & H2) end.
  match goal with |- context [stageDueDate b (?x, ?c)] =>
    destruct (stageDueDate_after b x c (fields d) eq_refl) as (c3 & -> & H3) end.
  match goal with |- context [stagePriority e userId b (?x, ?c)] =>
    destruct (stagePriority_after e userId b x c (fields d) eq_refl) as (c4 & -> & H4) end.
  match goal with |- context [stageStatus e userId b (?x, ?c)] =>
    destruct (stageStatus_after e userId b x c (fields d) eq_refl) as (c5 & -> & H5) end.
  destruct (reverts b (fields d)); [reflexivity|].
  assert (Hn : map c_field ((((([] ++ c1) ++ c2) ++ c3) ++ c4) ++ c5)
               = changedNames b (fields d)).
  { rewrite !map_app, H1, H2, H3, H4, H5. unfold changedNames. simpl.
    now rewrite <- !app_assoc. }
  match goal with |- context [stageTags b ?x] =>
    rewrite (stageTags_after b x (fields d) eq_refl) end.
  unfold stageSummary, changedFields.
  rewrite <- (length_map c_field), Hn.
  assert (Hs : negb (bool_decide (status (fields d) = newStatus b (fields d)))
               = statusChanged b (fields d)).
  { unfold newStatus, statusChanged. destruct (b_status b) as [v|]; simpl.
    - f_equal. apply bool_decide_ext. split; congruence.
    - now rewrite bool_decide_eq_true_2. }
  f_equal. clear H1 H2 H3 H4 H5 Hn. destruct d as [i t o m mp inv].
  cbn [fields] in *.
  unfold addAuditEntry, patched, stagedEntries, touched.
  rewrite !on_fields_amend, <- Hs. clear Hs.
  destruct (0 <? length (changedNames b t));
    destruct t as [ti de asg cr st pr du tg att cm au ca del];
    cbv [amend assign_status set_title set_description set_dueDate set_priority
         set_status set_tags set_auditHistory fields _id _original statusModified
         modifiedPaths invalidated title description assignedTo createdBy status
         priority dueDate tags attachments comments auditHistory completedAt
         isDeleted describe mkAudit summaryEntry d_field d_oldValue d_newValue
         d_description];
    rewrite <- ?app_assoc, ?app_nil_r; cbn [app]; reflexivity.
Qed.

(** ** Loading and saving *)

Lemma findOne_reaches db userId id t :
  reaches db userId id t -> findOne db id userId = Some (init id t).
Proof.
  intros (Hl & Ha & Hd). unfold findOne. rewrite Hl, Hd.
  now rewrite bool_decide_eq_true_2.
Qed.

Lemma findOne_Some db userId id d :
  findOne db id userId = Some d ->
  exists t, reaches db userId id t /\ d = init id t.
Proof.
  unfold findOne, reaches. destruct (Tasks db !! id) as [t|]; [|discriminate].
  case_bool_decide as Ha; simpl; [|discriminate].
  destruct (isDeleted t) eqn:Hd; simpl; [discriminate|].
  intros [= <-]. now exists t.
Qed.

Lemma findOne_None db userId id :
  findOne db id userId = None ->
  forall t, ~ reaches db userId id t.
Proof.
  intros Hn t Hr. apply findOne_reaches in Hr. congruence.
Qed.

(** A valid document whose [status] path is not modified is written as it
    is. *)
Lemma save_unmodified e db d :
  statusModified d = false ->
  validate d = true ->
  save e db d = inl (with_Tasks (<[_id d := fields d]> (Tasks db)) db, settled d).
Proof.
  intros H Hv. unfold save, preSave. rewrite Hv, H. reflexivity.
Qed.

Lemma save_invalid e db d : validate d = false -> save e db d = inr ValidationError.
Proof. intros Hv. unfold save. now rewrite Hv. Qed.

(** Changing fields does not touch the marks of a document. *)
Lemma validate_untouched f d :
  modifiedPaths d = [] -> invalidated d = [] -> validate (on_fields f d) = true.
Proof.
  intros Hm Hi. unfold validate, on_fields; simpl. now rewrite Hi, Hm.
Qed.


Lemma updateTask_eq e db userId id b t :
  reaches db userId id t ->
  updateTask e db userId id b =
  if reverts b t then (invalidTransition, [], db)
  else if passes e userId b t then
    let t' := stamped e userId b t in
    (json 200 true (BodyTask (Some t')),
     push e (assignedTo t) TASK_UPDATED id (Some t'),
     with_Tasks (<[id := t']> (Tasks db)) db)
  else (next ValidationError, [], db).
Proof.
  intros Hr. unfold updateTask. rewrite (findOne_reaches _ _ _ _ Hr).
  rewrite applyPatch_eq.
  cbn [init fields _id _original statusModified modifiedPaths invalidated app].
  destruct (reverts b t) eqn:Hrev; [reflexivity|].
  unfold save, validate, passes.
  cbn [fields _id _original statusModified modifiedPaths invalidated orb].
  destruct (uncast b) as [|? ?]; [|reflexivity].
  destruct (forallb (validator (patched e userId b t)) (touched b t)); [|reflexivity].
  unfold preSave, stamped. cbn [fields _id _original statusModified orb].
  change (status (patched e userId b t)) with (newStatus b t).
  change (completedAt (patched e userId b t)) with (completedAt t).
  destruct (statusChanged b t) eqn:Hch.
  - assert (Hno : bool_decide (status <$> Some t = Some Completed)
                  && negb (bool_decide (newStatus b t = Completed)) = false).
    { unfold reverts, newStatus, statusChanged in *.
      destruct (b_status b) as [v|]; simpl in *; [|discriminate].
      rewrite <- Hrev. f_equal. apply bool_decide_ext. split; congruence. }
    rewrite Hno. cbn [andb].
    destruct (bool_decide (newStatus b t = Completed)
              && negb (bool_decide (is_Some (completedAt t)))); simpl;
      unfold findById; simpl; rewrite lookup_insert_eq; reflexivity.
  - simpl. unfold findById; simpl. rewrite lookup_insert_eq. reflexivity.
Qed.

(** The pre-save hook is a second line of defence: a loaded Completed task
    whose status was assigned another value is not saved. *)
Lemma preSave_refuses_revert e db id t s :
  status t = Completed -> s <> Completed ->
  save e db (assign_status s (init id t)) = inr CannotRevert.
Proof.
  intros Hdone Hs. unfold save, preSave, assign_status, init. simpl.
  rewrite Hdone.
  rewrite (bool_decide_eq_false_2 (Completed = s)) by congruence. simpl.
  rewrite (bool_decide_eq_false_2 (s = Completed)) by exact Hs. reflexivity.
Qed.

(** ** C1: leaving Completed is refused and nothing is written *)

(** C1.  For a task whose status is Completed, an update whose patch carries
    a status other than Completed is answered with the invalid-transition
    error (400, 'Cannot revert status from Completed'); the store is the one
    before the request, so no field of the patch and no audit entry is
    persisted, and nothing is pushed. *)
Theorem completed_update_rejected_atomically
    (e : Env) (db : Db) (userId id : ObjectId) (b : UpdateBody) (t : Task) (s : Status)
    (Hreach : reaches db userId id t)
    (Hdone : status t = Completed)
    (Hpatch : b_status b = Some s)
    (Hother : s <> Completed) :
  updateTask e db userId id b = (invalidTransition, [], db)
  /\ Tasks (updateTask e db userId id b).2 !! id = Some t.
Proof.
  assert (Hrev : reverts b t = true).
  { unfold reverts. rewrite Hpatch, Hdone. rewrite bool_decide_eq_true_2 by reflexivity.
    now rewrite bool_decide_eq_false_2. }
  rewrite (updateTask_eq _ _ _ _ _ _ Hreach), Hrev. split; [reflexivity|].
  apply Hreach.
Qed.

(** ** The reassignment loop of deleteUser *)

Lemma save_pristine e db f d :
  pristine d ->
  save e db (on_fields f d)
  = inl (with_Tasks (<[_id d := f (fields d)]> (Tasks db)) db, settled (on_fields f d)).
Proof.
  intros (Hs & Hm & Hi). apply save_unmodified; [exact Hs|].
  now apply validate_untouched.
Qed.

Lemma reassignAll_writes e userId target descr tasks db :
  Forall pristine tasks ->
  exists effs db',
    reassignAll e userId target descr tasks db = (None, effs, db')
    /\ Users db' = Users db
    /\ Tasks db' =
       foldl (fun m d => <[_id d := reassignedTask e userId target descr (fields d)]> m)
         (Tasks db) tasks.
Proof.
  intros Hall. revert db. induction Hall as [|d rest Hd _ IH]; intros db; simpl.
  - now exists [], db.
  - unfold addAuditEntry.
    match goal with |- context [save e db (on_fields ?g (on_fields ?h d))] =>
      change (on_fields g (on_fields h d)) with (on_fields (fun t => g (h t)) d) end.
    rewrite save_pristine by exact Hd.
    match goal with |- context [reassignAll _ _ _ _ rest ?x] =>
      destruct (IH x) as (effs & db' & -> & Hu & Ht) end.
    eexists _, db'. split; [reflexivity|]. split; [exact Hu|].
    rewrite Ht. reflexivity.
Qed.

(** Writing a list of documents one after the other: the last document
    written under an id is the one stored there. *)
Lemma foldl_insert_lookup (f : Document -> Task) (tasks : list Document)
    (m : gmap ObjectId Task) (i : ObjectId) :
  (exists d, d ∈ tasks /\ _id d = i
             /\ foldl (fun m d => <[_id d := f d]> m) m tasks !! i = Some (f d))
  \/ ((forall d, d ∈ tasks -> _id d <> i)
      /\ foldl (fun m d => <[_id d := f d]> m) m tasks !! i = m !! i).
Proof.
  induction tasks as [|x l IH] using rev_ind.
  - right. split; [|reflexivity]. intros d Hd. inversion Hd.
  - rewrite foldl_app. simpl. destruct (decide (_id x = i)) as [Hx|Hx].
    + left. exists x. split; [apply elem_of_app; right; now left|].
      split; [exact Hx|]. rewrite <- Hx. apply lookup_insert_eq.
    + rewrite lookup_insert_ne by exact Hx.
      destruct IH as [(d & Hd & Hi & Hl)|(Hno & Hl)].
      * left. exists d. split; [apply elem_of_app; now left|]. now split.
      * right. split; [|exact Hl].
        intros d [Hd|Hd]%elem_of_app; [now apply Hno|].
        apply list_elem_of_singleton in Hd. now subst d.
Qed.

Lemma find_elem db id d :
  d ∈ find db id <->
  exists i t, Tasks db !! i = Some t /\ assignedOpen id (i, t) /\ d = init i t.
Proof.
  unfold find. rewrite list_elem_of_fmap. split.
  - intros ([i t] & -> & Hin). apply elem_of_map_to_list in Hin.
    apply map_lookup_filter_Some in Hin as [Hl Hp]. now exists i, t.
  - intros (i & t & Hl & Hp & ->). exists (i, t). split; [reflexivity|].
    apply elem_of_map_to_list, map_lookup_filter_Some. now split.
Qed.

Lemma find_unmodified db id : Forall pristine (find db id).
Proof.
  apply Forall_forall. intros d Hd.
  apply find_elem in Hd as (i & t & _ & _ & ->). now repeat split.
Qed.

(** The store after the loop over [find db id]. *)
Lemma reassigned_lookup e userId target descr db id i :
  foldl (fun m d => <[_id d := reassignedTask e userId target descr (fields d)]> m)
    (Tasks db) (find db id) !! i
  = (fun t => if decide (assignedOpen id (i, t))
              then reassignedTask e userId target descr t else t)
      <$> Tasks db !! i.
Proof.
  destruct (foldl_insert_lookup
              (fun d => reassignedTask e userId target descr (fields d))
              (find db id) (Tasks db) i) as [(d & Hd & Hi & ->)|(Hno & ->)].
  - apply find_elem in Hd as (k & t & Hl & Hp & ->). simpl in Hi. subst k.
    rewrite Hl. simpl. now rewrite decide_True.
  - destruct (Tasks db !! i) as [t|] eqn:Hl; [|reflexivity]. simpl.
    destruct (decide (assignedOpen id (i, t))) as [Hp|Hp]; [|reflexivity].
    exfalso. apply (Hno (init i t)); [|reflexivity].
    apply find_elem. now exists i, t.
Qed.

Lemma countDocuments_pos db id i t :
  Tasks db !! i = Some t -> assignedOpen id (i, t) -> 0 < countDocuments db id.
Proof.
  intros Hl Hp. unfold countDocuments.
  destruct (size (filter (assignedOpen id) (Tasks db))) eqn:Hs; [|lia].
  apply map_size_empty_iff in Hs.
  assert (H : filter (assignedOpen id) (Tasks db) !! i = Some t)
    by (apply map_lookup_filter_Some; now split).
  rewrite Hs, lookup_empty in H. discriminate.
Qed.

Lemma countDocuments_zero db id i t :
  countDocuments db id = 0 -> Tasks db !! i = Some t -> ~ assignedOpen id (i, t).
Proof.
  intros H0 Hl Hp. pose proof (countDocuments_pos _ _ _ _ Hl Hp). lia.
Qed.

(** An accepted deletion with reassignment. *)
Lemma deleteUser_reassigns e db userId params_id id target user reassignUser :
  params_id <> idString userId ->
  castObjectId params_id = Some id ->
  Users db !! id = Some user ->
  Users db !! target = Some reassignUser ->
  0 < countDocuments db id ->
  exists effs db',
    deleteUser e db userId params_id (Some target)
    = (userDeleted (countDocuments db id), effs, db')
    /\ Users db' = delete id (Users db)
    /\ forall i,
         Tasks db' !! i
         = (fun t => if decide (assignedOpen id (i, t))
                     then reassignedTask e userId target
                            (reassignedDescription user reassignUser) t
                     else t) <$> Tasks db !! i.
Proof.
  intros Hne Hid Hu Ht Hc. unfold deleteUser.
  rewrite bool_decide_eq_false_2 by exact Hne. rewrite Hid, Hu.
  destruct (Nat.ltb_spec 0 (countDocuments db id)) as [_|?]; [|lia].
  rewrite Ht.
  destruct (reassignAll_writes e userId target
              (reassignedDescription user reassignUser) (find db id) db
              (find_unmodified db id)) as (effs & db' & -> & Hu' & Ht').
  exists effs, (findByIdAndDelete id db'). split; [reflexivity|].
  unfold findByIdAndDelete; simpl. split; [now rewrite Hu'|].
  intros i. rewrite Ht'. apply reassigned_lookup.
Qed.

(** Whatever [deleteUser] answers, a stored task is either left alone or is
    the reassigned version of itself. *)
Lemma deleteUser_tasks e db userId params_id reassignTo i :
  Tasks (deleteUser e db userId params_id reassignTo).2 !! i = Tasks db !! i
  \/ exists t target descr,
       Tasks db !! i = Some t
       /\ Tasks (deleteUser e db userId params_id reassignTo).2 !! i
          = Some (reassignedTask e userId target descr t).
Proof.
  unfold deleteUser. case_bool_decide as Hid; [now left|].
  destruct (castObjectId params_id) as [id|]; [|now left].
  destruct (Users db !! id) as [user|] eqn:Hu; [|now left].
  destruct (0 <? countDocuments db id); [|now left].
  destruct reassignTo as [target|]; [|now left].
  destruct (Users db !! target) as [reassignUser|] eqn:Ht; [|now left].
  destruct (reassignAll_writes e userId target
              (reassignedDescription user reassignUser) (find db id) db
              (find_unmodified db id)) as (effs & db' & -> & Hu' & Ht').
  simpl. rewrite Ht', reassigned_lookup.
  destruct (Tasks db !! i) as [t|]; [|now left]. simpl.
  destruct (decide (assignedOpen id (i, t))); [|now left].
  right. now exists t, target, (reassignedDescription user reassignUser).
Qed.

(** ** What one request may do to a stored task *)

Lemma after_same_status e t t' :
  auditHistory t `prefix_of` auditHistory t' ->
  completedAt t' = completedAt t ->
  status t' = status t ->
  after e t t'.
Proof.
  intros Hp Hc Hs. split; [exact Hp|]. split; [|congruence].
  rewrite Hc, Hs. destruct (completedAt t); [reflexivity|].
  rewrite bool_decide_eq_false_2; [reflexivity|]. intros [? ?]; contradiction.
Qed.

Lemma after_refl e t : after e t t.
Proof. now apply after_same_status. Qed.

Lemma after_stamped e userId b t :
  reverts b t = false -> after e t (stamped e userId b t).
Proof.
  intros Hrev.
  assert (Hst : status (stamped e userId b t) = newStatus b t)
    by (unfold stamped; destruct (_ && _); reflexivity).
  assert (Hau : auditHistory (stamped e userId b t)
                = auditHistory t ++ stagedEntries e userId b t)
    by (unfold stamped; destruct (_ && _); reflexivity).
  split; [rewrite Hau; now apply prefix_app_r|]. split.
  - rewrite Hst. unfold stamped, statusChanged, newStatus.
    destruct (completedAt t) as [d|] eqn:Hc.
    + rewrite (bool_decide_eq_true_2 (is_Some (Some d))) by eauto.
      rewrite andb_false_r. exact Hc.
    + rewrite (bool_decide_eq_false_2 (is_Some None)) by (intros [? ?]; discriminate).
      rewrite andb_true_r.
      destruct (b_status b) as [v|]; simpl.
      * case_bool_decide as Hv; simpl.
        -- subst v. rewrite bool_decide_eq_false_2 by (intros [? ?]; contradiction).
           exact Hc.
        -- case_bool_decide as Hv'; simpl.
           ++ rewrite bool_decide_eq_true_2 by (split; congruence). reflexivity.
           ++ rewrite bool_decide_eq_false_2 by (intros [? ?]; contradiction).
              exact Hc.
      * rewrite bool_decide_eq_false_2 by (intros [? ?]; contradiction). exact Hc.
  - rewrite Hst. intros Hdone. unfold reverts, newStatus in *.
    destruct (b_status b) as [v|]; simpl; [|exact Hdone].
    rewrite bool_decide_eq_true_2 in Hrev by exact Hdone. simpl in Hrev.
    apply negb_false_iff, bool_decide_eq_true in Hrev. exact Hrev.
Qed.

Lemma after_reassigned e userId target descr t :
  after e t (reassignedTask e userId target descr t).
Proof.
  apply after_same_status; try reflexivity. now apply prefix_app_r.
Qed.

(** Writing one task: the others stay as they are. *)
Lemma write_after e (db : Db) id t0 t1 i t :
  Tasks db !! id = Some t0 ->
  after e t0 t1 ->
  Tasks db !! i = Some t ->
  exists t', Tasks (with_Tasks (<[id := t1]> (Tasks db)) db) !! i = Some t'
             /\ after e t t'.
Proof.
  intros H0 Ha Hl. simpl. destruct (decide (id = i)) as [->|Hne].
  - rewrite lookup_insert_eq. exists t1. split; [reflexivity|].
    assert (t0 = t) by congruence. now subst t0.
  - rewrite lookup_insert_ne by exact Hne. exists t. split; [exact Hl|apply after_refl].
Qed.

(** ** The requests on one loaded task, told by what they store *)

Lemma deleteTask_eq e db userId id t :
  reaches db userId id t ->
  deleteTask e db userId id
  = (json 200 true (BodyMessage "Task deleted successfully"),
     push e (assignedTo t) TASK_DELETED id None,
     with_Tasks (<[id := set_isDeleted true t]> (Tasks db)) db).
Proof.
  intros Hr. unfold deleteTask. rewrite (findOne_reaches _ _ _ _ Hr).
  rewrite save_pristine by now repeat split. reflexivity.
Qed.

Lemma addComment_eq e db userId id text t :
  reaches db userId id t ->
  addComment e db userId id text
  = if validComment text then
      let t' := commented e userId text t in
      (json 200 true (BodyTask (Some t')),
       push e (assignedTo t) TASK_UPDATED id (Some t'),
       with_Tasks (<[id := t']> (Tasks db)) db)
    else (next ValidationError, [], db).
Proof.
  intros Hr. unfold addComment. rewrite (findOne_reaches _ _ _ _ Hr).
  unfold save, validate, validComment.
  cbn [push_comment addAuditEntry markModified on_fields init fields modifiedPaths
       invalidated app forallb validator comment_text].
  rewrite andb_true_r.
  destruct (truthy text && (String.length text <=? 2000)); [|reflexivity].
  unfold preSave, findById. simpl. rewrite lookup_insert_eq. reflexivity.
Qed.

Lemma addAttachment_eq e db userId id f t :
  reaches db userId id t ->
  addAttachment e db userId id (Some f)
  = if validFile f then
      let t' := attached e userId f t in
      (json 200 true (BodyTask (Some t')),
       push e (assignedTo t) TASK_UPDATED id (Some t'),
       with_Tasks (<[id := t']> (Tasks db)) db)
    else (next ValidationError, [], db).
Proof.
  intros Hr. unfold addAttachment. rewrite (findOne_reaches _ _ _ _ Hr).
  unfold save, validate, validFile.
  cbn [push_attachment addAuditEntry markModified on_fields init fields modifiedPaths
       invalidated app forallb validator att_filename att_originalName].
  rewrite andb_true_r.
  destruct (truthy (f_filename f) && truthy (f_originalname f)); [|reflexivity].
  unfold preSave, findById. simpl. rewrite lookup_insert_eq. reflexivity.
Qed.

Lemma removeAttachment_eq e db userId id a t :
  reaches db userId id t ->
  removeAttachment e db userId id a
  = match attachmentById a (attachments t) with
    | None => (json 404 false (BodyMessage "Attachment not found"), [], db)
    | Some att =>
        let t' := detached e userId a att t in
        (json 200 true (BodyTask (Some t')),
         Unlink (att_filename att) :: push e (assignedTo t) TASK_UPDATED id (Some t'),
         with_Tasks (<[id := t']> (Tasks db)) db)
    end.
Proof.
  intros Hr. unfold removeAttachment. rewrite (findOne_reaches _ _ _ _ Hr).
  cbn [init fields]. destruct (attachmentById a (attachments t)) as [att|]; [|reflexivity].
  unfold addAuditEntry.
  match goal with |- context [save e db (on_fields ?g (on_fields ?h ?d))] =>
    change (on_fields g (on_fields h d)) with (on_fields (fun t => g (h t)) d) end.
  rewrite save_pristine by now repeat split.
  unfold findById. simpl. rewrite lookup_insert_eq. reflexivity.
Qed.

(** *** createTask writes one new task and leaves the others alone *)

Lemma validate_newTask db userId b : validate (newTask db userId b) = validCreate b.
Proof.
  unfold validate, newTask, validCreate; simpl.
  destruct (validDate (cb_dueDate b)); simpl; [|reflexivity].
  destruct (cb_description b); simpl; now rewrite ?andb_true_r, ?andb_assoc.
Qed.

Lemma createTask_eq e db userId b assignedUser :
  Users db !! cb_assignedTo b = Some assignedUser ->
  let id := fresh (dom (Tasks db)) in
  let t := createdTask e db userId b assignedUser in
  createTask e db userId b
  = if validCreate b then
      (json 201 true (BodyTask (Some t)),
       push e (cb_assignedTo b) TASK_CREATED id (Some t),
       with_Tasks (<[id := t]> (Tasks db)) db)
    else (next ValidationError, [], db).
Proof.
  intros Hu. unfold createTask. rewrite Hu.
  unfold save at 1. rewrite validate_newTask.
  destruct (validCreate b); [|reflexivity].
  unfold preSave, newTask. simpl.
  unfold save, validate, preSave, addAuditEntry, on_fields. simpl.
  unfold findById. simpl. rewrite insert_insert_eq, lookup_insert_eq. reflexivity.
Qed.

Lemma fresh_task_id (db : Db) : Tasks db !! fresh (dom (Tasks db)) = None.
Proof. apply not_elem_of_dom, is_fresh. Qed.

Lemma createTask_after e db userId b i t :
  Tasks db !! i = Some t ->
  Tasks (createTask e db userId b).2 !! i = Some t.
Proof.
  intros Hl. destruct (Users db !! cb_assignedTo b) as [u|] eqn:Hu.
  - rewrite (createTask_eq _ _ _ _ _ Hu). destruct (validCreate b); [|exact Hl]. simpl.
    rewrite lookup_insert_ne; [exact Hl|].
    intros <-. rewrite fresh_task_id in Hl. discriminate.
  - unfold createTask. rewrite Hu. exact Hl.
Qed.

(** *** Every request *)

Lemma updateTask_after e db userId id b i t :
  Tasks db !! i = Some t ->
  exists t', Tasks (updateTask e db userId id b).2 !! i = Some t' /\ after e t t'.
Proof.
  intros Hl. destruct (findOne db id userId) as [d|] eqn:Hf.
  - apply findOne_Some in Hf as (t0 & Hr & _).
    rewrite (updateTask_eq _ _ _ _ _ _ Hr).
    destruct (reverts b t0) eqn:Hrev;
      [exists t; split; [exact Hl|apply after_refl]|].
    destruct (passes e userId b t0);
      [|exists t; split; [exact Hl|apply after_refl]].
    apply (write_after e db id t0); [apply Hr|now apply after_stamped|exact Hl].
  - unfold updateTask. rewrite Hf. exists t. split; [exact Hl|apply after_refl].
Qed.

Lemma deleteTask_after e db userId id i t :
  Tasks db !! i = Some t ->
  exists t', Tasks (deleteTask e db userId id).2 !! i = Some t' /\ after e t t'.
Proof.
  intros Hl. destruct (findOne db id userId) as [d|] eqn:Hf.
  - apply findOne_Some in Hf as (t0 & Hr & _). rewrite (deleteTask_eq _ _ _ _ _ Hr).
    apply (write_after e db id t0); [apply Hr| |exact Hl].
    now apply after_same_status.
  - unfold deleteTask. rewrite Hf. exists t. split; [exact Hl|apply after_refl].
Qed.

Lemma addComment_after e db userId id text i t :
  Tasks db !! i = Some t ->
  exists t', Tasks (addComment e db userId id text).2 !! i = Some t' /\ after e t t'.
Proof.
  intros Hl. destruct (findOne db id userId) as [d|] eqn:Hf.
  - apply findOne_Some in Hf as (t0 & Hr & _). rewrite (addComment_eq _ _ _ _ _ _ Hr).
    destruct (validComment text); [|exists t; split; [exact Hl|apply after_refl]].
    apply (write_after e db id t0); [apply Hr| |exact Hl].
    apply after_same_status; try reflexivity. now apply prefix_app_r.
  - unfold addComment. rewrite Hf. exists t. split; [exact Hl|apply after_refl].
Qed.

Lemma addAttachment_after e db userId id file i t :
  Tasks db !! i = Some t ->
  exists t', Tasks (addAttachment e db userId id file).2 !! i = Some t' /\ after e t t'.
Proof.
  intros Hl. destruct (findOne db id userId) as [d|] eqn:Hf.
  - apply findOne_Some in Hf as (t0 & Hr & _).
    destruct file as [f|].
    + rewrite (addAttachment_eq _ _ _ _ _ _ Hr).
      destruct (validFile f); [|exists t; split; [exact Hl|apply after_refl]].
      apply (write_after e db id t0); [apply Hr| |exact Hl].
      apply after_same_status; try reflexivity. now apply prefix_app_r.
    + unfold addAttachment. rewrite (findOne_reaches _ _ _ _ Hr).
      exists t. split; [exact Hl|apply after_refl].
  - unfold addAttachment. rewrite Hf. exists t. split; [exact Hl|apply after_refl].
Qed.

Lemma removeAttachment_after e db userId id a i t :
  Tasks db !! i = Some t ->
  exists t', Tasks (removeAttachment e db userId id a).2 !! i = Some t' /\ after e t t'.
Proof.
  intros Hl. destruct (findOne db id userId) as [d|] eqn:Hf.
  - apply findOne_Some in Hf as (t0 & Hr & _).
    rewrite (removeAttachment_eq _ _ _ _ _ _ Hr).
    destruct (attachmentById a (attachments t0)) as [att|];
      [|exists t; split; [exact Hl|apply after_refl]].
    apply (write_after e db id t0); [apply Hr| |exact Hl].
    apply after_same_status; try reflexivity. now apply prefix_app_r.
  - unfold removeAttachment. rewrite Hf. exists t. split; [exact Hl|apply after_refl].
Qed.

Lemma deleteUser_after e db userId id reassignTo i t :
  Tasks db !! i = Some t ->
  exists t', Tasks (deleteUser e db userId id reassignTo).2 !! i = Some t' /\ after e t t'.
Proof.
  intros Hl.
  destruct (deleteUser_tasks e db userId id reassignTo i)
    as [->|(t0 & target & descr & Hl0 & ->)].
  - exists t. split; [exact Hl|apply after_refl].
  - assert (t0 = t) by congruence. subst t0.
    eexists; split; [reflexivity|apply after_reassigned].
Qed.

(** Every request leaves every stored task in place, changed at most as
    [after] allows. *)
Lemma handle_after e db r i t :
  Tasks db !! i = Some t ->
  exists t', Tasks (handle e db r).2 !! i = Some t' /\ after e t t'.
Proof.
  intros Hl. destruct r; simpl.
  - exists t. split; [now apply createTask_after|apply after_refl].
  - now apply updateTask_after.
  - now apply deleteTask_after.
  - now apply addComment_after.
  - now apply addAttachment_after.
  - now apply removeAttachment_after.
  - now apply deleteUser_after.
Qed.

(** Over a run of requests: the audit history only grows at its end, a
    completion date that is set stays, and Completed stays Completed. *)
Lemma run_stable rs db i t :
  Tasks db !! i = Some t ->
  exists t',
    Tasks (run db rs) !! i = Some t'
    /\ auditHistory t `prefix_of` auditHistory t'
    /\ (forall d, completedAt t = Some d -> completedAt t' = Some d)
    /\ (status t = Completed -> status t' = Completed).
Proof.
  revert db t. induction rs as [|[e r] rest IH]; intros db t Hl; simpl.
  - exists t. now repeat split.
  - destruct (handle_after e db r i t Hl) as (t1 & Hl1 & Hp1 & Hc1 & Hs1).
    destruct (IH _ _ Hl1) as (t' & Hl' & Hp' & Hc' & Hs').
    exists t'. split; [exact Hl'|]. split; [now transitivity (auditHistory t1)|].
    split; [|tauto].
    intros d Hd. apply Hc'. now rewrite Hc1, Hd.
Qed.

(** ** C3: completedAt is set once *)

(** C3.  Whatever the request, a stored task stays stored and its
    completedAt obeys one rule: a date that is set is kept as it is -- also
    by an update that asks for Completed again -- and an unset date is set
    (to the time of the request) exactly when the request takes the status
    from a value other than Completed to Completed.  Over any run of further
    requests a date that is set never changes and is never cleared. *)
Theorem completedAt_set_once
    (e : Env) (db : Db) (r : Request) (i : ObjectId) (t : Task)
    (Hstored : Tasks db !! i = Some t) :
  (exists t',
      Tasks (handle e db r).2 !! i = Some t'
      /\ completedAt t'
         = match completedAt t with
           | Some d => Some d
           | None =>
               if bool_decide (status t <> Completed /\ status t' = Completed)
               then Some (now e) else None
           end)
  /\ (forall rs d, completedAt t = Some d ->
        exists t', Tasks (run db rs) !! i = Some t' /\ completedAt t' = Some d).
Proof.
  split.
  - destruct (handle_after e db r i t Hstored) as (t' & Hl & _ & Hc & _).
    now exists t'.
  - intros rs d Hd.
    destruct (run_stable rs db i t Hstored) as (t' & Hl & _ & Hc & _).
    exists t'. split; [exact Hl|now apply Hc].
Qed.

(** ** C4: the audit history is append-only *)

(** C4.  For every task id and every run of mutation requests (create,
    update, soft delete, comment, add or remove attachment, delete user with
    reassignment): a stored task is still stored afterwards, and the
    auditHistory after the run is the earlier list followed by zero or more
    new entries -- the earlier list is a prefix of the later one, so no entry
    is edited or removed, and the length does not decrease.  (Before a task
    is created its history is the empty list.) *)
Theorem auditHistory_append_only
    (rs : list (Env * Request)) (db : Db) (i : ObjectId) :
  (is_Some (Tasks db !! i) -> is_Some (Tasks (run db rs) !! i))
  /\ historyOf db i `prefix_of` historyOf (run db rs) i
  /\ length (historyOf db i) <= length (historyOf (run db rs) i).
Proof.
  unfold historyOf. destruct (Tasks db !! i) as [t|] eqn:Hl.
  - destruct (run_stable rs db i t Hl) as (t' & -> & Hp & _). simpl.
    split; [eauto|]. split; [exact Hp|]. now apply prefix_length.
  - simpl. split; [intros [? ?]; discriminate|].
    split; [apply prefix_nil|lia].
Qed.

(** ** C5: a priority change leaves two audit entries *)

Lemma accepted_reverts b t : accepted b t -> reverts b t = false.
Proof.
  unfold accepted, reverts. intros H. destruct (b_status b) as [v|]; [|reflexivity].
  case_bool_decide as Hs; [|reflexivity]. simpl.
  now rewrite (H Hs v eq_refl), bool_decide_eq_true_2.
Qed.

Lemma stamped_tags e userId b t : tags (stamped e userId b t) = newTags b t.
Proof. unfold stamped. now destruct (_ && _). Qed.
Lemma stamped_auditHistory e userId b t :
  auditHistory (stamped e userId b t) = auditHistory t ++ stagedEntries e userId b t.
Proof. unfold stamped. now destruct (_ && _). Qed.

(** A patch within the limits of the schema passes the validation. *)
Lemma uncast_storable b : storablePatch b -> uncast b = [].
Proof.
  intros (_ & _ & _ & Hd). unfold uncast.
  destruct (b_dueDate b) as [v|]; [|reflexivity]. now rewrite (Hd v eq_refl).
Qed.

Lemma storablePatch_passes e userId b t :
  storablePatch b -> passes e userId b t = true.
Proof.
  intros Hs. unfold passes. rewrite (uncast_storable b Hs).
  destruct Hs as (Ht & Hde & Htg & _).
  unfold touched. rewrite !forallb_app. repeat (apply andb_true_iff; split).
  - case_bool_decide as H; [reflexivity|]. simpl. rewrite andb_true_r.
    unfold newTitle in *. destruct (titleChanged b t) eqn:Hc; [|congruence].
    unfold titleChanged in Hc. destruct (b_title b) as [v|]; [|discriminate].
    simpl in *. apply andb_true_iff in Hc as [Hv _].
    apply negb_true_iff, bool_decide_eq_false in Hv.
    destruct (Ht v eq_refl Hv) as [Hne Hlen].
    apply andb_true_iff. split.
    + unfold truthy. now rewrite bool_decide_eq_false_2.
    + now apply Nat.leb_le.
  - case_bool_decide as H; [reflexivity|]. simpl. rewrite andb_true_r.
    unfold newDescription in *. destruct (descriptionChanged b t); [|congruence].
    destruct (b_description b) as [v|]; simpl; [|reflexivity].
    apply Nat.leb_le. now apply Hde.
  - now destruct (bool_decide _).
  - case_bool_decide as H; [reflexivity|]. simpl. rewrite andb_true_r.
    unfold newTags in *. destruct (b_tags b) as [l|]; simpl in *; [|congruence].
    apply forallb_forall. intros tag Hin. apply in_map_iff in Hin as (x & <- & Hx).
    apply Nat.leb_le. apply (Htg l x eq_refl). now apply list_elem_of_In.
Qed.

Lemma updateTask_accepted e db userId id b t :
  reaches db userId id t -> accepted b t -> storablePatch b ->
  updateTask e db userId id b
  = (json 200 true (BodyTask (Some (stamped e userId b t))),
     push e (assignedTo t) TASK_UPDATED id (Some (stamped e userId b t)),
     with_Tasks (<[id := stamped e userId b t]> (Tasks db)) db).
Proof.
  intros Hr Hok Hs.
  now rewrite (updateTask_eq _ _ _ _ _ _ Hr), (accepted_reverts _ _ Hok),
    (storablePatch_passes _ _ _ _ Hs).
Qed.

(** An update that is refused, for the status or by the validation, writes
    nothing. *)
Lemma updateTask_refused e db userId id b t :
  reaches db userId id t ->
  reverts b t = true \/ passes e userId b t = false ->
  (updateTask e db userId id b).2 = db /\ (updateTask e db userId id b).1.2 = [].
Proof.
  intros Hr H. rewrite (updateTask_eq _ _ _ _ _ _ Hr).
  destruct (reverts b t); [now split|].
  destruct H as [H|H]; [discriminate|]. rewrite H. now split.
Qed.




(** ** C6: tags are replaced, and a tags-only update is not audited *)

Lemma scalarsKept_changedNames b t :
  storablePatch b -> scalarsKept b t -> changedNames b t = [].
Proof.
  intros (_ & _ & _ & Hdu) (H1 & H2 & H3 & H4 & H5).
  unfold changedNames, titleChanged, descriptionChanged, dueDateChanged,
    priorityChanged, statusChanged, getTime.
  destruct (b_title b) as [v1|];
    [rewrite (bool_decide_eq_true_2 _ (H1 v1 eq_refl)), andb_false_r|];
  (destruct (b_description b) as [v2|];
    [rewrite (bool_decide_eq_true_2 _ (H2 v2 eq_refl))|]);
  (destruct (b_dueDate b) as [v3|];
    [rewrite (Hdu v3 eq_refl),
       (bool_decide_eq_true_2 _ (f_equal Some (H3 v3 eq_refl)))|]);
  (destruct (b_priority b) as [v4|];
    [rewrite (bool_decide_eq_true_2 _ (H4 v4 eq_refl))|]);
  (destruct (b_status b) as [v5|];
    [rewrite (bool_decide_eq_true_2 _ (H5 v5 eq_refl))|]);
  reflexivity.
Qed.

Lemma scalarsKept_stagedEntries e userId b t :
  storablePatch b -> scalarsKept b t -> stagedEntries e userId b t = [].
Proof.
  intros Hv H. pose proof (scalarsKept_changedNames b t Hv H) as Hn.
  unfold stagedEntries. rewrite Hn. unfold changedNames in Hn.
  destruct (titleChanged b t), (descriptionChanged b t), (dueDateChanged b t),
    (priorityChanged b t), (statusChanged b t); try discriminate. reflexivity.
Qed.

(** The claim as it is written, "the tags list is replaced with the patch
    value", fails on a tag with blanks around it, which the setter of the
    path trims before it is stored, and on a tag that is longer than the 50
    characters the schema allows: the update is rejected by the validation
    and the tags stay what they were. *)
Lemma tags_are_stored_trimmed :
  (exists t',
     Tasks (updateTask (Sample.env 7) Sample.db 1 10
              {| b_title := None; b_description := None; b_dueDate := None;
                 b_priority := None; b_tags := Some [" x "; "y"];
                 b_status := None |}).2 !! 10 = Some t'
     /\ tags t' = ["x"; "y"] /\ tags t' <> [" x "; "y"])
  /\ String.length Sample.longTag = 51
  /\ updateTask (Sample.env 7) Sample.db 1 10
       {| b_title := None; b_description := None; b_dueDate := None;
          b_priority := None; b_tags := Some [Sample.longTag]; b_status := None |}
     = (next ValidationError, [], Sample.db)
  /\ ~ (forall (e : Env) (db : Db) (userId id : ObjectId) (b : UpdateBody) (t : Task)
               (l : list string),
          reaches db userId id t -> b_tags b = Some l ->
          exists t',
            Tasks (updateTask e db userId id b).2 !! id = Some t' /\ tags t' = l).
Proof.
  split; [|split; [|split]].
  - eexists. split; [vm_compute; reflexivity|]. split; [reflexivity|discriminate].
  - reflexivity.
  - vm_compute; reflexivity.
  - intros H.
    destruct (H (Sample.env 7) Sample.db 1 10
                {| b_title := None; b_description := None; b_dueDate := None;
                   b_priority := None; b_tags := Some [" x "; "y"];
                   b_status := None |}
                (Sample.task 1 ToDo None) [" x "; "y"])
      as (t' & Hl & Ht); [now repeat split|reflexivity|].
    vm_compute in Hl. injection Hl as <-. discriminate Ht.
Qed.

(** C6, for an update that is accepted.  An update that does not ask a
    Completed task to leave Completed, whose values pass the schema and
    whose patch carries tags is answered 200 and stores these tags, each one
    trimmed, whatever the earlier tags were; and when no other field of the
    patch differs from the stored task, the stored auditHistory is the one
    before the update. *)
Theorem tags_replaced_without_audit
    (e : Env) (db : Db) (userId id : ObjectId) (b : UpdateBody) (t : Task)
    (l : list string)
    (Hreach : reaches db userId id t)
    (Hok : accepted b t)
    (Hvalid : storablePatch b)
    (Htags : b_tags b = Some l) :
  exists t',
    (updateTask e db userId id b).1.1 = json 200 true (BodyTask (Some t'))
    /\ Tasks (updateTask e db userId id b).2 !! id = Some t'
    /\ tags t' = trim <$> l
    /\ (scalarsKept b t -> auditHistory t' = auditHistory t).
Proof.
  rewrite (updateTask_accepted _ _ _ _ _ _ Hreach Hok Hvalid). simpl.
  rewrite lookup_insert_eq. eexists; split; [reflexivity|]. split; [reflexivity|].
  split.
  - rewrite stamped_tags. unfold newTags. rewrite Htags. reflexivity.
  - intros Hk.
    rewrite stamped_auditHistory, (scalarsKept_stagedEntries _ _ _ _ Hvalid Hk).
    apply app_nil_r.
Qed.

(** ** Ids and their strings *)

Lemma hexValue_toHexDigit (d : N) : (d < 16)%N -> hexValue (toHexDigit d) = Some d.
Proof.
  intros H. destruct d as [|p]; [reflexivity|].
  do 4 (destruct p as [p|p|]; try reflexivity; try lia).
Qed.

Lemma fromHex_app (s1 s2 : string) : forall acc,
  fromHex acc (s1 +:+ s2)
  = match fromHex acc s1 with Some a => fromHex a s2 | None => None end.
Proof.
  induction s1 as [|c s1 IH]; intros acc; simpl; [reflexivity|].
  destruct (hexValue c); [apply IH|reflexivity].
Qed.

Lemma fromHex_toHex (w : nat) : forall n acc,
  fromHex acc (toHex w n) = Some (acc * 16 ^ N.of_nat w + n mod 16 ^ N.of_nat w)%N.
Proof.
  induction w as [|w IH]; intros n acc.
  - simpl. f_equal. rewrite N.mod_1_r. lia.
  - cbn [toHex]. rewrite fromHex_app, IH. cbn [fromHex].
    rewrite hexValue_toHexDigit by (apply N.mod_lt; lia). f_equal.
    rewrite Nat2N.inj_succ, N.pow_succ_r'.
    rewrite (N.Div0.mod_mul_r n 16 (16 ^ N.of_nat w)). lia.
Qed.

Lemma length_app_string (s1 s2 : string) :
  String.length (s1 +:+ s2) = String.length s1 + String.length s2.
Proof. induction s1 as [|c s1 IH]; simpl; [reflexivity|]. now rewrite IH. Qed.

Lemma length_toHex (w : nat) : forall n, String.length (toHex w n) = w.
Proof.
  induction w as [|w IH]; intros n; [reflexivity|].
  cbn [toHex]. rewrite length_app_string, IH. simpl. lia.
Qed.

(** The string of an id casts back to the id. *)
Lemma castObjectId_idString (i : ObjectId) :
  (N.of_nat i < 16 ^ 24)%N -> castObjectId (idString i) = Some i.
Proof.
  intros H. unfold castObjectId, idString.
  rewrite length_toHex, Nat.eqb_refl, fromHex_toHex. simpl fmap.
  change (N.of_nat 24) with 24%N. rewrite N.mod_small by exact H.
  rewrite N.mul_0_l, N.add_0_l. simpl. f_equal. apply Nat2N.id.
Qed.

Lemma idString_inj (i j : ObjectId) :
  (N.of_nat i < 16 ^ 24)%N -> (N.of_nat j < 16 ^ 24)%N ->
  idString i = idString j -> i = j.
Proof.
  intros Hi Hj E. apply castObjectId_idString in Hi, Hj.
  rewrite E in Hi. congruence.
Qed.

(** ** C10: the test against self-deletion *)

(** The first test of [deleteUser] answers a request whose parameter is the
    requester's own id string, whatever reassignTo is, before any query is
    made. *)
Lemma self_deletion_refused e db userId reassignTo :
  deleteUser e db userId (idString userId) reassignTo = (selfDeletion, [], db).
Proof. unfold deleteUser. now rewrite bool_decide_eq_true_2. Qed.

(** C10.  The test compares strings, and the queries after it cast the
    parameter to an id.  Whenever the parameter casts to the requester's own
    id and is not the requester's id string, the request passes the test:
    a requester without open tasks is answered 200 'User deleted
    successfully' and is removed from the users, whatever reassignTo is.
    User 10 has the id string "00000000000000000000000a"; the parameter
    "00000000000000000000000A" casts to the same id and is a different
    string.  So the request of user 10 to delete
    "00000000000000000000000A" is answered 200 and user 10 is no longer
    stored -- while the same request under the id string itself is
    refused. *)
Theorem self_deletion_by_another_spelling :
  (forall (e : Env) (db : Db) (userId : ObjectId) (params_id : string) (user : User)
          (reassignTo : option ObjectId),
      castObjectId params_id = Some userId ->
      params_id <> idString userId ->
      Users db !! userId = Some user ->
      countDocuments db userId = 0 ->
      deleteUser e db userId params_id reassignTo
      = (userDeleted 0, [], findByIdAndDelete userId db)
      /\ Users (deleteUser e db userId params_id reassignTo).2 !! userId = None)
  /\ idString 10 = "00000000000000000000000a"
  /\ castObjectId "00000000000000000000000A" = Some 10
  /\ Users Sample.dbCarol !! 10 = Some Sample.carol
  /\ deleteUser (Sample.env 7) Sample.dbCarol 10 "00000000000000000000000a" None
     = (selfDeletion, [], Sample.dbCarol)
  /\ (deleteUser (Sample.env 7) Sample.dbCarol 10 "00000000000000000000000A" None).1.1
     = userDeleted 0
  /\ Users (deleteUser (Sample.env 7) Sample.dbCarol 10
              "00000000000000000000000A" None).2 !! 10 = None.
Proof.
  split; [|repeat split; vm_compute; reflexivity].
  intros e db userId params_id user reassignTo Hcast Hne Huser Hcount.
  assert (E : deleteUser e db userId params_id reassignTo
              = (userDeleted 0, [], findByIdAndDelete userId db)).
  { unfold deleteUser. rewrite bool_decide_eq_false_2 by exact Hne.
    now rewrite Hcast, Huser, Hcount. }
  rewrite E. split; [reflexivity|]. simpl. apply lookup_delete_eq.
Qed.

(** ** C2: deleting a user who still has tasks *)

(** The claim without the requester: "a delete-user request without
    reassignTo for a user with open tasks reports their number".  It fails
    when the requester is the target.  User 1 of the sample store has two
    open tasks; asking to delete oneself is answered by the self-deletion
    refusal, which carries no count, and user 1 stays even when a valid
    reassignTo is given. *)
Lemma deleteUser_count_not_reported_to_self :
  countDocuments Sample.db 1 = 2
  /\ deleteUser (Sample.env 7) Sample.db 1 (idString 1) None
     = (selfDeletion, [], Sample.db)
  /\ selfDeletion <> needsReassign 2
  /\ Users (deleteUser (Sample.env 7) Sample.db 1 (idString 1) (Some 2)).2 !! 1
     = Some Sample.alice
  /\ ~ (forall (e : Env) (db : Db) (userId id : ObjectId) (user : User),
          Users db !! id = Some user ->
          0 < countDocuments db id ->
          deleteUser e db userId (idString id) None
          = (needsReassign (countDocuments db id), [], db)).
Proof.
  assert (Hc : countDocuments Sample.db 1 = 2) by (vm_compute; reflexivity).
  split; [exact Hc|]. split; [vm_compute; reflexivity|].
  split; [discriminate|]. split; [vm_compute; reflexivity|].
  intros H.
  specialize (H (Sample.env 7) Sample.db 1 1 Sample.alice).
  rewrite Hc in H. specialize (H eq_refl ltac:(lia)).
  vm_compute in H. discriminate H.
Qed.

(** [countDocuments] counts exactly the ids of the stored, not deleted tasks
    assigned to the user. *)
Lemma countDocuments_exact db id :
  exists ids : list ObjectId,
    NoDup ids
    /\ length ids = countDocuments db id
    /\ forall i, i ∈ ids <->
         exists t, Tasks db !! i = Some t /\ assignedTo t = id /\ isDeleted t = false.
Proof.
  exists (map_to_list (filter (assignedOpen id) (Tasks db))).*1.
  split; [apply NoDup_fst_map_to_list|]. split.
  - rewrite length_fmap. unfold countDocuments. apply length_map_to_list.
  - intros i. rewrite list_elem_of_fmap. split.
    + intros ([k t] & -> & Hin). apply elem_of_map_to_list in Hin.
      apply map_lookup_filter_Some in Hin as [Hl [Ha Hd]]. now exists t.
    + intros (t & Hl & Ha & Hd). exists (i, t). split; [reflexivity|].
      apply elem_of_map_to_list, map_lookup_filter_Some. now repeat split.
Qed.

(** C2, for a request made by another user.  Let [id] be a user with at
    least one stored, not deleted task, named by the parameter of a request
    that is not the requester's own id string.  Without reassignTo the
    request is answered 400 with taskCount, the exact number of that user's
    not deleted tasks, and the store is the one before the request (nothing
    reassigned, no user deleted).  With a reassignTo that names an existing
    user the request succeeds: every not deleted task of [id] gets
    assignedTo = reassignTo and exactly one new audit entry, of action
    'reassigned', at the end of its history; every other task is left as it
    was; and the user [id] is removed from the users. *)
Theorem deleteUser_two_step
    (e : Env) (db : Db) (userId : ObjectId) (params_id : string) (id : ObjectId)
    (user : User) (i0 : ObjectId) (t0 : Task)
    (Hother : params_id <> idString userId)
    (Hid : castObjectId params_id = Some id)
    (Huser : Users db !! id = Some user)
    (Hstored : Tasks db !! i0 = Some t0)
    (Hopen : assignedTo t0 = id /\ isDeleted t0 = false) :
  deleteUser e db userId params_id None = (needsReassign (countDocuments db id), [], db)
  /\ (exists ids : list ObjectId,
        NoDup ids /\ length ids = countDocuments db id
        /\ forall i, i ∈ ids <->
             exists t, Tasks db !! i = Some t /\ assignedTo t = id /\ isDeleted t = false)
  /\ (forall target reassignUser,
        Users db !! target = Some reassignUser ->
        exists effs db',
          deleteUser e db userId params_id (Some target)
          = (userDeleted (countDocuments db id), effs, db')
          /\ Users db' = delete id (Users db)
          /\ forall i t,
               Tasks db !! i = Some t ->
               if decide (assignedTo t = id /\ isDeleted t = false)
               then exists t' a,
                      Tasks db' !! i = Some t'
                      /\ t' = set_auditHistory (auditHistory t ++ [a])
                                (set_assignedTo target t)
                      /\ audit_action a = reassigned
                      /\ audit_user a = userId
               else Tasks db' !! i = Some t).
Proof.
  assert (Hpos : 0 < countDocuments db id)
    by (eapply countDocuments_pos; [exact Hstored|exact Hopen]).
  split; [|split].
  - unfold deleteUser. rewrite bool_decide_eq_false_2 by exact Hother.
    rewrite Hid, Huser.
    destruct (Nat.ltb_spec 0 (countDocuments db id)); [reflexivity|lia].
  - apply countDocuments_exact.
  - intros target reassignUser Ht.
    destruct (deleteUser_reassigns e db userId params_id id target user reassignUser
                Hother Hid Huser Ht Hpos) as (effs & db' & Heq & Hu & Hl).
    exists effs, db'. split; [exact Heq|]. split; [exact Hu|].
    intros i t Hit. rewrite Hl, Hit. simpl.
    unfold assignedOpen; simpl.
    destruct (decide (assignedTo t = id /\ isDeleted t = false)); [|reflexivity].
    eexists _, _. split; [reflexivity|]. split; [reflexivity|]. now split.
Qed.

(** * Further properties of the task engine *)

(** ** The requests on one loaded task, told by what they store *)

Lemma findOne_unreachable db userId id :
  unreachable db userId id -> findOne db id userId = None.
Proof.
  intros Hu. destruct (findOne db id userId) as [d|] eqn:Hf; [|reflexivity].
  apply findOne_Some in Hf as (t & (Hl & Ha & Hd) & _).
  destruct (Hu t Hl) as [H|H]; congruence.
Qed.

(** ** A task the requester cannot reach *)

(** X1.  Every endpoint that addresses one task answers 404 'Task not found or
    access denied' when the id names no task, a task assigned to somebody
    else, or a soft-deleted task; the answer does not tell these cases
    apart, nothing is pushed and the store is not changed. *)
Theorem unreachable_task_is_denied
    (e : Env) (db : Db) (userId id : ObjectId)
    (Hno : unreachable db userId id) :
  getTask db userId id = notFound
  /\ (forall b, updateTask e db userId id b = (notFound, [], db))
  /\ deleteTask e db userId id = (notFound, [], db)
  /\ (forall text, addComment e db userId id text = (notFound, [], db))
  /\ (forall file, addAttachment e db userId id file = (notFound, [], db))
  /\ (forall a, removeAttachment e db userId id a = (notFound, [], db))
  /\ (forall p a, downloadAttachment p db userId id a = answered notFound).
Proof.
  pose proof (findOne_unreachable _ _ _ Hno) as Hf.
  unfold getTask, updateTask, deleteTask, addComment, addAttachment, removeAttachment,
    downloadAttachment.
  rewrite Hf. now repeat split.
Qed.

(** ** Soft deletion *)

Lemma deleted_unreachable (m : gmap ObjectId Task) db id t u :
  isDeleted t = true -> unreachable (with_Tasks (<[id := t]> m) db) u id.
Proof.
  intros Hd t0 Hl. simpl in Hl. rewrite lookup_insert_eq in Hl.
  injection Hl as <-. now right.
Qed.

(** X2.  [deleteTask] keeps the document.  For a task the requester reaches, the
    answer is 200 'Task deleted successfully', the stored task is the old
    one with [isDeleted] set and nothing else changed -- no audit entry is
    written --, the other tasks and the users are untouched, and one
    TASK_DELETED event carrying the id only goes to the requester (the
    assignee).  Afterwards no user can fetch the task, and deleting it again
    is answered 404. *)
Theorem deleteTask_is_soft
    (e : Env) (db : Db) (userId id : ObjectId) (t : Task)
    (Hreach : reaches db userId id t) :
  let r := deleteTask e db userId id in
  r.1.1 = json 200 true (BodyMessage "Task deleted successfully")
  /\ r.1.2 = push e userId TASK_DELETED id None
  /\ Tasks r.2 !! id = Some (set_isDeleted true t)
  /\ auditHistory (set_isDeleted true t) = auditHistory t
  /\ set_isDeleted false (set_isDeleted true t) = t
  /\ (forall i, i <> id -> Tasks r.2 !! i = Tasks db !! i)
  /\ Users r.2 = Users db
  /\ (forall u, getTask r.2 u id = notFound)
  /\ (forall e', deleteTask e' r.2 userId id = (notFound, [], r.2)).
Proof.
  intros r. subst r. rewrite (deleteTask_eq _ _ _ _ _ Hreach).
  destruct Hreach as (Hl & Ha & Hd). cbn [fst snd]. rewrite Ha.
  split; [reflexivity|]. split; [reflexivity|].
  split; [simpl; apply lookup_insert_eq|]. split; [reflexivity|].
  split; [destruct t; simpl in *; now subst|].
  split; [intros i Hi; simpl; now rewrite lookup_insert_ne|].
  split; [reflexivity|].
  assert (Hu : forall u, unreachable
             (with_Tasks (<[id := set_isDeleted true t]> (Tasks db)) db) u id)
    by (intros u; now apply deleted_unreachable).
  split.
  - intros u. unfold getTask. now rewrite (findOne_unreachable _ _ _ (Hu u)).
  - intros e'. unfold deleteTask. now rewrite (findOne_unreachable _ _ _ (Hu userId)).
Qed.

(** ** What no request changes *)

Lemma kept_refl t : kept t t.
Proof. now repeat split. Qed.

Lemma kept_trans t1 t2 t3 : kept t1 t2 -> kept t2 t3 -> kept t1 t3.
Proof.
  intros (Hc1 & Hp1 & Hd1) (Hc2 & Hp2 & Hd2). split; [congruence|]. split.
  - now transitivity (comments t2).
  - intros Hd. specialize (Hd1 Hd). subst t2. now apply Hd2.
Qed.

(** Writing a changed version of a reachable task under its id. *)
Lemma kept_write db userId id t t1 i t0 :
  reaches db userId id t ->
  createdBy t1 = createdBy t -> comments t `prefix_of` comments t1 ->
  Tasks db !! i = Some t0 ->
  exists t', <[id := t1]> (Tasks db) !! i = Some t' /\ kept t0 t'.
Proof.
  intros (Hl & _ & Hd) Hc Hp Hi. destruct (decide (id = i)) as [->|Hne].
  - rewrite lookup_insert_eq. exists t1. split; [reflexivity|].
    assert (t0 = t) by congruence. subst t0.
    split; [exact Hc|]. split; [exact Hp|]. congruence.
  - rewrite lookup_insert_ne by exact Hne. exists t0. split; [exact Hi|apply kept_refl].
Qed.

Lemma stamped_createdBy e userId b t : createdBy (stamped e userId b t) = createdBy t.
Proof. unfold stamped. now destruct (_ && _). Qed.

Lemma stamped_comments e userId b t : comments (stamped e userId b t) = comments t.
Proof. unfold stamped. now destruct (_ && _). Qed.

Lemma updateTask_kept e db userId id b i t :
  Tasks db !! i = Some t ->
  exists t', Tasks (updateTask e db userId id b).2 !! i = Some t' /\ kept t t'.
Proof.
  intros Hl. destruct (findOne db id userId) as [d|] eqn:Hf.
  - apply findOne_Some in Hf as (t0 & Hr & _).
    rewrite (updateTask_eq _ _ _ _ _ _ Hr).
    destruct (reverts b t0); simpl; [exists t; split; [exact Hl|apply kept_refl]|].
    destruct (passes e userId b t0); simpl;
      [|exists t; split; [exact Hl|apply kept_refl]].
    eapply kept_write; [exact Hr| | |exact Hl].
    + apply stamped_createdBy.
    + now rewrite stamped_comments.
  - unfold updateTask. rewrite Hf. exists t. split; [exact Hl|apply kept_refl].
Qed.

Lemma deleteTask_kept e db userId id i t :
  Tasks db !! i = Some t ->
  exists t', Tasks (deleteTask e db userId id).2 !! i = Some t' /\ kept t t'.
Proof.
  intros Hl. destruct (findOne db id userId) as [d|] eqn:Hf.
  - apply findOne_Some in Hf as (t0 & Hr & _).
    rewrite (deleteTask_eq _ _ _ _ _ Hr). simpl.
    eapply kept_write; [exact Hr| | |exact Hl]; reflexivity.
  - unfold deleteTask. rewrite Hf. exists t. split; [exact Hl|apply kept_refl].
Qed.

Lemma addComment_kept e db userId id text i t :
  Tasks db !! i = Some t ->
  exists t', Tasks (addComment e db userId id text).2 !! i = Some t' /\ kept t t'.
Proof.
  intros Hl. destruct (findOne db id userId) as [d|] eqn:Hf.
  - apply findOne_Some in Hf as (t0 & Hr & _).
    rewrite (addComment_eq _ _ _ _ _ _ Hr).
    destruct (validComment text); simpl;
      [|exists t; split; [exact Hl|apply kept_refl]].
    eapply kept_write; [exact Hr| | |exact Hl]; [reflexivity|].
    simpl. now apply prefix_app_r.
  - unfold addComment. rewrite Hf. exists t. split; [exact Hl|apply kept_refl].
Qed.

Lemma addAttachment_kept e db userId id file i t :
  Tasks db !! i = Some t ->
  exists t', Tasks (addAttachment e db userId id file).2 !! i = Some t' /\ kept t t'.
Proof.
  intros Hl. destruct (findOne db id userId) as [d|] eqn:Hf.
  - apply findOne_Some in Hf as (t0 & Hr & _). destruct file as [f|].
    + rewrite (addAttachment_eq _ _ _ _ _ _ Hr).
      destruct (validFile f); simpl;
        [|exists t; split; [exact Hl|apply kept_refl]].
      eapply kept_write; [exact Hr| | |exact Hl]; reflexivity.
    + unfold addAttachment. rewrite (findOne_reaches _ _ _ _ Hr).
      exists t. split; [exact Hl|apply kept_refl].
  - unfold addAttachment. rewrite Hf. exists t. split; [exact Hl|apply kept_refl].
Qed.

Lemma removeAttachment_kept e db userId id a i t :
  Tasks db !! i = Some t ->
  exists t', Tasks (removeAttachment e db userId id a).2 !! i = Some t' /\ kept t t'.
Proof.
  intros Hl. destruct (findOne db id userId) as [d|] eqn:Hf.
  - apply findOne_Some in Hf as (t0 & Hr & _).
    rewrite (removeAttachment_eq _ _ _ _ _ _ Hr).
    destruct (attachmentById a (attachments t0)) as [att|]; simpl.
    + eapply kept_write; [exact Hr| | |exact Hl]; reflexivity.
    + exists t. split; [exact Hl|apply kept_refl].
  - unfold removeAttachment. rewrite Hf. exists t. split; [exact Hl|apply kept_refl].
Qed.

(** [deleteUser] rewrites the not deleted tasks of the user only. *)
Lemma deleteUser_tasks_open e db userId params_id reassignTo i :
  Tasks (deleteUser e db userId params_id reassignTo).2 !! i = Tasks db !! i
  \/ exists id t target descr,
       castObjectId params_id = Some id
       /\ Tasks db !! i = Some t /\ assignedOpen id (i, t)
       /\ Tasks (deleteUser e db userId params_id reassignTo).2 !! i
          = Some (reassignedTask e userId target descr t).
Proof.
  unfold deleteUser. case_bool_decide as Hid; [now left|].
  destruct (castObjectId params_id) as [id|]; [|now left].
  destruct (Users db !! id) as [user|] eqn:Hu; [|now left].
  destruct (0 <? countDocuments db id); [|now left].
  destruct reassignTo as [target|]; [|now left].
  destruct (Users db !! target) as [reassignUser|] eqn:Ht; [|now left].
  destruct (reassignAll_writes e userId target
              (reassignedDescription user reassignUser) (find db id) db
              (find_unmodified db id)) as (effs & db' & -> & Hu' & Ht').
  simpl. rewrite Ht', reassigned_lookup.
  destruct (Tasks db !! i) as [t|]; [|now left]. simpl.
  destruct (decide (assignedOpen id (i, t))) as [Hopen|]; [|now left].
  right. now exists id, t, target, (reassignedDescription user reassignUser).
Qed.

Lemma deleteUser_kept e db userId params_id reassignTo i t :
  Tasks db !! i = Some t ->
  exists t',
    Tasks (deleteUser e db userId params_id reassignTo).2 !! i = Some t' /\ kept t t'.
Proof.
  intros Hl.
  destruct (deleteUser_tasks_open e db userId params_id reassignTo i)
    as [->|(id & t0 & target & descr & _ & Hl0 & (_ & Hopen) & ->)].
  - exists t. split; [exact Hl|apply kept_refl].
  - assert (t0 = t) by congruence. subst t0. simpl in Hopen.
    eexists; split; [reflexivity|]. split; [reflexivity|]. split; [reflexivity|].
    congruence.
Qed.

Lemma handle_kept e db r i t :
  Tasks db !! i = Some t ->
  exists t', Tasks (handle e db r).2 !! i = Some t' /\ kept t t'.
Proof.
  intros Hl. destruct r; simpl.
  - exists t. split; [now apply createTask_after|apply kept_refl].
  - now apply updateTask_kept.
  - now apply deleteTask_kept.
  - now apply addComment_kept.
  - now apply addAttachment_kept.
  - now apply removeAttachment_kept.
  - now apply deleteUser_kept.
Qed.

Lemma run_kept rs db i t :
  Tasks db !! i = Some t ->
  exists t', Tasks (run db rs) !! i = Some t' /\ kept t t'.
Proof.
  revert db t. induction rs as [|[e r] rest IH]; intros db t Hl; simpl.
  - exists t. split; [exact Hl|apply kept_refl].
  - destruct (handle_kept e db r i t Hl) as (t1 & Hl1 & Hk1).
    destruct (IH _ _ Hl1) as (t' & Hl' & Hk').
    exists t'. split; [exact Hl'|]. now apply (kept_trans _ t1).
Qed.

(** X3.  A soft-deleted task is out of reach of every request: whatever requests
    follow (updates, comments, attachments, deletions, the reassignment of a
    user deletion), the stored document stays exactly as it was; there is no
    way to bring it back. *)
Theorem soft_deleted_task_is_frozen
    (rs : list (Env * Request)) (db : Db) (i : ObjectId) (t : Task)
    (Hstored : Tasks db !! i = Some t)
    (Hdeleted : isDeleted t = true) :
  Tasks (run db rs) !! i = Some t.
Proof.
  destruct (run_kept rs db i t Hstored) as (t' & Hl & _ & _ & Hd).
  now rewrite Hl, (Hd Hdeleted).
Qed.

(** X4.  Comments are append-only and the creator of a task is fixed: over any
    run of requests a stored task stays stored, its earlier comments are a
    prefix of the later ones (no comment is edited, reordered or removed)
    and [createdBy] does not change. *)
Theorem comments_append_only
    (rs : list (Env * Request)) (db : Db) (i : ObjectId) (t : Task)
    (Hstored : Tasks db !! i = Some t) :
  exists t',
    Tasks (run db rs) !! i = Some t'
    /\ comments t `prefix_of` comments t'
    /\ length (comments t) <= length (comments t')
    /\ createdBy t' = createdBy t.
Proof.
  destruct (run_kept rs db i t Hstored) as (t' & Hl & Hc & Hp & _).
  exists t'. split; [exact Hl|]. split; [exact Hp|]. split; [|exact Hc].
  now apply prefix_length.
Qed.

(** ** Completed tasks and their completion date *)

Lemma after_consistent e t t' : after e t t' -> consistent t -> consistent t'.
Proof.
  intros (_ & Hc & Hs) [H1 H2]. unfold consistent. rewrite Hc.
  destruct (completedAt t) as [d|] eqn:Hd.
  - split; [eauto|]. intros _. apply Hs, H2. eauto.
  - assert (Hn : status t <> Completed).
    { intros E. destruct (H1 E) as [? ?]. discriminate. }
    case_bool_decide as Hb.
    + split; [eauto|]. intros _. apply Hb.
    + split.
      * intros E. exfalso. apply Hb. now split.
      * intros [? ?]. discriminate.
Qed.

Lemma after_completed e t t' :
  after e t t' -> status t = Completed ->
  status t' = Completed /\ completedAt t' = completedAt t.
Proof.
  intros (_ & Hc & Hs) Hdone. split; [now apply Hs|].
  rewrite Hc. destruct (completedAt t); [reflexivity|].
  rewrite bool_decide_eq_false_2; [reflexivity|]. intros [? _]. contradiction.
Qed.

(** X5.  Completed is final.  Over any run of requests a task that is Completed
    stays stored, stays Completed, and keeps the completion date it has
    (also when it has none). *)
Theorem completed_is_final
    (rs : list (Env * Request)) (db : Db) (i : ObjectId) (t : Task)
    (Hstored : Tasks db !! i = Some t)
    (Hdone : status t = Completed) :
  exists t',
    Tasks (run db rs) !! i = Some t'
    /\ status t' = Completed
    /\ completedAt t' = completedAt t.
Proof.
  revert db t Hstored Hdone. induction rs as [|[e r] rest IH]; intros db t Hl Hdone; simpl.
  - now exists t.
  - destruct (handle_after e db r i t Hl) as (t1 & Hl1 & Ha).
    destruct (after_completed e t t1 Ha Hdone) as [Hs1 Hc1].
    destruct (IH _ _ Hl1 Hs1) as (t' & Hl' & Hs' & Hc').
    exists t'. split; [exact Hl'|]. split; [exact Hs'|congruence].
Qed.

(** Requests other than createTask store nothing under an unused id. *)
Lemma write_existing db userId id t (t1 : Task) i :
  reaches db userId id t -> Tasks db !! i = None -> <[id := t1]> (Tasks db) !! i = None.
Proof.
  intros (Hl & _) Hi. rewrite lookup_insert_ne; [exact Hi|]. intros ->. congruence.
Qed.

Lemma handle_new e db r i t :
  Tasks db !! i = None -> Tasks (handle e db r).2 !! i = Some t ->
  exists userId b u,
    r = CreateTask userId b /\ Users db !! cb_assignedTo b = Some u
    /\ i = fresh (dom (Tasks db)) /\ t = createdTask e db userId b u.
Proof.
  intros Hn Hs. destruct r; simpl in Hs.
  - destruct (Users db !! cb_assignedTo b) as [u|] eqn:Hu.
    + rewrite (createTask_eq _ _ _ _ _ Hu) in Hs.
      destruct (validCreate b); simpl in Hs; [|congruence].
      destruct (decide (fresh (dom (Tasks db)) = i)) as [<-|Hne].
      * rewrite lookup_insert_eq in Hs. injection Hs as <-. now exists userId, b, u.
      * rewrite lookup_insert_ne in Hs by exact Hne. congruence.
    + unfold createTask in Hs. rewrite Hu in Hs. simpl in Hs. congruence.
  - exfalso. destruct (findOne db id userId) as [d|] eqn:Hf.
    + apply findOne_Some in Hf as (t0 & Hr & _).
      rewrite (updateTask_eq _ _ _ _ _ _ Hr) in Hs.
      destruct (reverts b t0); simpl in Hs; [congruence|].
      destruct (passes e userId b t0); simpl in Hs; [|congruence].
      rewrite (write_existing _ _ _ _ _ _ Hr Hn) in Hs. discriminate.
    + unfold updateTask in Hs. rewrite Hf in Hs. simpl in Hs. congruence.
  - exfalso. destruct (findOne db id userId) as [d|] eqn:Hf.
    + apply findOne_Some in Hf as (t0 & Hr & _).
      rewrite (deleteTask_eq _ _ _ _ _ Hr) in Hs. simpl in Hs.
      rewrite (write_existing _ _ _ _ _ _ Hr Hn) in Hs. discriminate.
    + unfold deleteTask in Hs. rewrite Hf in Hs. simpl in Hs. congruence.
  - exfalso. destruct (findOne db id userId) as [d|] eqn:Hf.
    + apply findOne_Some in Hf as (t0 & Hr & _).
      rewrite (addComment_eq _ _ _ _ _ _ Hr) in Hs.
      destruct (validComment text); simpl in Hs; [|congruence].
      rewrite (write_existing _ _ _ _ _ _ Hr Hn) in Hs. discriminate.
    + unfold addComment in Hs. rewrite Hf in Hs. simpl in Hs. congruence.
  - exfalso. destruct (findOne db id userId) as [d|] eqn:Hf.
    + apply findOne_Some in Hf as (t0 & Hr & _). destruct file as [f|].
      * rewrite (addAttachment_eq _ _ _ _ _ _ Hr) in Hs.
        destruct (validFile f); simpl in Hs; [|congruence].
        rewrite (write_existing _ _ _ _ _ _ Hr Hn) in Hs. discriminate.
      * unfold addAttachment in Hs. rewrite (findOne_reaches _ _ _ _ Hr) in Hs.
        simpl in Hs. congruence.
    + unfold addAttachment in Hs. rewrite Hf in Hs. simpl in Hs. congruence.
  - exfalso. destruct (findOne db id userId) as [d|] eqn:Hf.
    + apply findOne_Some in Hf as (t0 & Hr & _).
      rewrite (removeAttachment_eq _ _ _ _ _ _ Hr) in Hs.
      destruct (attachmentById attachmentId (attachments t0)); simpl in Hs.
      * rewrite (write_existing _ _ _ _ _ _ Hr Hn) in Hs. discriminate.
      * congruence.
    + unfold removeAttachment in Hs. rewrite Hf in Hs. simpl in Hs. congruence.
  - exfalso.
    destruct (deleteUser_tasks_open e db userId params_id reassignTo i)
      as [E|(? & t0 & _ & _ & _ & Hl0 & _)]; congruence.
Qed.

Lemma createdTask_consistent e db userId b u : consistent (createdTask e db userId b u).
Proof.
  unfold consistent. simpl. split; [discriminate|]. intros [? ?]. discriminate.
Qed.

Lemma handle_consistent e db r :
  (forall i t, Tasks db !! i = Some t -> consistent t) ->
  forall i t, Tasks (handle e db r).2 !! i = Some t -> consistent t.
Proof.
  intros Hall i t Hs. destruct (Tasks db !! i) as [t0|] eqn:Hl.
  - destruct (handle_after e db r i t0 Hl) as (t' & Hl' & Ha).
    assert (t' = t) by congruence. subst t'.
    eapply after_consistent; [exact Ha|]. now apply (Hall i).
  - destruct (handle_new e db r i t Hl Hs) as (userId & b & u & _ & _ & _ & ->).
    apply createdTask_consistent.
Qed.

(** X6.  The completion date follows the status.  If in the store every task has
    [completedAt] set exactly when its status is Completed -- as in the
    empty store --, then this still holds after any run of requests, for the
    tasks that were there and for the ones the run created. *)
Theorem completedAt_iff_completed
    (rs : list (Env * Request)) (db : Db)
    (Hinit : forall i t, Tasks db !! i = Some t -> consistent t) :
  forall i t, Tasks (run db rs) !! i = Some t ->
    (status t = Completed <-> is_Some (completedAt t)).
Proof.
  revert db Hinit. induction rs as [|[e r] rest IH]; intros db Hinit; simpl.
  - exact Hinit.
  - apply IH. now apply handle_consistent.
Qed.

(** ** createTask *)



(** ** addComment *)

Lemma storableComment_valid text : storableComment text -> validComment text = true.
Proof.
  intros [Hne Hlen]. unfold validComment, truthy.
  rewrite bool_decide_eq_false_2 by exact Hne. now apply Nat.leb_le.
Qed.

Lemma storableFile_valid f : storableFile f -> validFile f = true.
Proof.
  intros [H1 H2]. unfold validFile, truthy.
  now rewrite !bool_decide_eq_false_2.
Qed.

(** X8.  For a task the requester reaches and a text the schema accepts (not
    empty, at most 2000 characters), [addComment] answers 200 with the
    updated task and pushes it as TASK_UPDATED: the comment (author, text,
    time of the request) is the new last comment, one 'comment_added' entry
    is the new last audit entry, and no other field of the task, no other
    task and no user is changed. *)
Theorem addComment_appends
    (e : Env) (db : Db) (userId id : ObjectId) (text : string) (t : Task)
    (Hreach : reaches db userId id t)
    (Hvalid : storableComment text) :
  exists t',
    addComment e db userId id text
    = (json 200 true (BodyTask (Some t')),
       push e userId TASK_UPDATED id (Some t'),
       with_Tasks (<[id := t']> (Tasks db)) db)
    /\ comments t'
       = comments t ++ [{| comment_user := userId; comment_text := text;
                           comment_createdAt := now e |}]
    /\ auditHistory t'
       = auditHistory t
         ++ [{| audit_user := userId; audit_action := comment_added;
                audit_field := None; audit_oldValue := MUndefined;
                audit_newValue := MUndefined;
                audit_description := Some "Added a comment";
                audit_timestamp := now e |}]
    /\ set_comments (comments t) (set_auditHistory (auditHistory t) t') = t.
Proof.
  exists (commented e userId text t).
  rewrite (addComment_eq _ _ _ _ _ _ Hreach), (storableComment_valid _ Hvalid).
  destruct Hreach as (_ & -> & _).
  split; [reflexivity|]. split; [reflexivity|]. split; [reflexivity|].
  now destruct t.
Qed.

(** ** Attachments *)

Lemma attachmentById_app_fresh x l a :
  (forall a0, a0 ∈ l -> att_id a0 <> x) -> att_id a = x ->
  attachmentById x (l ++ [a]) = Some a.
Proof.
  intros Hf Ha. unfold attachmentById. induction l as [|a0 l IH]; simpl.
  - now rewrite bool_decide_eq_true_2.
  - rewrite bool_decide_eq_false_2 by (apply Hf; now left).
    apply IH. intros a1 H1. apply Hf. now right.
Qed.

Lemma pull_app_fresh x l a :
  (forall a0, a0 ∈ l -> att_id a0 <> x) -> att_id a = x ->
  pull x (l ++ [a]) = l.
Proof.
  intros Hf Ha. unfold pull. rewrite List.filter_app. simpl.
  rewrite (bool_decide_eq_true_2 _ Ha). simpl. rewrite app_nil_r.
  induction l as [|a0 l IH]; simpl; [reflexivity|].
  rewrite bool_decide_eq_false_2 by (apply Hf; now left). simpl.
  f_equal. apply IH. intros a1 H1. apply Hf. now right.
Qed.

Lemma attachmentById_pull_eq x l : attachmentById x (pull x l) = None.
Proof.
  unfold attachmentById, pull. induction l as [|a l IH]; simpl; [reflexivity|].
  case_bool_decide as Ha; simpl; [exact IH|].
  now rewrite bool_decide_eq_false_2.
Qed.

Lemma attachmentById_pull_ne x y l :
  y <> x -> attachmentById y (pull x l) = attachmentById y l.
Proof.
  intros Hne. unfold attachmentById, pull. induction l as [|a l IH]; simpl; [reflexivity|].
  case_bool_decide as Ha; simpl.
  - rewrite bool_decide_eq_false_2 by congruence. exact IH.
  - now rewrite IH.
Qed.

(** X9.  Adding a file and removing it again is a round trip on the attachments.
    For a reachable task, an uploaded file with its two names, and an
    attachment id that the task does not use yet, [addAttachment] followed by [removeAttachment] of that id leaves
    the list of attachments as it was before; the audit history has grown by
    exactly two entries, 'attachment_added' and 'attachment_removed', both
    naming the original file name; and the removal unlinks the stored file
    before it pushes the updated task. *)
Theorem attachment_add_then_remove
    (e1 e2 : Env) (db : Db) (userId id : ObjectId) (f : File) (t : Task)
    (Hreach : reaches db userId id t)
    (Hfile : storableFile f)
    (Hfresh : forall a, a ∈ attachments t -> att_id a <> oid e1) :
  let db1 := (addAttachment e1 db userId id (Some f)).2 in
  let r := removeAttachment e2 db1 userId id (oid e1) in
  exists t2,
    r = (json 200 true (BodyTask (Some t2)),
         Unlink (f_filename f) :: push e2 userId TASK_UPDATED id (Some t2),
         with_Tasks (<[id := t2]> (Tasks db)) db)
    /\ attachments t2 = attachments t
    /\ auditHistory t2
       = auditHistory t
         ++ [mkAudit e1 userId attachment_added
               (describe ("Added attachment: " +:+ f_originalname f));
             mkAudit e2 userId attachment_removed
               (describe ("Removed attachment: " +:+ f_originalname f))]
    /\ set_auditHistory (auditHistory t) t2 = t.
Proof.
  intros db1 r. subst db1 r.
  rewrite (addAttachment_eq _ _ _ _ _ _ Hreach), (storableFile_valid _ Hfile). cbn [snd].
  assert (Hr1 : reaches (with_Tasks (<[id := attached e1 userId f t]> (Tasks db)) db)
                  userId id (attached e1 userId f t)).
  { destruct Hreach as (_ & Ha & Hd). split; [simpl; apply lookup_insert_eq|]. now split. }
  rewrite (removeAttachment_eq _ _ _ _ _ _ Hr1).
  change (attachments (attached e1 userId f t))
    with (attachments t ++ [newAttachment e1 userId f]).
  rewrite (attachmentById_app_fresh (oid e1) (attachments t) (newAttachment e1 userId f)
             Hfresh eq_refl).
  exists (detached e2 userId (oid e1) (newAttachment e1 userId f) (attached e1 userId f t)).
  destruct Hreach as (_ & Ha & _).
  split.
  - cbn [with_Tasks Tasks Users]. rewrite insert_insert_eq.
    change (assignedTo (attached e1 userId f t)) with (assignedTo t). rewrite Ha.
    reflexivity.
  - assert (Hp : attachments (detached e2 userId (oid e1) (newAttachment e1 userId f)
                                (attached e1 userId f t)) = attachments t).
    { change (pull (oid e1) (attachments t ++ [newAttachment e1 userId f]) = attachments t).
      now apply pull_app_fresh. }
    split; [exact Hp|]. split.
    + simpl. now rewrite <- app_assoc.
    + destruct t. unfold detached, attached in *. simpl in *. now rewrite Hp.
Qed.

(** X10.  Removing an attachment is final.  After [removeAttachment] has found and
    removed the attachment [a] of a reachable task -- unlinking its file --,
    a download of [a] and a second removal are both answered 404 'Attachment
    not found', the second removal unlinks nothing, and every other
    attachment of the task is served as before. *)
Theorem removed_attachment_is_gone
    (e : Env) (db : Db) (userId id a : ObjectId) (t : Task) (att : Attachment)
    (Hreach : reaches db userId id t)
    (Hfound : attachmentById a (attachments t) = Some att) :
  let r := removeAttachment e db userId id a in
  (exists t', r.1.1 = json 200 true (BodyTask (Some t'))
              /\ Tasks r.2 !! id = Some t'
              /\ attachments t' = pull a (attachments t))
  /\ Unlink (att_filename att) ∈ r.1.2
  /\ (forall p, downloadAttachment p r.2 userId id a
                = answered (json 404 false (BodyMessage "Attachment not found")))
  /\ (forall e', removeAttachment e' r.2 userId id a
                 = (json 404 false (BodyMessage "Attachment not found"), [], r.2))
  /\ (forall p a', a' <> a ->
        downloadAttachment p r.2 userId id a' = downloadAttachment p db userId id a').
Proof.
  intros r. subst r. rewrite (removeAttachment_eq _ _ _ _ _ _ Hreach), Hfound.
  cbn [fst snd].
  assert (Hr1 : reaches (with_Tasks (<[id := detached e userId a att t]> (Tasks db)) db)
                  userId id (detached e userId a att t)).
  { destruct Hreach as (_ & Ha & Hd). split; [simpl; apply lookup_insert_eq|]. now split. }
  split; [|split; [now left|split; [|split]]].
  - eexists. split; [reflexivity|]. split; [simpl; apply lookup_insert_eq|reflexivity].
  - intros p. unfold downloadAttachment. rewrite (findOne_reaches _ _ _ _ Hr1).
    cbn [init fields].
    change (attachments (detached e userId a att t)) with (pull a (attachments t)).
    now rewrite attachmentById_pull_eq.
  - intros e'. rewrite (removeAttachment_eq _ _ _ _ _ _ Hr1).
    change (attachments (detached e userId a att t)) with (pull a (attachments t)).
    now rewrite attachmentById_pull_eq.
  - intros p a' Hne. unfold downloadAttachment.
    rewrite (findOne_reaches _ _ _ _ Hr1), (findOne_reaches _ _ _ _ Hreach).
    cbn [init fields].
    change (attachments (detached e userId a att t)) with (pull a (attachments t)).
    now rewrite attachmentById_pull_ne.
Qed.

(** ** The task list *)

Section QueryFacts.

Variable regexMatch : string -> string -> bool.
Variable sortBy : string -> Z -> list (ObjectId * Task) -> list (ObjectId * Task).

(** Ordering the documents neither adds nor drops one. *)
Hypothesis sortBy_perm : forall field order l, sortBy field order l ≡ₚ l.





End QueryFacts.

(** ** Deleting a user *)

Lemma push_length e u ty i t : length (push e u ty i t) = if wss e then 1 else 0.
Proof. unfold push. now destruct (wss e). Qed.


Lemma find_length db id : length (find db id) = countDocuments db id.
Proof. unfold find, countDocuments. rewrite length_fmap. apply length_map_to_list. Qed.

(** The ways [deleteUser] ends for a parameter that casts to the id [id]. *)
Lemma deleteUser_cases e db userId params_id id reassignTo :
  castObjectId params_id = Some id ->
  let r := deleteUser e db userId params_id reassignTo in
  (r.1.1 = userDeleted (countDocuments db id)
   /\ Users r.2 = delete id (Users db) /\ is_Some (Users db !! id)
   /\ params_id <> idString userId
   /\ (0 < countDocuments db id ->
       exists target, reassignTo = Some target /\ is_Some (Users db !! target))
   /\ (countDocuments db id = 0 -> Tasks r.2 = Tasks db /\ r.1.2 = []))
  \/ (r = (selfDeletion, [], db) /\ params_id = idString userId)
  \/ (r = (json 404 false (BodyMessage "User not found"), [], db)
      /\ Users db !! id = None)
  \/ (r = (needsReassign (countDocuments db id), [], db)
      /\ 0 < countDocuments db id /\ reassignTo = None)
  \/ (r = (json 404 false (BodyMessage "Reassign target user not found"), [], db)
      /\ 0 < countDocuments db id
      /\ exists target, reassignTo = Some target /\ Users db !! target = None).
Proof.
  intros Hcast r. subst r. unfold deleteUser.
  case_bool_decide as Hid; [right; left; now split|]. rewrite Hcast.
  destruct (Users db !! id) as [user|] eqn:Hu; [|right; right; left; now split].
  destruct (Nat.ltb_spec 0 (countDocuments db id)) as [Hpos|Hzero].
  - destruct reassignTo as [target|]; [|right; right; right; left; now split].
    destruct (Users db !! target) as [reassignUser|] eqn:Ht.
    + left.
      destruct (reassignAll_writes e userId target
                  (reassignedDescription user reassignUser) (find db id) db
                  (find_unmodified db id)) as (effs & db' & -> & Hu' & Ht').
      cbn [fst snd]. split; [reflexivity|]. split; [simpl; now rewrite Hu'|].
      split; [eauto|]. split; [exact Hid|]. split; [|lia].
      intros _. exists target. split; [reflexivity|]. rewrite Ht. eauto.
    + right; right; right; right. split; [reflexivity|]. split; [exact Hpos|].
      now exists target.
  - left. cbn [fst snd]. assert (Hz : countDocuments db id = 0) by lia.
    rewrite Hz. split; [reflexivity|]. split; [reflexivity|]. split; [eauto|].
    split; [exact Hid|]. split; [lia|]. now split.
Qed.

(** A parameter that does not cast: the first query throws. *)
Lemma deleteUser_uncast e db userId params_id reassignTo :
  castObjectId params_id = None ->
  deleteUser e db userId params_id reassignTo = (selfDeletion, [], db)
  \/ deleteUser e db userId params_id reassignTo = (next CastError, [], db).
Proof.
  intros Hcast. unfold deleteUser. rewrite Hcast.
  case_bool_decide; [now left|now right].
Qed.

(** X12.  [deleteUser] is all or nothing.  For a parameter that casts to the
    id [id], either the request is answered 200 'User deleted successfully'
    with the number of tasks it reassigned, and then the user [id] is
    removed, the parameter is not the requester's own id string, and -- if
    the user had open tasks -- reassignTo named an existing user; or it is
    answered 400 or 404, and then the store is exactly the one before the
    request and nothing was pushed: a refused deletion reassigns no task.  A
    user without open tasks is deleted whatever reassignTo says, and no task
    is touched.  (The user removed may be the requester, under another
    spelling of the id: the first disjunct does not say [id <> userId].) *)
Theorem deleteUser_all_or_nothing
    (e : Env) (db : Db) (userId : ObjectId) (params_id : string) (id : ObjectId)
    (reassignTo : option ObjectId)
    (Hid : castObjectId params_id = Some id) :
  let r := deleteUser e db userId params_id reassignTo in
  (r.1.1 = userDeleted (countDocuments db id)
   /\ Users r.2 = delete id (Users db) /\ is_Some (Users db !! id)
   /\ params_id <> idString userId
   /\ (0 < countDocuments db id ->
       exists target, reassignTo = Some target /\ is_Some (Users db !! target))
   /\ (countDocuments db id = 0 -> Tasks r.2 = Tasks db /\ r.1.2 = []))
  \/ (r.2 = db /\ r.1.2 = []
      /\ exists code body, r.1.1 = json code false body /\ (code = 400 \/ code = 404)).
Proof.
  intros r. subst r.
  destruct (deleteUser_cases e db userId params_id id reassignTo Hid)
    as [H|[[-> _]|[[-> _]|[[-> _]|[-> _]]]]]; [now left|right..];
    (split; [reflexivity|]); (split; [reflexivity|]); eexists _, _;
    (split; [reflexivity|]); auto.
Qed.




(** X14.  reassignTo is not checked against the user being deleted.  When it names
    that very user, the request still succeeds: every open task is
    "reassigned" to the user, who is then removed, so the task stays open
    and assigned to a user that no longer exists. *)
Theorem deleteUser_reassign_to_self_dangles
    (e : Env) (db : Db) (userId : ObjectId) (params_id : string) (id : ObjectId)
    (user : User) (i : ObjectId) (t : Task)
    (Hother : params_id <> idString userId)
    (Hid : castObjectId params_id = Some id)
    (Huser : Users db !! id = Some user)
    (Hstored : Tasks db !! i = Some t)
    (Hopen : assignedTo t = id /\ isDeleted t = false) :
  let r := deleteUser e db userId params_id (Some id) in
  r.1.1 = userDeleted (countDocuments db id)
  /\ Users r.2 !! id = None
  /\ getUser r.2 id = userError 404 false "User not found"
  /\ exists t', Tasks r.2 !! i = Some t' /\ assignedTo t' = id /\ isDeleted t' = false.
Proof.
  intros r.
  assert (Hpos : 0 < countDocuments db id)
    by (eapply countDocuments_pos; [exact Hstored|exact Hopen]).
  destruct (deleteUser_reassigns e db userId params_id id id user user
              Hother Hid Huser Huser Hpos) as (effs & db' & Heq & Hu & Hl).
  subst r. rewrite Heq. cbn [fst snd]. split; [reflexivity|].
  split; [rewrite Hu; apply lookup_delete_eq|].
  split; [unfold getUser; now rewrite Hu, lookup_delete_eq|].
  rewrite Hl, Hstored. simpl. rewrite decide_True by exact Hopen.
  eexists. split; [reflexivity|]. split; [reflexivity|]. apply Hopen.
Qed.

(** X15.  A deleted user is gone for the user endpoints, and only that user.
    After a request that [deleteUser] answered with success, [getUser]
    answers 404 'User not found' for the id, answers for every other id what
    it answered before, and [getUsers] counts one user less. *)
Theorem deleted_user_is_gone
    (e : Env) (db : Db) (userId : ObjectId) (params_id : string) (id : ObjectId)
    (reassignTo : option ObjectId) (n : nat)
    (Hid : castObjectId params_id = Some id)
    (Hok : (deleteUser e db userId params_id reassignTo).1.1 = userDeleted n) :
  let db' := (deleteUser e db userId params_id reassignTo).2 in
  getUser db' id = userError 404 false "User not found"
  /\ (forall u, u <> id -> getUser db' u = getUser db u)
  /\ (exists k users users',
        getUsers db = usersJson 200 true (S k) users
        /\ getUsers db' = usersJson 200 true k users'
        /\ forall u x, (u, x) ∈ users' <-> u <> id /\ (u, x) ∈ users).
Proof.
  intros db'. subst db'.
  destruct (deleteUser_cases e db userId params_id id reassignTo Hid)
    as [(_ & Hu & [user Hl] & _)|[[E _]|[[E _]|[[E _]|[E _]]]]];
    try (rewrite E in Hok; discriminate Hok).
  unfold getUser, getUsers. rewrite Hu. split; [now rewrite lookup_delete_eq|].
  split; [intros u Hne; now rewrite lookup_delete_ne|].
  exists (size (delete id (Users db))), (map_to_list (Users db)),
    (map_to_list (delete id (Users db))).
  split; [|split].
  - f_equal. rewrite length_map_to_list.
    rewrite <- (insert_delete_id (Users db) id user Hl) at 1.
    rewrite map_size_insert_None by apply lookup_delete_eq. reflexivity.
  - f_equal. apply length_map_to_list.
  - intros u x. rewrite !elem_of_map_to_list. split.
    + intros Hd. destruct (decide (u = id)) as [->|Hne].
      * rewrite lookup_delete_eq in Hd. discriminate.
      * rewrite lookup_delete_ne in Hd by congruence. now split.
    + intros [Hne Hd]. now rewrite lookup_delete_ne by congruence.
Qed.

(** ** Repeating an update *)






(** ** The error path *)

(** X17.  The pre-save hook never stops a request.  Whatever the request and the
    store, no handler ends by passing the hook's 'Cannot revert status from
    Completed' error to [next]: [updateTask] refuses such an update itself,
    before it saves, and no other handler assigns [status]. *)
Theorem presave_refusal_is_unreachable (e : Env) (db : Db) (r : Request) :
  (handle e db r).1.1 <> next CannotRevert.
Proof.
  assert (H : (exists code success body, (handle e db r).1.1 = json code success body)
              \/ (handle e db r).1.1 = next ValidationError
              \/ (handle e db r).1.1 = next CastError).
  { destruct r; simpl.
    - destruct (Users db !! cb_assignedTo b) as [u|] eqn:Hu.
      + rewrite (createTask_eq _ _ _ _ _ Hu).
        destruct (validCreate b); simpl; eauto 6.
      + unfold createTask. rewrite Hu. simpl. eauto 6.
    - destruct (findOne db id userId) as [d|] eqn:Hf.
      + apply findOne_Some in Hf as (t0 & Hr & _).
        rewrite (updateTask_eq _ _ _ _ _ _ Hr).
        destruct (reverts b t0); [simpl; unfold invalidTransition; eauto 6|].
        destruct (passes e userId b t0); simpl; eauto 6.
      + unfold updateTask. rewrite Hf. simpl. unfold notFound. eauto 6.
    - destruct (findOne db id userId) as [d|] eqn:Hf.
      + apply findOne_Some in Hf as (t0 & Hr & _).
        rewrite (deleteTask_eq _ _ _ _ _ Hr). simpl. eauto 6.
      + unfold deleteTask. rewrite Hf. simpl. unfold notFound. eauto 6.
    - destruct (findOne db id userId) as [d|] eqn:Hf.
      + apply findOne_Some in Hf as (t0 & Hr & _).
        rewrite (addComment_eq _ _ _ _ _ _ Hr).
        destruct (validComment text); simpl; eauto 6.
      + unfold addComment. rewrite Hf. simpl. unfold notFound. eauto 6.
    - destruct (findOne db id userId) as [d|] eqn:Hf.
      + apply findOne_Some in Hf as (t0 & Hr & _). destruct file as [f|].
        * rewrite (addAttachment_eq _ _ _ _ _ _ Hr).
          destruct (validFile f); simpl; eauto 6.
        * unfold addAttachment. rewrite (findOne_reaches _ _ _ _ Hr). simpl. eauto 6.
      + unfold addAttachment. rewrite Hf. simpl. unfold notFound. eauto 6.
    - destruct (findOne db id userId) as [d|] eqn:Hf.
      + apply findOne_Some in Hf as (t0 & Hr & _).
        rewrite (removeAttachment_eq _ _ _ _ _ _ Hr).
        destruct (attachmentById attachmentId (attachments t0)); simpl; eauto 6.
      + unfold removeAttachment. rewrite Hf. simpl. unfold notFound. eauto 6.
    - destruct (castObjectId params_id) as [id|] eqn:Hcast.
      + destruct (deleteUser_cases e db userId params_id id reassignTo Hcast)
          as [(E & _)|[[E _]|[[E _]|[[E _]|[E _]]]]]; rewrite E; simpl;
          unfold userDeleted, selfDeletion, needsReassign; eauto 6.
      + destruct (deleteUser_uncast e db userId params_id reassignTo Hcast) as [E|E];
          rewrite E; simpl; unfold selfDeletion; eauto 6. }
  intros E. destruct H as [(c & s & b & H)|[H|H]]; congruence.
Qed.

(** * Examples: the theorems above at concrete requests *)

Lemma completed_update_rejected_atomically_witness :
  updateTask (Sample.env 7) Sample.db 1 11
    {| b_title := Some "New title"; b_description := None; b_dueDate := None;
       b_priority := Some High; b_tags := Some ["x"]; b_status := Some InProgress |}
  = (invalidTransition, [], Sample.db)
  /\ Tasks (updateTask (Sample.env 7) Sample.db 1 11
             {| b_title := Some "New title"; b_description := None; b_dueDate := None;
                b_priority := Some High; b_tags := Some ["x"];
                b_status := Some InProgress |}).2 !! 11
     = Some (Sample.task 1 Completed (Some 40%Z)).
Proof.
  apply (completed_update_rejected_atomically (Sample.env 7) Sample.db 1 11 _
           (Sample.task 1 Completed (Some 40%Z)) InProgress).
  - repeat split.
  - reflexivity.
  - reflexivity.
  - discriminate.
Defined.

(** * Properties of the push registry *)

Section RegistryFacts.

Import Registry.

Context {Message : Type}.
Variable stringify : Message -> string.
Variable connectedMsg : ObjectId -> Message.
Variable pongMsg : Message.

Local Abbreviation Out := (Registry.Out (Message := Message)).
Local Abbreviation step := (Registry.step stringify connectedMsg pongMsg).
Local Abbreviation run := (Registry.run stringify connectedMsg pongMsg).
Local Abbreviation exec := (Registry.exec stringify connectedMsg pongMsg).
Local Abbreviation heartbeat := (Registry.heartbeat (Message := Message)).
Local Abbreviation sweepOne := (Registry.sweepOne (Message := Message)).
Local Abbreviation handleConnection := (Registry.handleConnection (Message := Message)).
Local Abbreviation resumeConnection := (Registry.resumeConnection stringify connectedMsg).
Local Abbreviation broadcastToUser := (Registry.broadcastToUser stringify).
Local Abbreviation probe := (Registry.probe (Message := Message)).
Local Abbreviation serializations := (Registry.serializations (Message := Message)).
Local Abbreviation deliveries := (Registry.deliveries (Message := Message)).

(** ** Sets of sockets *)

Lemma elem_of_setDelete ws c (s : list ConnId) :
  c ∈ setDelete ws s <-> c <> ws /\ c ∈ s.
Proof. unfold setDelete. now rewrite list_elem_of_filter. Qed.

Lemma NoDup_setDelete ws (s : list ConnId) : NoDup s -> NoDup (setDelete ws s).
Proof. apply NoDup_filter. Qed.

Lemma elem_of_setAdd ws c (s : list ConnId) :
  c ∈ setAdd ws s <-> c = ws \/ c ∈ s.
Proof.
  unfold setAdd. case_bool_decide as H.
  - split; [now right|]. intros [->|?]; assumption.
  - rewrite elem_of_app, list_elem_of_singleton. tauto.
Qed.

Lemma NoDup_setAdd ws (s : list ConnId) : NoDup s -> NoDup (setAdd ws s).
Proof.
  intros H. unfold setAdd. case_bool_decide as Hin; [exact H|].
  apply NoDup_app. split; [exact H|]. split.
  - intros x Hx Hx'. apply list_elem_of_singleton in Hx'. now subst.
  - apply NoDup_singleton.
Qed.

Lemma setAdd_nonempty ws (s : list ConnId) : setAdd ws s <> [].
Proof.
  intros H. assert (Hin : ws ∈ setAdd ws s) by (apply elem_of_setAdd; now left).
  rewrite H in Hin. inversion Hin.
Qed.

(** ** The registry invariant *)

Lemma wf_noEmptySet st : wf st -> noEmptySet st.
Proof. intros (_ & _ & H & _) u conns Hu. now destruct (H u conns Hu). Qed.

Lemma wf_empty : wf Registry.empty.
Proof.
  split; [apply NoDup_nil_2|]. split; [|split].
  - intros c Hc. inversion Hc.
  - intros u conns Hu. simpl in Hu. rewrite lookup_empty in Hu. discriminate.
  - intros c u Hu. simpl in Hu. rewrite lookup_empty in Hu. discriminate.
Qed.

Lemma newSocket_fresh st : socks st !! newSocket st = None.
Proof. unfold newSocket. apply not_elem_of_dom, is_fresh. Qed.

Lemma wf_newSocket_untracked st : wf st -> newSocket st ∉ wssClients st.
Proof.
  intros (_ & H & _) Hin. destruct (H _ Hin) as [s Hs].
  rewrite newSocket_fresh in Hs. discriminate.
Qed.

Lemma wf_newSocket_idle st : wf st -> awaiting st !! newSocket st = None.
Proof.
  intros (_ & _ & _ & H). destruct (awaiting st !! newSocket st) as [u|] eqn:E;
    [|reflexivity].
  destruct (H _ _ E) as (s & Hs & _). rewrite newSocket_fresh in Hs. discriminate.
Qed.

(** Changing the flag or the state of one known socket keeps [wf]. *)
Lemma wf_update_socket st ws s s' :
  wf st -> socks st !! ws = Some s -> ws_userId s' = ws_userId s ->
  wf {| socks := <[ws := s']> (socks st); clients := clients st;
        wssClients := wssClients st; awaiting := awaiting st |}.
Proof.
  intros (Hnd & Hk & Hr & Ha) Hs Hu. split; [exact Hnd|]. split; [|split]; simpl.
  - intros c Hc. destruct (decide (ws = c)) as [->|Hne].
    + rewrite lookup_insert_eq. eauto.
    + rewrite lookup_insert_ne by exact Hne. now apply Hk.
  - intros u conns Hc. destruct (Hr u conns Hc) as (Hne & Hnd' & Hin).
    split; [exact Hne|]. split; [exact Hnd'|].
    intros c Hcin. destruct (Hin c Hcin) as (s0 & Hs0 & Hu0).
    destruct (decide (ws = c)) as [->|Hn].
    + rewrite lookup_insert_eq. exists s'. split; [reflexivity|]. congruence.
    + rewrite lookup_insert_ne by exact Hn. now exists s0.
  - intros c u Hc. destruct (Ha c u Hc) as (s0 & Hs0 & Hu0).
    destruct (decide (ws = c)) as [->|Hn].
    + rewrite lookup_insert_eq. exists s'. split; [reflexivity|]. congruence.
    + rewrite lookup_insert_ne by exact Hn. now exists s0.
Qed.

Lemma wf_handleDisconnection st ws : wf st -> wf (handleDisconnection st ws).
Proof.
  intros Hwf. unfold handleDisconnection.
  destruct (socks st !! ws) as [s|] eqn:Hs; [|exact Hwf].
  destruct (ws_userId s) as [u|] eqn:Hu; [|exact Hwf].
  destruct (clients st !! u) as [conns|] eqn:Hc; [|exact Hwf].
  destruct Hwf as (Hnd & Hk & Hr & Ha).
  split; [exact Hnd|]. split; [exact Hk|]. split; [|exact Ha]. simpl.
  intros u' conns' Hl.
  destruct (decide (u = u')) as [<-|Hne].
  - destruct (Nat.eqb_spec (length (setDelete ws conns)) 0) as [H0|H0].
    + rewrite lookup_delete_eq in Hl. discriminate.
    + rewrite lookup_insert_eq in Hl. injection Hl as <-.
      destruct (Hr u conns Hc) as (_ & Hnd' & Hin).
      split; [intros E; rewrite E in H0; now apply H0|].
      split; [now apply NoDup_setDelete|].
      intros c [_ Hcin]%elem_of_setDelete. now apply Hin.
  - assert (Hl' : clients st !! u' = Some conns').
    { destruct (length (setDelete ws conns) =? 0).
      - now rewrite lookup_delete_ne in Hl.
      - now rewrite lookup_insert_ne in Hl. }
    now apply Hr.
Qed.

Lemma wf_handleConnection st h : wf st -> wf (handleConnection st h).2.
Proof.
  intros Hwf. pose proof (wf_newSocket_untracked st Hwf) as Hnew.
  pose proof (newSocket_fresh st) as Hfresh.
  destruct Hwf as (Hnd & Hk & Hr & Ha).
  assert (Hnd' : NoDup (wssClients st ++ [newSocket st])).
  { apply NoDup_app. split; [exact Hnd|]. split; [|apply NoDup_singleton].
    intros x Hx Hx'. apply list_elem_of_singleton in Hx'. now subst. }
  assert (Hk' : forall s0 c, c ∈ wssClients st ++ [newSocket st] ->
                  is_Some (<[newSocket st := s0]> (socks st) !! c)).
  { intros s0 c [Hc|Hc]%elem_of_app.
    - destruct (decide (newSocket st = c)) as [<-|Hne]; [contradiction|].
      rewrite lookup_insert_ne by exact Hne. now apply Hk.
    - apply list_elem_of_singleton in Hc. subst c. rewrite lookup_insert_eq. eauto. }
  assert (Hold : forall s0 u conns, clients st !! u = Some conns ->
            conns <> [] /\ NoDup conns
            /\ forall c, c ∈ conns ->
                 exists s, <[newSocket st := s0]> (socks st) !! c = Some s
                           /\ ws_userId s = Some u).
  { intros s0 u conns Hc. destruct (Hr u conns Hc) as (Hne & Hnd0 & Hin).
    split; [exact Hne|]. split; [exact Hnd0|].
    intros c Hcin. destruct (Hin c Hcin) as (s & Hs & Hu).
    exists s. split; [|exact Hu].
    rewrite lookup_insert_ne; [exact Hs|]. intros E. rewrite <- E in Hs. congruence. }
  assert (Hwait : forall s0 c u, awaiting st !! c = Some u ->
            exists s, <[newSocket st := s0]> (socks st) !! c = Some s
                      /\ ws_userId s = None).
  { intros s0 c u Hc. destruct (Ha c u Hc) as (s & Hs & Hu).
    exists s. split; [|exact Hu].
    rewrite lookup_insert_ne; [exact Hs|]. intros E. rewrite <- E in Hs. congruence. }
  destruct h; unfold Registry.handleConnection;
    cbn [snd Registry.socks Registry.clients Registry.wssClients Registry.awaiting];
    (split; [exact Hnd'|]); (split; [apply Hk'|]);
    (split; [apply Hold|]); try apply Hwait.
  intros c u Hc. cbn [Registry.socks Registry.awaiting] in *.
  destruct (decide (newSocket st = c)) as [<-|Hne].
  - eexists. split; [apply lookup_insert_eq|reflexivity].
  - rewrite lookup_insert_ne in Hc by exact Hne.
    destruct (Ha c u Hc) as (s & Hs & Hu). exists s. split; [|exact Hu].
    now rewrite lookup_insert_ne by exact Hne.
Qed.

(** A lookup that has settled is no longer awaited. *)
Lemma wf_settle st ws :
  wf st ->
  wf {| socks := socks st; clients := clients st; wssClients := wssClients st;
        awaiting := delete ws (awaiting st) |}.
Proof.
  intros (Hnd & Hk & Hr & Ha).
  split; [exact Hnd|]. split; [exact Hk|]. split; [exact Hr|]. simpl.
  intros c u0 Hc. apply lookup_delete_Some in Hc as [_ Hc]. now apply (Ha c u0).
Qed.

Lemma wf_resumeConnection st ws r : wf st -> wf (resumeConnection st ws r).2.
Proof.
  intros Hwf. unfold resumeConnection.
  destruct (awaiting st !! ws) as [u|] eqn:Hw; [|exact Hwf].
  destruct (socks st !! ws) as [s|] eqn:Hs; [|exact Hwf].
  assert (Hrej : wf {| socks := <[ws := closing s]> (socks st);
                       clients := clients st; wssClients := wssClients st;
                       awaiting := delete ws (awaiting st) |}).
  { pose proof (wf_update_socket st ws s (closing s) Hwf Hs eq_refl) as H1.
    apply (wf_settle _ ws) in H1. exact H1. }
  destruct r; simpl; try exact Hrej.
  destruct Hwf as (Hnd & Hk & Hr & Ha).
  destruct (Ha ws u Hw) as (s0 & Hs0 & Hnone).
  assert (s0 = s) by congruence. subst s0.
  split; [exact Hnd|]. split; [|split]; simpl.
  - intros c Hc. destruct (decide (ws = c)) as [->|Hne].
    + rewrite lookup_insert_eq. eauto.
    + rewrite lookup_insert_ne by exact Hne. now apply Hk.
  - intros u' conns Hc. destruct (decide (u = u')) as [<-|Hne].
    + rewrite lookup_insert_eq in Hc. injection Hc as <-.
      split; [apply setAdd_nonempty|]. split.
      * apply NoDup_setAdd. destruct (clients st !! u) as [c0|] eqn:Hc0; simpl.
        -- now destruct (Hr u c0 Hc0) as (_ & ? & _).
        -- apply NoDup_nil_2.
      * intros c [->|Hcin]%elem_of_setAdd.
        -- eexists. split; [apply lookup_insert_eq|reflexivity].
        -- destruct (clients st !! u) as [c0|] eqn:Hc0; simpl in Hcin; [|inversion Hcin].
           destruct (Hr u c0 Hc0) as (_ & _ & Hin).
           destruct (Hin c Hcin) as (s1 & Hs1 & Hu1).
           exists s1. split; [|exact Hu1].
           rewrite lookup_insert_ne; [exact Hs1|]. intros <-. congruence.
    + rewrite lookup_insert_ne in Hc by exact Hne.
      destruct (Hr u' conns Hc) as (Hne' & Hnd' & Hin).
      split; [exact Hne'|]. split; [exact Hnd'|].
      intros c Hcin. destruct (Hin c Hcin) as (s1 & Hs1 & Hu1).
      exists s1. split; [|exact Hu1].
      rewrite lookup_insert_ne; [exact Hs1|]. intros <-. congruence.
  - intros c u0 Hc. apply lookup_delete_Some in Hc as [Hne Hc].
    destruct (Ha c u0 Hc) as (s1 & Hs1 & Hu1). exists s1. split; [|exact Hu1].
    now rewrite lookup_insert_ne by exact Hne.
Qed.

Lemma wf_onPong st ws : wf st -> wf (onPong st ws).
Proof.
  intros Hwf. unfold onPong.
  destruct (socks st !! ws) as [s|] eqn:Hs; [|exact Hwf].
  destruct (ws_userId s) eqn:Hu; [|exact Hwf].
  eapply wf_update_socket; [exact Hwf|exact Hs|simpl; congruence].
Qed.

Lemma handleDisconnection_socks st ws : socks (handleDisconnection st ws) = socks st.
Proof.
  unfold handleDisconnection. destruct (socks st !! ws) as [s|]; [|reflexivity].
  destruct (ws_userId s) as [u|]; [|reflexivity].
  now destruct (clients st !! u).
Qed.

Lemma handleDisconnection_wssClients st ws :
  wssClients (handleDisconnection st ws) = wssClients st.
Proof.
  unfold handleDisconnection. destruct (socks st !! ws) as [s|]; [|reflexivity].
  destruct (ws_userId s) as [u|]; [|reflexivity].
  now destruct (clients st !! u).
Qed.

Lemma handleDisconnection_awaiting st ws :
  awaiting (handleDisconnection st ws) = awaiting st.
Proof.
  unfold handleDisconnection. destruct (socks st !! ws) as [s|]; [|reflexivity].
  destruct (ws_userId s) as [u|]; [|reflexivity].
  now destruct (clients st !! u).
Qed.

Lemma wf_onClose st ws : wf st -> wf (onClose st ws).
Proof.
  intros Hwf. unfold onClose.
  destruct (socks st !! ws) as [s|] eqn:Hs; [|exact Hwf].
  pose proof (wf_handleDisconnection st ws Hwf) as Hwf'.
  assert (Hs' : socks (handleDisconnection st ws) !! ws = Some s)
    by now rewrite handleDisconnection_socks.
  destruct (wf_update_socket (handleDisconnection st ws) ws s
              {| ws_userId := ws_userId s; isAlive := isAlive s; readyState := CLOSED |}
              Hwf' Hs' eq_refl) as (Hnd & Hk & Hr & Ha).
  split; [now apply NoDup_setDelete|]. split; [|split; [exact Hr|exact Ha]].
  simpl in *. intros c [Hne Hc]%elem_of_setDelete. now apply Hk.
Qed.

Lemma wf_onError st ws : wf st -> wf (onError st ws).
Proof. apply wf_handleDisconnection. Qed.

(** ** The sweep *)

Lemma cleared_flagged s : isAlive s = Some false -> cleared s = s.
Proof. destruct s as [u a r]; simpl. intros ->. reflexivity. Qed.

Lemma filter_ext_elem (P Q : ConnId -> Prop)
    `{!forall x, Decision (P x), !forall x, Decision (Q x)} (l : list ConnId) :
  (forall x, x ∈ l -> (P x <-> Q x)) -> filter P l = filter Q l.
Proof.
  induction l as [|a l IH]; intros Hext; [reflexivity|].
  rewrite !filter_cons.
  rewrite IH by (intros x Hx; apply Hext; now right).
  destruct (decide (P a)) as [Hp|Hp], (decide (Q a)) as [Hq|Hq]; try reflexivity.
  - exfalso. apply Hq, (Hext a); [now left|exact Hp].
  - exfalso. apply Hp, (Hext a); [now left|exact Hq].
Qed.

(** The [forEach] of the sweep over distinct, known sockets: every socket
    is decided on the flag it had when the sweep began. *)
Lemma sweep_fold (l : list ConnId) :
  forall (out : list Out) (term : list ConnId) (st : Server),
    NoDup l ->
    (forall c, c ∈ l -> is_Some (socks st !! c)) ->
    exists st',
      foldl sweepOne (out, term, st) l
      = (out ++ (probe st <$> l),
         term ++ filter (fun ws => flagged st ws = true) l, st')
      /\ clients st' = clients st
      /\ wssClients st' = wssClients st
      /\ awaiting st' = awaiting st
      /\ (forall c, c ∈ l -> socks st' !! c = cleared <$> socks st !! c)
      /\ (forall c, c ∉ l -> socks st' !! c = socks st !! c).
Proof.
  induction l as [|x l IH]; intros out term st Hnd Hk.
  - exists st. simpl. rewrite !app_nil_r. repeat split; try reflexivity.
    intros c Hc. inversion Hc.
  - apply NoDup_cons in Hnd as [Hx Hnd].
    destruct (Hk x ltac:(now left)) as [s Hs].
    assert (Hfl : flagged st x = bool_decide (isAlive s = Some false))
      by (unfold flagged; now rewrite Hs).
    rewrite fmap_cons, filter_cons. unfold probe at 1. rewrite Hfl.
    cbn [foldl Registry.sweepOne]. rewrite Hs.
    case_bool_decide as Hdead.
    + destruct (IH (out ++ [Terminate x]) (term ++ [x]) st Hnd) as
        (st' & -> & Hc & Hw & Haw & Hin & Hout).
      { intros c Hc. apply Hk. now right. }
      exists st'. rewrite decide_True by reflexivity.
      rewrite <- !app_assoc. simpl.
      split; [reflexivity|]. split; [exact Hc|]. split; [exact Hw|].
      split; [exact Haw|]. split.
      * intros c [->|Hcl]%elem_of_cons; [|now apply Hin].
        rewrite (Hout x Hx), Hs. simpl. now rewrite cleared_flagged.
      * intros c [Hcx Hcl]%not_elem_of_cons. now apply Hout.
    + set (st1 := {| socks := <[x := {| ws_userId := ws_userId s; isAlive := Some false;
                                        readyState := readyState s |}]> (socks st);
                     clients := clients st; wssClients := wssClients st;
                     awaiting := awaiting st |}).
      assert (Hsame : forall c, c ∈ l -> socks st1 !! c = socks st !! c).
      { intros c Hc. simpl. apply lookup_insert_ne. intros ->. contradiction. }
      destruct (IH (out ++ [Ping x]) term st1 Hnd)
        as (st' & -> & Hc & Hw & Haw & Hin & Hout).
      { intros c Hc. rewrite (Hsame c Hc). apply Hk. now right. }
      exists st'. rewrite decide_False by discriminate.
      rewrite <- !app_assoc. simpl.
      split.
      * assert (E1 : probe st1 <$> l = probe st <$> l).
        { apply list_fmap_ext. intros i c Hic.
          unfold probe, flagged. rewrite Hsame; [reflexivity|].
          eapply list_elem_of_lookup_2, Hic. }
        assert (E2 : filter (fun ws => flagged st1 ws = true) l
                     = filter (fun ws => flagged st ws = true) l).
        { apply filter_ext_elem.
          intros c Hcl. unfold flagged. now rewrite (Hsame c Hcl). }
        now rewrite E1, E2.
      * split; [exact Hc|]. split; [exact Hw|]. split; [exact Haw|]. split.
        -- intros c [->|Hcl]%elem_of_cons.
           ++ rewrite (Hout x Hx). simpl. rewrite lookup_insert_eq, Hs. reflexivity.
           ++ rewrite (Hin c Hcl), (Hsame c Hcl). reflexivity.
        -- intros c [Hcx Hcl]%not_elem_of_cons. rewrite (Hout c Hcl). simpl.
           now rewrite lookup_insert_ne by congruence.
Qed.

(** ** Closing sockets *)

Lemma onClose_wssClients st ws :
  wssClients (onClose st ws)
  = match socks st !! ws with
    | Some _ => setDelete ws (wssClients st)
    | None => wssClients st
    end.
Proof.
  unfold onClose. destruct (socks st !! ws); [|reflexivity]. simpl.
  now rewrite handleDisconnection_wssClients.
Qed.

Lemma onClose_tracked st ws c :
  c ∈ wssClients (onClose st ws) -> c ∈ wssClients st.
Proof.
  rewrite onClose_wssClients. destruct (socks st !! ws); [|tauto].
  now intros [_ ?]%elem_of_setDelete.
Qed.

Lemma onClose_untracks st ws :
  is_Some (socks st !! ws) -> ws ∉ wssClients (onClose st ws).
Proof.
  intros [s Hs]. rewrite onClose_wssClients, Hs.
  intros [Hne _]%elem_of_setDelete. now apply Hne.
Qed.

Lemma onClose_keeps_tracked st ws c :
  c <> ws -> c ∈ wssClients st -> c ∈ wssClients (onClose st ws).
Proof.
  intros Hne Hc. rewrite onClose_wssClients. destruct (socks st !! ws); [|exact Hc].
  now apply elem_of_setDelete.
Qed.

Lemma onClose_isAlive st ws c :
  isAlive <$> socks (onClose st ws) !! c = isAlive <$> socks st !! c.
Proof.
  unfold onClose. destruct (socks st !! ws) as [s|] eqn:Hs; [|reflexivity]. simpl.
  rewrite handleDisconnection_socks.
  destruct (decide (ws = c)) as [->|Hne].
  - now rewrite lookup_insert_eq, Hs.
  - now rewrite lookup_insert_ne by exact Hne.
Qed.

Lemma flagged_isAlive st st' c :
  isAlive <$> socks st' !! c = isAlive <$> socks st !! c ->
  flagged st' c = flagged st c.
Proof.
  unfold flagged. destruct (socks st' !! c), (socks st !! c); simpl;
    intros H; try discriminate H; [|reflexivity].
  injection H as H. now rewrite H.
Qed.

Lemma foldl_onClose_isAlive l st c :
  isAlive <$> socks (foldl onClose st l) !! c = isAlive <$> socks st !! c.
Proof.
  revert st. induction l as [|x l IH]; intros st; simpl; [reflexivity|].
  now rewrite IH, onClose_isAlive.
Qed.

Lemma foldl_onClose_tracked l st c :
  c ∈ wssClients (foldl onClose st l) -> c ∈ wssClients st.
Proof.
  revert st. induction l as [|x l IH]; intros st; simpl; [tauto|].
  intros H. eapply onClose_tracked, IH, H.
Qed.

Lemma foldl_onClose_untracks l st ws :
  ws ∈ l -> is_Some (socks st !! ws) -> ws ∉ wssClients (foldl onClose st l).
Proof.
  revert st. induction l as [|x l IH]; intros st Hin Hk; [inversion Hin|].
  simpl. destruct (decide (ws = x)) as [->|Hne].
  - intros H. apply foldl_onClose_tracked in H. now apply (onClose_untracks st x).
  - apply elem_of_cons in Hin as [?|Hin]; [contradiction|].
    apply IH; [exact Hin|].
    destruct Hk as [s Hs].
    assert (H : isAlive <$> socks (onClose st x) !! ws = isAlive <$> Some s)
      by (rewrite onClose_isAlive; now rewrite Hs).
    destruct (socks (onClose st x) !! ws); [eauto|discriminate].
Qed.

Lemma foldl_onClose_keeps_tracked l st c :
  c ∉ l -> c ∈ wssClients st -> c ∈ wssClients (foldl onClose st l).
Proof.
  revert st. induction l as [|x l IH]; intros st Hnin Hc; simpl; [exact Hc|].
  apply not_elem_of_cons in Hnin as [Hne Hnin].
  apply IH; [exact Hnin|]. now apply onClose_keeps_tracked.
Qed.

Lemma wf_foldl_onClose l st : wf st -> wf (foldl onClose st l).
Proof.
  revert st. induction l as [|x l IH]; intros st Hwf; simpl; [exact Hwf|].
  apply IH, wf_onClose, Hwf.
Qed.

(** ** One firing of the heartbeat *)

Lemma heartbeat_eq st :
  wf st ->
  exists st1,
    heartbeat st
    = (probe st <$> wssClients st,
       foldl onClose st1 (filter (fun ws => flagged st ws = true) (wssClients st)))
    /\ wf st1
    /\ wssClients st1 = wssClients st
    /\ clients st1 = clients st
    /\ awaiting st1 = awaiting st
    /\ (forall c, c ∈ wssClients st -> socks st1 !! c = cleared <$> socks st !! c)
    /\ (forall c, c ∉ wssClients st -> socks st1 !! c = socks st !! c).
Proof.
  intros Hwf. pose proof Hwf as (Hnd & Hk & Hr & Ha).
  destruct (sweep_fold (wssClients st) [] [] st Hnd Hk)
    as (st1 & Hf & Hc & Hw & Haw & Hin & Hout).
  exists st1. unfold Registry.heartbeat, Registry.startHeartbeat. cbn [snd].
  rewrite Hf. simpl.
  split; [reflexivity|]. split; [|now repeat split].
  assert (Hu : forall c, ws_userId <$> socks st1 !! c = ws_userId <$> socks st !! c).
  { intros c. destruct (decide (c ∈ wssClients st)) as [Hc'|Hc'].
    - rewrite (Hin c Hc'). now destruct (socks st !! c).
    - now rewrite (Hout c Hc'). }
  assert (Hsame : forall c s u, socks st !! c = Some s -> ws_userId s = u ->
            exists s1, socks st1 !! c = Some s1 /\ ws_userId s1 = u).
  { intros c s u Hs Hus. specialize (Hu c). rewrite Hs in Hu.
    destruct (socks st1 !! c) as [s1|]; [|discriminate].
    exists s1. split; [reflexivity|]. simpl in Hu. congruence. }
  split; [now rewrite Hw|]. split; [|split].
  - intros c Hc'. rewrite Hw in Hc'. destruct (Hk c Hc') as [s Hs].
    destruct (Hsame c s _ Hs eq_refl) as (s1 & -> & _). eauto.
  - intros u conns Hl. rewrite Hc in Hl. destruct (Hr u conns Hl) as (Hne & Hnd' & Hin').
    split; [exact Hne|]. split; [exact Hnd'|].
    intros c Hcin. destruct (Hin' c Hcin) as (s & Hs & Hus).
    now apply (Hsame c s).
  - intros c u Hl. rewrite Haw in Hl. destruct (Ha c u Hl) as (s & Hs & Hus).
    now apply (Hsame c s).
Qed.

Lemma wf_heartbeat st : wf st -> wf (heartbeat st).2.
Proof.
  intros Hwf. destruct (heartbeat_eq st Hwf) as (st1 & -> & Hwf1 & _).
  now apply wf_foldl_onClose.
Qed.

(** A tracked socket whose flag is [false] when the heartbeat fires is
    terminated and no longer tracked afterwards. *)
Lemma heartbeat_flagged st ws :
  wf st -> ws ∈ wssClients st -> flagged st ws = true ->
  Terminate ws ∈ (heartbeat st).1 /\ (Ping ws ∉ (heartbeat st).1)
  /\ ws ∉ wssClients (heartbeat st).2.
Proof.
  intros Hwf Hin Hfl.
  destruct (heartbeat_eq st Hwf) as (st1 & -> & Hwf1 & Hw & _ & _ & Hs1 & _).
  simpl. split; [|split].
  - apply list_elem_of_fmap. exists ws. split; [|exact Hin].
    unfold probe. now rewrite Hfl.
  - intros Hp. apply list_elem_of_fmap in Hp as (c & Hc & _). unfold probe in Hc.
    destruct (flagged st c) eqn:Hfc; [discriminate|]. injection Hc as ->. congruence.
  - apply foldl_onClose_untracks.
    + apply list_elem_of_filter. now split.
    + destruct Hwf1 as (_ & Hk1 & _). apply Hk1. now rewrite Hw.
Qed.

(** A tracked socket whose flag is not [false] is probed, stays tracked and
    has its flag cleared to [false]. *)
Lemma heartbeat_alive st ws :
  wf st -> ws ∈ wssClients st -> flagged st ws = false ->
  Ping ws ∈ (heartbeat st).1 /\ (Terminate ws ∉ (heartbeat st).1)
  /\ ws ∈ wssClients (heartbeat st).2
  /\ flagged (heartbeat st).2 ws = true.
Proof.
  intros Hwf Hin Hfl. pose proof Hwf as (_ & Hk & _).
  destruct (heartbeat_eq st Hwf) as (st1 & -> & Hwf1 & Hw & _ & _ & Hs1 & _).
  simpl. split; [|split; [|split]].
  - apply list_elem_of_fmap. exists ws. split; [|exact Hin].
    unfold probe. now rewrite Hfl.
  - intros Hp. apply list_elem_of_fmap in Hp as (c & Hc & _). unfold probe in Hc.
    destruct (flagged st c) eqn:Hfc; [|discriminate]. injection Hc as ->. congruence.
  - apply foldl_onClose_keeps_tracked; [|now rewrite Hw].
    intros [Hf _]%list_elem_of_filter. congruence.
  - rewrite (flagged_isAlive st1) by apply foldl_onClose_isAlive.
    unfold flagged. rewrite (Hs1 ws Hin). destruct (Hk ws Hin) as [s ->]. reflexivity.
Qed.

(** Sockets the heartbeat does not track are not its business. *)
Lemma heartbeat_tracked st c :
  wf st -> c ∈ wssClients (heartbeat st).2 -> c ∈ wssClients st.
Proof.
  intros Hwf. destruct (heartbeat_eq st Hwf) as (st1 & -> & _ & Hw & _).
  simpl. intros H%foldl_onClose_tracked. now rewrite <- Hw.
Qed.

(** ** Every event *)

Lemma run_cons st ev rest :
  run st (ev :: rest)
  = ((step st ev).1 ++ (run (step st ev).2 rest).1, (run (step st ev).2 rest).2).
Proof.
  simpl. destruct (step st ev) as [out st']. simpl.
  now destruct (Registry.run stringify connectedMsg pongMsg st' rest).
Qed.

Lemma exec_cons st ev rest : exec st (ev :: rest) = exec (step st ev).2 rest.
Proof. unfold Registry.exec. now rewrite run_cons. Qed.

Lemma run_app st evs evs' :
  run st (evs ++ evs')
  = ((run st evs).1 ++ (run (exec st evs) evs').1, (run (exec st evs) evs').2).
Proof.
  revert st. induction evs as [|ev rest IH]; intros st.
  - unfold Registry.exec. simpl.
    now destruct (Registry.run stringify connectedMsg pongMsg st evs').
  - rewrite <- app_comm_cons, !run_cons, exec_cons, IH. simpl.
    now rewrite app_assoc.
Qed.

Lemma wf_step st ev : wf st -> wf (step st ev).2.
Proof.
  intros Hwf. destruct ev; simpl; try exact Hwf.
  - now apply wf_handleConnection.
  - now apply wf_resumeConnection.
  - now apply wf_onPong.
  - now apply wf_onClose.
  - now apply wf_onError.
  - now apply wf_heartbeat.
Qed.

Lemma wf_exec evs st : wf st -> wf (exec st evs).
Proof.
  revert st. induction evs as [|ev rest IH]; intros st Hwf; [exact Hwf|].
  rewrite exec_cons. apply IH, wf_step, Hwf.
Qed.

Lemma known_not_new st ws : is_Some (socks st !! ws) -> newSocket st <> ws.
Proof. intros [s Hs] E. rewrite <- E, newSocket_fresh in Hs. discriminate. Qed.

(** *** The lookup of a handshake settles *)

Lemma resumeConnection_idle st c r :
  awaiting st !! c = None -> resumeConnection st c r = ([], st).
Proof. intros H. unfold Registry.resumeConnection. now rewrite H. Qed.

Lemma resumeConnection_wssClients st c r :
  wssClients (resumeConnection st c r).2 = wssClients st.
Proof.
  unfold Registry.resumeConnection.
  destruct (awaiting st !! c); [|reflexivity].
  destruct (socks st !! c); [|reflexivity]. now destruct r.
Qed.

Lemma resumeConnection_socks st c r ws :
  c <> ws -> socks (resumeConnection st c r).2 !! ws = socks st !! ws.
Proof.
  intros Hne. unfold Registry.resumeConnection.
  destruct (awaiting st !! c); [|reflexivity].
  destruct (socks st !! c); [|reflexivity].
  destruct r; simpl; now rewrite lookup_insert_ne by exact Hne.
Qed.

(** A lookup that fails closes the socket and changes nothing else. *)
Lemma resumeConnection_failed st c r :
  r <> UserFound ->
  clients (resumeConnection st c r).2 = clients st
  /\ forall ws,
       isAlive <$> socks (resumeConnection st c r).2 !! ws = isAlive <$> socks st !! ws
       /\ ws_userId <$> socks (resumeConnection st c r).2 !! ws
          = ws_userId <$> socks st !! ws.
Proof.
  intros Hr. unfold Registry.resumeConnection.
  destruct (awaiting st !! c); [|now split].
  destruct (socks st !! c) as [s|] eqn:Hs; [|now split].
  destruct r; [contradiction| |]; simpl; (split; [reflexivity|]); intros ws;
    (destruct (decide (c = ws)) as [->|Hne];
     [rewrite lookup_insert_eq, Hs; now split
     |now rewrite lookup_insert_ne by exact Hne]).
Qed.

Lemma resumeConnection_awaiting st c r ws u :
  awaiting (resumeConnection st c r).2 !! ws = Some u -> awaiting st !! ws = Some u.
Proof.
  unfold Registry.resumeConnection.
  destruct (awaiting st !! c); [|tauto].
  destruct (socks st !! c); [|tauto].
  destruct r; simpl; now intros [_ H]%lookup_delete_Some.
Qed.

(** Only a lookup that finds the user enters a socket in the registry, and
    it enters the socket whose handshake was suspended. *)
Lemma resumeConnection_registered st c r ws :
  registered (resumeConnection st c r).2 ws ->
  registered st ws \/ (c = ws /\ r = UserFound /\ is_Some (awaiting st !! ws)).
Proof.
  unfold Registry.resumeConnection.
  destruct (awaiting st !! c) as [u|] eqn:Hw; [|now left].
  destruct (socks st !! c) as [s|]; [|now left].
  destruct r; simpl; [|now left..].
  intros (u' & conns & Hc & Hin). simpl in Hc.
  destruct (decide (u = u')) as [<-|Hne].
  - rewrite lookup_insert_eq in Hc. injection Hc as <-.
    apply elem_of_setAdd in Hin as [->|Hin].
    + right. rewrite Hw. eauto.
    + left. destruct (clients st !! u) as [c0|] eqn:Hc0; simpl in Hin; [|inversion Hin].
      now exists u, c0.
  - rewrite lookup_insert_ne in Hc by exact Hne. left. now exists u', conns.
Qed.

(** *** What stays as it is *)

Lemma onPong_awaiting st ws : awaiting (onPong st ws) = awaiting st.
Proof.
  unfold onPong. destruct (socks st !! ws) as [s|]; [|reflexivity].
  now destruct (ws_userId s).
Qed.

Lemma onClose_awaiting st ws : awaiting (onClose st ws) = awaiting st.
Proof.
  unfold onClose. destruct (socks st !! ws); [|reflexivity]. simpl.
  apply handleDisconnection_awaiting.
Qed.

Lemma foldl_onClose_awaiting l st : awaiting (foldl onClose st l) = awaiting st.
Proof.
  revert st. induction l as [|x l IH]; intros st; simpl; [reflexivity|].
  now rewrite IH, onClose_awaiting.
Qed.

Lemma heartbeat_awaiting st : wf st -> awaiting (heartbeat st).2 = awaiting st.
Proof.
  intros Hwf. destruct (heartbeat_eq st Hwf) as (st1 & -> & _ & _ & _ & Haw & _).
  simpl. now rewrite foldl_onClose_awaiting.
Qed.

Lemma onClose_clients st ws : clients (onClose st ws) = clients (handleDisconnection st ws).
Proof.
  unfold onClose. destruct (socks st !! ws) as [s|] eqn:Hs; [reflexivity|].
  unfold handleDisconnection. now rewrite Hs.
Qed.

(** [handleDisconnection] only takes sockets out of the registry. *)
Lemma registered_handleDisconnection st c ws :
  registered (handleDisconnection st c) ws -> registered st ws.
Proof.
  unfold handleDisconnection.
  destruct (socks st !! c) as [s|]; [|tauto].
  destruct (ws_userId s) as [u|]; [|tauto].
  destruct (clients st !! u) as [conns|] eqn:Hc; [|tauto].
  intros (u' & conns' & Hl & Hin). simpl in Hl.
  destruct (decide (u = u')) as [<-|Hne].
  - exists u, conns. split; [exact Hc|].
    destruct (length (setDelete c conns) =? 0).
    + rewrite lookup_delete_eq in Hl. discriminate.
    + rewrite lookup_insert_eq in Hl. injection Hl as <-.
      now apply elem_of_setDelete in Hin as [_ Hin].
  - exists u', conns'. split; [|exact Hin].
    destruct (length (setDelete c conns) =? 0).
    + now rewrite lookup_delete_ne in Hl.
    + now rewrite lookup_insert_ne in Hl.
Qed.

Lemma registered_onClose st c ws : registered (onClose st c) ws -> registered st ws.
Proof.
  intros (u & conns & Hc & Hin). rewrite onClose_clients in Hc.
  apply (registered_handleDisconnection st c). now exists u, conns.
Qed.

Lemma registered_foldl_onClose l st ws :
  registered (foldl onClose st l) ws -> registered st ws.
Proof.
  revert st. induction l as [|x l IH]; intros st; simpl; [tauto|].
  intros H. eapply registered_onClose, IH, H.
Qed.

(** After its 'close' event a socket is in no registry set. *)
Lemma unregistered_onClose st ws :
  wf st -> is_Some (socks st !! ws) -> ~ registered (onClose st ws) ws.
Proof.
  intros (_ & _ & Hr & _) [s Hs] (u' & conns' & Hl & Hin).
  rewrite onClose_clients in Hl. unfold handleDisconnection in Hl. rewrite Hs in Hl.
  assert (Hmine : forall conns0, clients st !! u' = Some conns0 -> ws ∈ conns0 ->
                    ws_userId s = Some u').
  { intros conns0 Hc0 Hin0. destruct (Hr u' conns0 Hc0) as (_ & _ & H).
    destruct (H ws Hin0) as (s0 & Hs0 & Hu0). congruence. }
  destruct (ws_userId s) as [u|] eqn:Hu.
  - destruct (clients st !! u) as [conns|] eqn:Hc.
    + simpl in Hl. destruct (decide (u = u')) as [<-|Hne].
      * destruct (length (setDelete ws conns) =? 0).
        -- rewrite lookup_delete_eq in Hl. discriminate.
        -- rewrite lookup_insert_eq in Hl. injection Hl as <-.
           apply elem_of_setDelete in Hin as [Hne _]. now apply Hne.
      * assert (Hl' : clients st !! u' = Some conns').
        { destruct (length (setDelete ws conns) =? 0).
          - now rewrite lookup_delete_ne in Hl.
          - now rewrite lookup_insert_ne in Hl. }
        specialize (Hmine conns' Hl' Hin). congruence.
    + specialize (Hmine conns' Hl Hin). congruence.
  - specialize (Hmine conns' Hl Hin). discriminate.
Qed.

Lemma foldl_onClose_unregisters l st ws :
  wf st -> ws ∈ l -> is_Some (socks st !! ws) -> ~ registered (foldl onClose st l) ws.
Proof.
  revert st. induction l as [|x l IH]; intros st Hwf Hin Hk; [inversion Hin|].
  simpl. destruct (decide (ws = x)) as [->|Hne].
  - intros H. apply registered_foldl_onClose in H.
    now apply (unregistered_onClose st x).
  - apply elem_of_cons in Hin as [?|Hin]; [contradiction|].
    apply IH; [now apply wf_onClose|exact Hin|].
    destruct Hk as [s Hs].
    assert (H : isAlive <$> socks (onClose st x) !! ws = isAlive <$> Some s)
      by (rewrite onClose_isAlive; now rewrite Hs).
    destruct (socks (onClose st x) !! ws); [eauto|discriminate].
Qed.

Lemma registered_heartbeat st ws :
  wf st -> registered (heartbeat st).2 ws -> registered st ws.
Proof.
  intros Hwf. destruct (heartbeat_eq st Hwf) as (st1 & -> & _ & _ & Hc & _).
  simpl. intros (u & conns & Hl & Hin)%registered_foldl_onClose.
  rewrite Hc in Hl. now exists u, conns.
Qed.

(** A tracked socket whose flag is [false] when the heartbeat fires is in no
    registry set afterwards. *)
Lemma heartbeat_unregisters st ws :
  wf st -> ws ∈ wssClients st -> flagged st ws = true ->
  ~ registered (heartbeat st).2 ws.
Proof.
  intros Hwf Hin Hfl.
  destruct (heartbeat_eq st Hwf) as (st1 & -> & Hwf1 & Hw & _). simpl.
  apply foldl_onClose_unregisters; [exact Hwf1| |].
  - apply list_elem_of_filter. now split.
  - destruct Hwf1 as (_ & Hk1 & _). apply Hk1. now rewrite Hw.
Qed.

(** Socket objects are never forgotten, so an id is never handed out twice. *)
Lemma known_step st ev ws :
  wf st -> is_Some (socks st !! ws) -> is_Some (socks (step st ev).2 !! ws).
Proof.
  intros Hwf [s Hs]. destruct ev as [h|c r|c|c data|c|c| |u m]; simpl; eauto.
  - destruct h; simpl;
      (destruct (decide (newSocket st = ws)) as [->|Hne];
       [rewrite lookup_insert_eq; eauto|rewrite lookup_insert_ne by exact Hne; eauto]).
  - destruct (decide (c = ws)) as [->|Hne];
      [|rewrite resumeConnection_socks by exact Hne; eauto].
    unfold Registry.resumeConnection.
    destruct (awaiting st !! ws); [|eauto]. rewrite Hs.
    destruct r; simpl; rewrite lookup_insert_eq; eauto.
  - unfold onPong. destruct (socks st !! c) as [s0|]; [|eauto].
    destruct (ws_userId s0); [|eauto]. simpl.
    destruct (decide (c = ws)) as [->|Hne];
      [rewrite lookup_insert_eq; eauto|rewrite lookup_insert_ne by exact Hne; eauto].
  - assert (H : isAlive <$> socks (onClose st c) !! ws = isAlive <$> Some s)
      by (rewrite onClose_isAlive; now rewrite Hs).
    destruct (socks (onClose st c) !! ws); [eauto|discriminate].
  - unfold onError. rewrite handleDisconnection_socks. eauto.
  - destruct (heartbeat_eq st Hwf) as (st1 & -> & _ & _ & _ & _ & Hin & Hout). simpl.
    assert (H1 : is_Some (socks st1 !! ws)).
    { destruct (decide (ws ∈ wssClients st)) as [Hc|Hc].
      - rewrite (Hin ws Hc), Hs. simpl. eauto.
      - rewrite (Hout ws Hc), Hs. eauto. }
    destruct H1 as [s1 Hs1].
    match goal with |- is_Some (socks (foldl onClose st1 ?l) !! ws) =>
      assert (H : isAlive <$> socks (foldl onClose st1 l) !! ws = isAlive <$> Some s1)
        by (rewrite foldl_onClose_isAlive; now rewrite Hs1);
      destruct (socks (foldl onClose st1 l) !! ws); [eauto|discriminate] end.
Qed.

Lemma known_exec evs st ws :
  wf st -> is_Some (socks st !! ws) -> is_Some (socks (exec st evs) !! ws).
Proof.
  revert st. induction evs as [|ev rest IH]; intros st Hwf Hk; [exact Hk|].
  rewrite exec_cons. apply IH; [now apply wf_step|now apply known_step].
Qed.

(** A handshake is suspended only once, when the socket is new. *)
Lemma idle_step st ev ws :
  wf st -> is_Some (socks st !! ws) -> awaiting st !! ws = None ->
  awaiting (step st ev).2 !! ws = None.
Proof.
  intros Hwf Hk Hidle. pose proof (known_not_new st ws Hk) as Hnew.
  destruct ev as [h|c r|c|c data|c|c| |u m]; simpl; try exact Hidle.
  - destruct h; simpl; try exact Hidle. now rewrite lookup_insert_ne by exact Hnew.
  - destruct (awaiting (resumeConnection st c r).2 !! ws) as [u|] eqn:E; [|reflexivity].
    apply resumeConnection_awaiting in E. congruence.
  - now rewrite onPong_awaiting.
  - now rewrite onClose_awaiting.
  - unfold onError. now rewrite handleDisconnection_awaiting.
  - now rewrite heartbeat_awaiting.
Qed.

Lemma idle_exec evs st ws :
  wf st -> is_Some (socks st !! ws) -> awaiting st !! ws = None ->
  awaiting (exec st evs) !! ws = None.
Proof.
  revert st. induction evs as [|ev rest IH]; intros st Hwf Hk Hidle; [exact Hidle|].
  rewrite exec_cons. apply IH;
    [now apply wf_step|now apply known_step|now apply idle_step].
Qed.

(** A socket is entered in the registry by the lookup of its own handshake
    and by nothing else. *)
Lemma registered_step st ev ws :
  wf st -> registered (step st ev).2 ws ->
  registered st ws \/ (ev = EFindById ws UserFound /\ is_Some (awaiting st !! ws)).
Proof.
  intros Hwf. destruct ev as [h|c r|c|c data|c|c| |u m]; simpl; try (now left).
  - destruct h; simpl; now left.
  - intros [H|(-> & -> & H)]%resumeConnection_registered; [now left|now right].
  - intros H. left. unfold onPong in H. destruct (socks st !! c) as [s|]; [|exact H].
    now destruct (ws_userId s).
  - intros H. left. now apply registered_onClose in H.
  - intros H. left. now apply registered_handleDisconnection in H.
  - intros H. left. now apply registered_heartbeat in H.
Qed.

(** A socket that is not tracked stays untracked. *)
Lemma untracked_step st ev ws :
  wf st -> is_Some (socks st !! ws) -> ws ∉ wssClients st ->
  ws ∉ wssClients (step st ev).2.
Proof.
  intros Hwf Hk Hu. pose proof (known_not_new st ws Hk) as Hnew.
  destruct ev as [h|c r|c|c data|c|c| |u m]; simpl; try exact Hu.
  - destruct h; simpl; intros [H|H]%elem_of_app; try contradiction;
      apply list_elem_of_singleton in H; congruence.
  - now rewrite resumeConnection_wssClients.
  - unfold onPong. destruct (socks st !! c) as [s0|]; [|exact Hu].
    now destruct (ws_userId s0).
  - intros H. now apply onClose_tracked in H.
  - unfold onError. now rewrite handleDisconnection_wssClients.
  - intros H. now apply heartbeat_tracked in H.
Qed.

Lemma untracked_exec evs st ws :
  wf st -> is_Some (socks st !! ws) -> ws ∉ wssClients st ->
  ws ∉ wssClients (exec st evs).
Proof.
  revert st. induction evs as [|ev rest IH]; intros st Hwf Hk Hu; [exact Hu|].
  rewrite exec_cons. apply IH.
  - now apply wf_step.
  - now apply known_step.
  - now apply untracked_step.
Qed.

(** A socket that is gone -- not tracked, in no registry set, its handshake
    not suspended -- stays gone. *)
Lemma gone_exec evs st ws :
  wf st -> is_Some (socks st !! ws) -> awaiting st !! ws = None ->
  ws ∉ wssClients st -> ~ registered st ws ->
  (ws ∉ wssClients (exec st evs)) /\ ~ registered (exec st evs) ws.
Proof.
  revert st. induction evs as [|ev rest IH]; intros st Hwf Hk Hidle Hu Hnr; [now split|].
  rewrite exec_cons. apply IH.
  - now apply wf_step.
  - now apply known_step.
  - now apply idle_step.
  - now apply untracked_step.
  - intros [H|[_ H]]%registered_step; [contradiction| |exact Hwf].
    rewrite Hidle in H. now destruct H.
Qed.

Lemma tracked_flagged_step st ev ws :
  wf st -> ws ∈ wssClients st -> flagged st ws = true ->
  ev <> EPong ws -> ev <> EClose ws -> ev <> EHeartbeat ->
  (awaiting st !! ws = None \/ ev <> EFindById ws UserFound) ->
  ws ∈ wssClients (step st ev).2 /\ flagged (step st ev).2 ws = true.
Proof.
  intros Hwf Hin Hfl Hp Hc Hh Hf.
  assert (Hnew : newSocket st <> ws).
  { intros E. apply (wf_newSocket_untracked st Hwf). now rewrite E. }
  destruct ev as [h|c r|c|c data|c|c| |u m]; simpl;
    try (split; assumption); try congruence.
  - unfold flagged in *.
    destruct h; simpl; (split; [apply elem_of_app; now left|]);
      now rewrite lookup_insert_ne by exact Hnew.
  - rewrite resumeConnection_wssClients. split; [exact Hin|].
    destruct (decide (c = ws)) as [->|Hne].
    + destruct Hf as [Hidle|Hf].
      * now rewrite resumeConnection_idle.
      * rewrite (flagged_isAlive st); [exact Hfl|].
        apply resumeConnection_failed. congruence.
    + unfold flagged in *. now rewrite resumeConnection_socks.
  - unfold onPong, flagged in *.
    destruct (socks st !! c) as [s0|] eqn:Hs0; [|now split].
    destruct (ws_userId s0); [|now split]. simpl. split; [exact Hin|].
    rewrite lookup_insert_ne; [exact Hfl|]. intros ->. now apply Hp.
  - split.
    + apply onClose_keeps_tracked; [congruence|exact Hin].
    + rewrite (flagged_isAlive st) by apply onClose_isAlive. exact Hfl.
  - unfold onError, flagged in *.
    now rewrite handleDisconnection_wssClients, handleDisconnection_socks.
Qed.

Lemma silent_step st ev ws :
  wf st -> is_Some (socks st !! ws) -> ev <> EPong ws ->
  (awaiting st !! ws = None \/ ev <> EFindById ws UserFound) ->
  silent st ws -> silent (step st ev).2 ws.
Proof.
  intros Hwf Hk Hev Hf [[Hu Hnr]|[Hin Hfl]].
  - left. split; [now apply untracked_step|].
    intros [H|[E H]]%registered_step; [contradiction| |exact Hwf].
    destruct Hf as [Hidle|Hf]; [|contradiction].
    rewrite Hidle in H. now destruct H.
  - assert (Hgo : ev <> EClose ws -> ev <> EHeartbeat -> silent (step st ev).2 ws).
    { intros Hc Hh. right. now apply tracked_flagged_step. }
    destruct ev as [h|c r|c|c data|c|c| |u m]; try (apply Hgo; discriminate).
    + destruct (decide (c = ws)) as [->|Hc]; [|apply Hgo; congruence].
      left. simpl. split; [now apply onClose_untracks|now apply unregistered_onClose].
    + left. simpl. split; [now apply heartbeat_flagged|now apply heartbeat_unregisters].
Qed.

Lemma silent_exec evs st ws :
  wf st -> is_Some (socks st !! ws) -> EPong ws ∉ evs ->
  (awaiting st !! ws = None \/ EFindById ws UserFound ∉ evs) ->
  silent st ws -> silent (exec st evs) ws.
Proof.
  revert st. induction evs as [|ev rest IH]; intros st Hwf Hk Hev Hf Hsil; [exact Hsil|].
  apply not_elem_of_cons in Hev as [Hne Hev].
  rewrite exec_cons. apply IH.
  - now apply wf_step.
  - now apply known_step.
  - exact Hev.
  - destruct Hf as [Hidle|Hf]; [left; now apply idle_step|].
    right. now apply not_elem_of_cons in Hf as [_ Hf].
  - apply silent_step; try assumption; [congruence|].
    destruct Hf as [Hidle|Hf]; [now left|right].
    apply not_elem_of_cons in Hf as [Hf _]. congruence.
Qed.

(** A tracked socket whose flag is [false] and that stays silent is
    terminated by the next heartbeat at the latest, unless it closes by
    itself before. *)
Lemma silent_terminated evs st ws :
  wf st -> ws ∈ wssClients st -> flagged st ws = true -> EPong ws ∉ evs ->
  (awaiting st !! ws = None \/ EFindById ws UserFound ∉ evs) ->
  Terminate ws ∈ (run st (evs ++ [EHeartbeat])).1 \/ EClose ws ∈ evs.
Proof.
  revert st. induction evs as [|ev rest IH]; intros st Hwf Hin Hfl Hev Hf.
  - left. rewrite app_nil_l, run_cons. simpl. rewrite app_nil_r.
    now apply heartbeat_flagged.
  - apply not_elem_of_cons in Hev as [Hne Hev].
    assert (Hk : is_Some (socks st !! ws))
      by (destruct Hwf as (_ & Hk & _); now apply Hk).
    rewrite <- app_comm_cons, run_cons. simpl.
    assert (Hgo : ev <> EClose ws -> ev <> EHeartbeat ->
              Terminate ws ∈ (step st ev).1 ++ (run (step st ev).2 (rest ++ [EHeartbeat])).1
              \/ EClose ws ∈ ev :: rest).
    { intros Hc Hh.
      destruct (tracked_flagged_step st ev ws Hwf Hin Hfl) as [Hin' Hfl'];
        try assumption; [congruence| |].
      { destruct Hf as [Hidle|Hf]; [now left|right].
        apply not_elem_of_cons in Hf as [Hf _]. congruence. }
      destruct (IH (step st ev).2 (wf_step st ev Hwf) Hin' Hfl' Hev) as [Ht|Hcl].
      - destruct Hf as [Hidle|Hf]; [left; now apply idle_step|].
        right. now apply not_elem_of_cons in Hf as [_ Hf].
      - left. apply elem_of_app. now right.
      - right. now right. }
    destruct ev as [h|c r|c|c data|c|c| |u m]; try (apply Hgo; discriminate).
    + destruct (decide (c = ws)) as [->|Hc]; [right; now left|].
      apply Hgo; congruence.
    + left. apply elem_of_app. left. simpl. now apply heartbeat_flagged.
Qed.

(** ** C7: fan-out to the connections of one user *)

Lemma deliveries_flat_map st payload (conns : list ConnId) :
  deliveries
    (flat_map (fun ws => if isOpen st ws then [Send ws payload] else []) conns)
  = (fun ws => (ws, payload)) <$> filter (fun ws => isOpen st ws = true) conns.
Proof.
  induction conns as [|c conns IH]; [reflexivity|].
  simpl. rewrite filter_cons. unfold deliveries in *. rewrite omap_app, IH.
  destruct (isOpen st c); reflexivity.
Qed.

Lemma serializations_flat_map st payload (conns : list ConnId) :
  serializations
    (flat_map (fun ws => if isOpen st ws then [Send ws payload] else []) conns)
  = [].
Proof.
  induction conns as [|c conns IH]; [reflexivity|].
  simpl. unfold serializations in *. rewrite omap_app, IH.
  now destruct (isOpen st c).
Qed.

(** C7, as the code has it.  For a user id that has an entry in the
    registry, [broadcastToUser] serializes the event exactly once and sends
    that one payload, in the order of the set, to every connection of the
    set whose transport is open and to no other: a connection that is not
    open is passed over.  For a user id without an entry nothing is
    serialized and nothing is sent.  The registry is not changed. *)
Theorem broadcastToUser_fanout (st : Server) (userId : ObjectId) (message : Message) :
  serializations (broadcastToUser st userId message)
  = match clients st !! userId with
    | Some _ => [message]
    | None => []
    end
  /\ deliveries (broadcastToUser st userId message)
     = (fun ws => (ws, stringify message))
         <$> filter (fun ws => isOpen st ws = true) (default [] (clients st !! userId))
  /\ (step st (EBroadcast userId message)).2 = st.
Proof.
  unfold Registry.broadcastToUser.
  destruct (clients st !! userId) as [conns|]; simpl.
  - split; [|split; [|reflexivity]].
    + change (message :: serializations
                (flat_map (fun ws => if isOpen st ws then [Send ws (stringify message)]
                                     else []) conns) = [message]).
      now rewrite serializations_flat_map.
    + apply deliveries_flat_map.
  - now repeat split.
Qed.

(** ** C8: the liveness sweep *)

(** C8.  [startHeartbeat] sets a timer of period 30000 ms, and a firing of
    the timer runs its callback, the sweep.  Let the server be in a state
    reached from the start by any events, and let [ws] be a connection it
    tracks.  One sweep decides every tracked connection on the flag it has
    at that moment: flag [false] -- the connection is terminated, is not
    probed, and is afterwards neither tracked nor in any registry set;
    otherwise -- it is probed, not terminated, stays tracked and has its
    flag cleared to [false].  If [ws] does not answer between this sweep and
    a later one -- no pong and, should its handshake still be suspended at
    the lookup, no completion of the handshake, which sets the flag as a
    pong does --, whatever else happens in between, then after the later
    sweep it is neither tracked nor in any registry set, and it was
    terminated by a sweep unless it had closed by itself.  In every
    reachable state no user id maps to an empty set. *)
Theorem liveness_sweep
    (history evs : list Event) (ws : ConnId)
    (Htracked : ws ∈ wssClients (exec Registry.empty history))
    (Hsilent : EPong ws ∉ evs)
    (Hsettled : awaiting (exec Registry.empty history) !! ws = None
                \/ EFindById ws UserFound ∉ evs) :
  let st := exec Registry.empty history in
  let period := (Registry.startHeartbeat (Message := Message)).1 in
  let sweep := (Registry.startHeartbeat (Message := Message)).2 in
  let st1 := (sweep st).2 in
  let st2 := (sweep (exec st1 evs)).2 in
  period = 30000%Z
  /\ (forall st0, step st0 EHeartbeat = sweep st0)
  /\ (sweep st).1 = probe st <$> wssClients st
  /\ (if flagged st ws
      then Terminate ws ∈ (sweep st).1 /\ (Ping ws ∉ (sweep st).1)
           /\ (ws ∉ wssClients st1)
           /\ (forall u conns, clients st1 !! u = Some conns -> ws ∉ conns)
      else Ping ws ∈ (sweep st).1 /\ (Terminate ws ∉ (sweep st).1)
           /\ ws ∈ wssClients st1 /\ flagged st1 ws = true)
  /\ (ws ∉ wssClients st2)
  /\ (forall u conns, clients st2 !! u = Some conns -> ws ∉ conns)
  /\ (Terminate ws ∈ (run st (EHeartbeat :: evs ++ [EHeartbeat])).1 \/ EClose ws ∈ evs)
  /\ (forall evs', noEmptySet (exec Registry.empty evs')).
Proof.
  intros st period sweep st1 st2.
  change sweep with heartbeat in *. subst period sweep.
  assert (Hwf : wf st) by (apply wf_exec, wf_empty).
  assert (Hwf1 : wf st1) by (apply wf_heartbeat, Hwf).
  assert (Hk : is_Some (socks st !! ws)) by (destruct Hwf as (_ & Hk & _); now apply Hk).
  assert (Hk1 : is_Some (socks st1 !! ws)) by (apply (known_step st EHeartbeat), Hk; exact Hwf).
  assert (Hsettled1 : awaiting st1 !! ws = None \/ EFindById ws UserFound ∉ evs).
  { destruct Hsettled as [H|H]; [left|now right].
    subst st1. now rewrite heartbeat_awaiting. }
  assert (Hsil1 : silent st1 ws).
  { destruct (flagged st ws) eqn:Hfl.
    - left. split; [now apply heartbeat_flagged|now apply heartbeat_unregisters].
    - right. split; now apply heartbeat_alive. }
  assert (Hsil : silent (exec st1 evs) ws) by now apply silent_exec.
  assert (Hwf' : wf (exec st1 evs)) by now apply wf_exec.
  assert (Hgone : (ws ∉ wssClients st2) /\ ~ registered st2 ws).
  { destruct Hsil as [[Hu Hnr]|[Hin Hfl]].
    - split.
      + intros H. now apply heartbeat_tracked in H.
      + intros H. now apply registered_heartbeat in H.
    - split; [now apply heartbeat_flagged|now apply heartbeat_unregisters]. }
  split; [reflexivity|]. split; [reflexivity|]. split.
  { destruct (heartbeat_eq st Hwf) as (s1 & -> & _). reflexivity. }
  split.
  { destruct (flagged st ws) eqn:Hfl.
    - destruct (heartbeat_flagged st ws Hwf Htracked Hfl) as (H1 & H2 & H3).
      split; [exact H1|]. split; [exact H2|]. split; [exact H3|].
      intros u conns Hc Hin.
      apply (heartbeat_unregisters st ws Hwf Htracked Hfl). now exists u, conns.
    - now apply heartbeat_alive. }
  split; [apply Hgone|]. split.
  { intros u conns Hc Hin. apply (proj2 Hgone). now exists u, conns. }
  split.
  { rewrite run_cons. simpl. destruct (flagged st ws) eqn:Hfl.
    - left. apply elem_of_app. left. now apply heartbeat_flagged.
    - destruct (heartbeat_alive st ws Hwf Htracked Hfl) as (_ & _ & Hin1 & Hfl1).
      destruct (silent_terminated evs st1 ws Hwf1 Hin1 Hfl1 Hsilent Hsettled1) as [Ht|Hc].
      + left. apply elem_of_app. now right.
      + now right. }
  intros evs'. apply wf_noEmptySet, wf_exec, wf_empty.
Qed.

(** * Further properties of the push registry *)

Local Abbreviation broadcast := (Registry.broadcast stringify).
Local Abbreviation onMessage := (Registry.onMessage stringify pongMsg).

(** ** Disconnecting twice *)

Lemma setDelete_idem ws (s : list ConnId) : setDelete ws (setDelete ws s) = setDelete ws s.
Proof.
  unfold setDelete. induction s as [|c s IH]; [reflexivity|].
  rewrite filter_cons. destruct (decide (c <> ws)) as [Hc|Hc]; [|exact IH].
  rewrite filter_cons, decide_True by exact Hc. now rewrite IH.
Qed.

Lemma setDelete_absent ws (s : list ConnId) : ws ∉ s -> setDelete ws s = s.
Proof.
  unfold setDelete. induction s as [|c s IH]; intros Hn; [reflexivity|].
  apply not_elem_of_cons in Hn as [Hne Hn].
  rewrite filter_cons, decide_True by congruence. now rewrite IH.
Qed.

Lemma setDelete_length ws (s : list ConnId) :
  NoDup s -> ws ∈ s -> S (length (setDelete ws s)) = length s.
Proof.
  unfold setDelete. induction 1 as [|c s Hc Hnd IH]; intros Hin; [inversion Hin|].
  rewrite filter_cons. destruct (decide (c <> ws)) as [Hne|He].
  - simpl. f_equal. apply IH. apply elem_of_cons in Hin as [->|Hin]; [contradiction|exact Hin].
  - assert (c = ws) by (destruct (decide (c = ws)); [assumption|contradiction]). subst c.
    simpl. do 2 f_equal. now apply (setDelete_absent ws s).
Qed.

(** X18.  [handleDisconnection] runs for the 'error' event and again for the
    'close' event that follows it.  Running it twice for the same socket is
    the same as running it once, so an error followed by the close leaves
    the server exactly as the close alone does. *)
Theorem handleDisconnection_idempotent (st : Server) (ws : ConnId) :
  handleDisconnection (handleDisconnection st ws) ws = handleDisconnection st ws
  /\ onClose (onError st ws) ws = onClose st ws.
Proof.
  assert (H : handleDisconnection (handleDisconnection st ws) ws
              = handleDisconnection st ws).
  { unfold handleDisconnection at 2 3.
    destruct (socks st !! ws) as [s|] eqn:Hs;
      [|unfold handleDisconnection; now rewrite Hs].
    destruct (ws_userId s) as [u|] eqn:Hu;
      [|unfold handleDisconnection; now rewrite Hs, Hu].
    destruct (clients st !! u) as [conns|] eqn:Hc;
      [|unfold handleDisconnection; now rewrite Hs, Hu, Hc].
    unfold handleDisconnection. cbn [socks clients wssClients awaiting]. rewrite Hs, Hu.
    destruct (Nat.eqb_spec (length (setDelete ws conns)) 0) as [H0|H0].
    - now rewrite lookup_delete_eq.
    - rewrite lookup_insert_eq, setDelete_idem.
      destruct (Nat.eqb_spec (length (setDelete ws conns)) 0) as [|_]; [contradiction|].
      now rewrite insert_insert_eq. }
  split; [exact H|].
  unfold onClose, onError. rewrite handleDisconnection_socks, H.
  destruct (socks st !! ws) as [s|] eqn:Hs.
  - now rewrite handleDisconnection_socks.
  - unfold handleDisconnection. now rewrite Hs.
Qed.

(** ** Who is sent anything *)

Lemma deliveries_app (a b : list Out) : deliveries (a ++ b) = deliveries a ++ deliveries b.
Proof. unfold Registry.deliveries. apply omap_app. Qed.

Lemma Send_deliveries (out : list Out) ws p :
  Send ws p ∈ out <-> (ws, p) ∈ deliveries out.
Proof.
  unfold Registry.deliveries. rewrite list_elem_of_omap. split.
  - intros H. now exists (Send ws p).
  - intros (o & Ho & E). destruct o; try discriminate. now injection E as -> ->.
Qed.

Lemma wf_registered_socket st ws :
  wf st -> registered st ws ->
  exists s u conns, socks st !! ws = Some s /\ ws_userId s = Some u
                    /\ clients st !! u = Some conns /\ ws ∈ conns /\ NoDup conns.
Proof.
  intros (_ & _ & Hr & _) (u & conns & Hc & Hin).
  destruct (Hr u conns Hc) as (_ & Hnd & H). destruct (H ws Hin) as (s & Hs & Hu).
  now exists s, u, conns.
Qed.

(** A socket whose handshake was accepted is not waiting for a lookup. *)
Lemma wf_authenticated_idle st ws :
  wf st -> authenticated st ws -> awaiting st !! ws = None.
Proof.
  intros (_ & _ & _ & Ha) (s & u & Hs & Hu).
  destruct (awaiting st !! ws) as [u0|] eqn:E; [|reflexivity].
  destruct (Ha ws u0 E) as (s0 & Hs0 & Hu0). congruence.
Qed.

Lemma broadcastToUser_sends st u m ws p :
  Send ws p ∈ broadcastToUser st u m ->
  p = stringify m /\ isOpen st ws = true
  /\ exists conns, clients st !! u = Some conns /\ ws ∈ conns.
Proof.
  unfold Registry.broadcastToUser. destruct (clients st !! u) as [conns|]; [|inversion 1].
  intros [H|H]%elem_of_cons; [discriminate|].
  apply list_elem_of_In, in_flat_map in H as (c & Hc & H).
  destruct (isOpen st c) eqn:Ho; [|inversion H].
  destruct H as [[= -> ->]|[]]. split; [reflexivity|]. split; [exact Ho|].
  exists conns. split; [reflexivity|now apply list_elem_of_In].
Qed.

Lemma broadcast_deliveries st m :
  deliveries (broadcast st m)
  = flat_map (fun kv : ObjectId * list ConnId =>
                (fun ws => (ws, stringify m))
                  <$> filter (fun ws => isOpen st ws = true) kv.2)
      (map_to_list (clients st)).
Proof.
  unfold Registry.broadcast.
  change (deliveries (Stringify m :: ?l)) with (deliveries l).
  induction (map_to_list (clients st)) as [|kv l IH]; [reflexivity|].
  simpl. rewrite deliveries_app, IH. f_equal. apply deliveries_flat_map.
Qed.

Lemma broadcast_serializations st m : serializations (broadcast st m) = [m].
Proof.
  unfold Registry.broadcast.
  change (serializations (Stringify m :: ?l)) with (m :: serializations l).
  f_equal. induction (map_to_list (clients st)) as [|kv l IH]; [reflexivity|].
  simpl. unfold Registry.serializations in *. rewrite omap_app, IH, app_nil_r.
  apply serializations_flat_map.
Qed.

Lemma broadcast_elem st m ws p :
  (ws, p) ∈ deliveries (broadcast st m)
  <-> p = stringify m /\ registered st ws /\ isOpen st ws = true.
Proof.
  rewrite broadcast_deliveries. rewrite list_elem_of_In, in_flat_map. split.
  - intros ([u conns] & Hkv & Hin). apply list_elem_of_In in Hkv, Hin.
    apply elem_of_map_to_list in Hkv. simpl in Hin.
    apply list_elem_of_fmap in Hin as (c & [= -> ->] & Hc).
    apply list_elem_of_filter in Hc as [Ho Hc].
    split; [reflexivity|]. split; [now exists u, conns|exact Ho].
  - intros (-> & (u & conns & Hc & Hin) & Ho). exists (u, conns). split.
    + now apply list_elem_of_In, elem_of_map_to_list.
    + apply list_elem_of_In. simpl. apply list_elem_of_fmap. exists ws.
      split; [reflexivity|]. now apply list_elem_of_filter.
Qed.

Lemma NoDup_flat_map_disjoint {A B} (f : A -> list B) (l : list A) :
  NoDup l ->
  (forall a, a ∈ l -> NoDup (f a)) ->
  (forall a a' b, a ∈ l -> a' ∈ l -> b ∈ f a -> b ∈ f a' -> a = a') ->
  NoDup (flat_map f l).
Proof.
  induction 1 as [|a l Ha Hnd IH]; intros Hf Hd; simpl; [apply NoDup_nil_2|].
  apply NoDup_app. split; [apply Hf; now left|]. split.
  - intros b Hb Hb'. apply list_elem_of_In, in_flat_map in Hb' as (a' & Ha' & Hb').
    apply list_elem_of_In in Ha', Hb'.
    assert (a = a') by (apply (Hd a a' b); [now left|now right|exact Hb|exact Hb']).
    subst a'. contradiction.
  - apply IH.
    + intros a0 H0. apply Hf. now right.
    + intros a0 a1 b H0 H1. apply Hd; now right.
Qed.

(** X19.  [broadcast] serializes the message exactly once, whoever is connected --
    also when nobody is --, and in every state the server can reach it then
    delivers that one payload to exactly the registered connections whose
    transport is open, each of them once, and to no other socket. *)
Theorem broadcast_reaches_each_open_connection_once
    (history : list Event) (message : Message) :
  let st := exec Registry.empty history in
  serializations (broadcast st message) = [message]
  /\ (forall ws p, (ws, p) ∈ deliveries (broadcast st message)
                   <-> p = stringify message /\ registered st ws /\ isOpen st ws = true)
  /\ NoDup (deliveries (broadcast st message))
  /\ serializations (broadcast Registry.empty message) = [message]
  /\ deliveries (broadcast Registry.empty message) = [].
Proof.
  intros st. assert (Hwf : wf st) by (apply wf_exec, wf_empty).
  split; [apply broadcast_serializations|]. split; [intros ws p; apply broadcast_elem|].
  split; [|split; [apply broadcast_serializations|reflexivity]].
  rewrite broadcast_deliveries. destruct Hwf as (_ & _ & Hr & _).
  apply NoDup_flat_map_disjoint.
  - apply NoDup_map_to_list.
  - intros [u conns] Hkv. apply elem_of_map_to_list in Hkv. simpl.
    destruct (Hr u conns Hkv) as (_ & Hnd & _).
    apply NoDup_fmap_2_strong; [intros x y _ _ [= ->]; reflexivity|].
    now apply NoDup_filter.
  - intros [u conns] [u' conns'] [c p] Hkv Hkv' Hin Hin'.
    apply elem_of_map_to_list in Hkv, Hkv'. simpl in *.
    apply list_elem_of_fmap in Hin as (c0 & [= -> ->] & Hc).
    apply list_elem_of_fmap in Hin' as (c1 & [= <-] & Hc').
    apply list_elem_of_filter in Hc as [_ Hc]. apply list_elem_of_filter in Hc' as [_ Hc'].
    destruct (Hr u conns Hkv) as (_ & _ & H). destruct (H c0 Hc) as (s & Hs & Hu).
    destruct (Hr u' conns' Hkv') as (_ & _ & H'). destruct (H' c0 Hc') as (s' & Hs' & Hu').
    assert (u = u') by congruence. subst u'. f_equal. congruence.
Qed.


(** ** Counting the connections *)

Lemma foldl_count (l : list (ObjectId * list ConnId)) (n : nat) :
  foldl (fun count (kv : ObjectId * list ConnId) => count + length kv.2) n l
  = n + sum_list_with (fun kv : ObjectId * list ConnId => length kv.2) l.
Proof.
  revert n. induction l as [|kv l IH]; intros n; simpl; [lia|]. rewrite IH. lia.
Qed.

Lemma getClientCount_sum st :
  getClientCount st
  = sum_list_with (fun kv : ObjectId * list ConnId => length kv.2)
      (map_to_list (clients st)).
Proof. unfold getClientCount. now rewrite foldl_count. Qed.

Lemma count_delete (m : gmap ObjectId (list ConnId)) u conns :
  m !! u = Some conns ->
  sum_list_with (fun kv : ObjectId * list ConnId => length kv.2) (map_to_list m)
  = length conns
    + sum_list_with (fun kv : ObjectId * list ConnId => length kv.2)
        (map_to_list (delete u m)).
Proof. intros H. now rewrite <- (map_to_list_delete m u conns H). Qed.

Lemma count_insert (m : gmap ObjectId (list ConnId)) u conns :
  sum_list_with (fun kv : ObjectId * list ConnId => length kv.2)
    (map_to_list (<[u := conns]> m))
  = length conns
    + sum_list_with (fun kv : ObjectId * list ConnId => length kv.2)
        (map_to_list (delete u m)).
Proof.
  rewrite <- insert_delete_eq.
  now rewrite map_to_list_insert by apply lookup_delete_eq.
Qed.

Lemma getClientCount_handleDisconnection st ws :
  wf st ->
  getClientCount (handleDisconnection st ws)
  + (if decide (registered st ws) then 1 else 0)
  = getClientCount st.
Proof.
  intros Hwf. pose proof Hwf as (_ & _ & Hr & _).
  destruct (decide (registered st ws)) as [Hreg|Hno].
  - destruct (wf_registered_socket st ws Hwf Hreg)
      as (s & u & conns & Hs & Hu & Hc & Hin & Hnd).
    unfold handleDisconnection. rewrite Hs, Hu, Hc. rewrite !getClientCount_sum.
    cbn [clients]. rewrite (count_delete _ _ _ Hc).
    pose proof (setDelete_length ws conns Hnd Hin) as Hlen.
    destruct (Nat.eqb_spec (length (setDelete ws conns)) 0) as [H0|H0].
    + lia.
    + rewrite count_insert. lia.
  - rewrite Nat.add_0_r. unfold handleDisconnection.
    destruct (socks st !! ws) as [s|] eqn:Hs; [|reflexivity].
    destruct (ws_userId s) as [u|] eqn:Hu; [|reflexivity].
    destruct (clients st !! u) as [conns|] eqn:Hc; [|reflexivity].
    assert (Hnin : ws ∉ conns) by (intros Hin; apply Hno; now exists u, conns).
    rewrite (setDelete_absent _ _ Hnin).
    destruct (Hr u conns Hc) as (Hne & _).
    destruct (Nat.eqb_spec (length conns) 0) as [H0|H0].
    + destruct conns; [contradiction|discriminate].
    + rewrite !getClientCount_sum. cbn [clients]. now rewrite insert_id.
Qed.


Lemma wf_set_known st u conns c :
  wf st -> clients st !! u = Some conns -> c ∈ conns -> is_Some (socks st !! c).
Proof.
  intros (_ & _ & Hr & _) Hc Hin. destruct (Hr u conns Hc) as (_ & _ & H).
  destruct (H c Hin) as (s & Hs & _). eauto.
Qed.

(** The lookup that finds the user of a suspended handshake adds one
    connection. *)
Lemma getClientCount_resume st ws u :
  wf st -> pending st ws u ->
  getClientCount (resumeConnection st ws UserFound).2 = S (getClientCount st).
Proof.
  intros Hwf Hp. unfold pending in Hp.
  pose proof Hwf as (_ & _ & Hr & Ha). destruct (Ha ws u Hp) as (s & Hs & Hnone).
  unfold Registry.resumeConnection. rewrite Hp, Hs. cbn [snd].
  rewrite !getClientCount_sum. cbn [clients]. rewrite count_insert.
  destruct (clients st !! u) as [conns|] eqn:Hc; simpl.
  - rewrite (count_delete _ _ _ Hc).
    assert (Hnin : ws ∉ conns).
    { intros Hin. destruct (Hr u conns Hc) as (_ & _ & H).
      destruct (H ws Hin) as (s' & Hs' & Hu'). congruence. }
    unfold setAdd. rewrite bool_decide_eq_false_2 by exact Hnin.
    rewrite length_app. simpl. lia.
  - rewrite delete_id by exact Hc. reflexivity.
Qed.

(** X20.  [getClientCount] counts every registered connection once.  It is 0 for
    the server without connections.  In every state the server can reach,
    the 'connection' event leaves it as it is, whatever the token; the
    lookup that finds the user of a suspended handshake -- the handshake is
    accepted -- raises it by exactly one, and a lookup that fails -- the
    handshake is refused -- leaves it as it is; the close -- or the error --
    of a registered connection lowers it by exactly one, and a close or
    error event of a socket that is not (or no longer) registered does not
    change it. *)
Theorem getClientCount_counts_connections (history : list Event) :
  let st := exec Registry.empty history in
  getClientCount Registry.empty = 0
  /\ (forall h, getClientCount (handleConnection st h).2 = getClientCount st)
  /\ (forall ws u, pending st ws u ->
        getClientCount (resumeConnection st ws UserFound).2 = S (getClientCount st))
  /\ (forall ws r, r <> UserFound ->
        getClientCount (resumeConnection st ws r).2 = getClientCount st)
  /\ (forall ws, registered st ws ->
        S (getClientCount (onClose st ws)) = getClientCount st
        /\ S (getClientCount (onError st ws)) = getClientCount st)
  /\ (forall ws, ~ registered st ws ->
        getClientCount (onClose st ws) = getClientCount st
        /\ getClientCount (onError st ws) = getClientCount st).
Proof.
  intros st. assert (Hwf : wf st) by (apply wf_exec, wf_empty).
  assert (Hclose : forall ws, getClientCount (onClose st ws)
                              = getClientCount (handleDisconnection st ws)).
  { intros ws. unfold getClientCount. now rewrite onClose_clients. }
  split; [reflexivity|]. split; [|split; [|split; [|split]]].
  - intros h. now destruct h.
  - intros ws u Hp. exact (getClientCount_resume st ws u Hwf Hp).
  - intros ws r Hr. unfold getClientCount.
    now rewrite (proj1 (resumeConnection_failed st ws r Hr)).
  - intros ws Hreg. pose proof (getClientCount_handleDisconnection st ws Hwf) as H.
    rewrite decide_True in H by exact Hreg. rewrite Hclose. unfold onError.
    split; lia.
  - intros ws Hno. pose proof (getClientCount_handleDisconnection st ws Hwf) as H.
    rewrite decide_False in H by exact Hno. rewrite Hclose. unfold onError.
    split; lia.
Qed.

(** ** Sockets that are never served *)

Lemma onClose_userId st ws c :
  ws_userId <$> socks (onClose st ws) !! c = ws_userId <$> socks st !! c.
Proof.
  unfold onClose. destruct (socks st !! ws) as [s|] eqn:Hs; [|reflexivity].
  cbn [socks]. rewrite handleDisconnection_socks.
  destruct (decide (ws = c)) as [->|Hne].
  - now rewrite lookup_insert_eq, Hs.
  - now rewrite lookup_insert_ne.
Qed.

Lemma foldl_onClose_userId l st c :
  ws_userId <$> socks (foldl onClose st l) !! c = ws_userId <$> socks st !! c.
Proof.
  revert st. induction l as [|x l IH]; intros st; [reflexivity|].
  simpl. now rewrite IH, onClose_userId.
Qed.

(** The [userId] of a socket is set when its handshake is accepted, and
    never changes afterwards. *)
Lemma userId_step st ev ws :
  wf st -> is_Some (socks st !! ws) -> awaiting st !! ws = None ->
  ws_userId <$> socks (step st ev).2 !! ws = ws_userId <$> socks st !! ws.
Proof.
  intros Hwf Hk Hidle. pose proof (known_not_new st ws Hk) as Hnew.
  destruct ev as [h|c r|c|c data|c|c| |u m]; simpl; try reflexivity.
  - destruct h; simpl; now rewrite lookup_insert_ne.
  - destruct (decide (c = ws)) as [->|Hne].
    + now rewrite resumeConnection_idle.
    + now rewrite resumeConnection_socks.
  - unfold onPong. destruct (socks st !! c) as [s|] eqn:Hs; [|reflexivity].
    destruct (ws_userId s) eqn:Hu; [|reflexivity]. simpl.
    destruct (decide (c = ws)) as [->|Hne].
    + rewrite lookup_insert_eq, Hs. simpl. congruence.
    + now rewrite lookup_insert_ne.
  - apply onClose_userId.
  - unfold onError. now rewrite handleDisconnection_socks.
  - destruct (heartbeat_eq st Hwf) as (st1 & -> & _ & _ & _ & _ & Hin & Hout). simpl.
    rewrite foldl_onClose_userId.
    destruct (decide (ws ∈ wssClients st)) as [Hc|Hc].
    + rewrite (Hin ws Hc). now destruct (socks st !! ws).
    + now rewrite (Hout ws Hc).
Qed.

Lemma heartbeat_probes st o :
  wf st -> o ∈ (heartbeat st).1 ->
  exists ws, ws ∈ wssClients st /\ (o = Ping ws \/ o = Terminate ws).
Proof.
  intros Hwf Ho. destruct (heartbeat_eq st Hwf) as (st1 & E & _).
  rewrite E in Ho. simpl in Ho. apply list_elem_of_fmap in Ho as (ws & -> & Hin).
  exists ws. split; [exact Hin|]. unfold Registry.probe. destruct (flagged st ws); auto.
Qed.

(** Whatever is sent goes to a socket that carries a [userId]. *)
Lemma step_sends st ev ws p :
  wf st -> Send ws p ∈ (step st ev).1 ->
  exists s u, socks (step st ev).2 !! ws = Some s /\ ws_userId s = Some u.
Proof.
  intros Hwf Hin. destruct ev as [h|c r|c|c data|c|c| |u m]; simpl in *;
    try (now inversion Hin).
  - destruct h; simpl in *; try (now inversion Hin);
      apply list_elem_of_singleton in Hin; discriminate Hin.
  - unfold Registry.resumeConnection in *.
    destruct (awaiting st !! c) as [u|]; [|now inversion Hin].
    destruct (socks st !! c) as [s0|]; [|now inversion Hin].
    destruct r; simpl in *;
      try (apply list_elem_of_singleton in Hin; discriminate Hin).
    apply elem_of_cons in Hin as [Hin|Hin]; [discriminate|].
    apply list_elem_of_singleton in Hin. injection Hin as -> ->.
    rewrite lookup_insert_eq. eauto.
  - unfold Registry.onMessage in Hin. destruct (socks st !! c) as [s|] eqn:Hs; [|inversion Hin].
    destruct (ws_userId s) as [u|] eqn:Hu; [|inversion Hin].
    destruct data as [ty|]; [|inversion Hin].
    case_bool_decide; [|inversion Hin].
    apply elem_of_cons in Hin as [Hin|Hin]; [discriminate|].
    apply list_elem_of_singleton in Hin. injection Hin as -> ->. eauto.
  - apply heartbeat_probes in Hin as (c & _ & [E|E]); [discriminate..|exact Hwf].
  - apply broadcastToUser_sends in Hin as (_ & _ & conns & Hc & Hin).
    destruct Hwf as (_ & _ & Hr & _). destruct (Hr u conns Hc) as (_ & _ & H).
    destruct (H ws Hin) as (s & Hs & Hu). eauto.
Qed.

Lemma refused_step st ev ws :
  wf st -> refused st ws ->
  refused (step st ev).2 ws /\ forall p, Send ws p ∉ (step st ev).1.
Proof.
  intros Hwf ((s & Hs & Hu) & Hidle).
  assert (Hk : is_Some (socks st !! ws)) by eauto.
  pose proof (userId_step st ev ws Hwf Hk Hidle) as E. rewrite Hs in E. simpl in E.
  assert (Hr : refused (step st ev).2 ws).
  { split; [|now apply idle_step].
    destruct (socks (step st ev).2 !! ws) as [s'|] eqn:Hs'; [|discriminate].
    exists s'. split; [reflexivity|]. simpl in E. congruence. }
  split; [exact Hr|]. intros p Hin.
  destruct (step_sends st ev ws p Hwf Hin) as (s1 & u & Hs1 & Hu1).
  destruct Hr as ((s2 & Hs2 & Hu2) & _). congruence.
Qed.

Lemma refused_run evs st ws :
  wf st -> refused st ws ->
  refused (exec st evs) ws /\ forall p, Send ws p ∉ (run st evs).1.
Proof.
  revert st. induction evs as [|ev rest IH]; intros st Hwf Hr.
  - split; [exact Hr|]. intros p H. inversion H.
  - destruct (refused_step st ev ws Hwf Hr) as [Hr1 Hno].
    destruct (IH _ (wf_step st ev Hwf) Hr1) as [Hr2 Hno2].
    rewrite exec_cons, run_cons. split; [exact Hr2|].
    intros p [H|H]%elem_of_app; [now apply (Hno p)|now apply (Hno2 p)].
Qed.

(** A refused socket is never sent anything, by no event and no broadcast. *)
Lemma refused_never_served evs st ws :
  wf st -> refused st ws ->
  (forall p, Send ws p ∉ (run st evs).1)
  /\ (forall m p, Send ws p ∉ broadcast (exec st evs) m).
Proof.
  intros Hwf Hr. destruct (refused_run evs st ws Hwf Hr) as [Hr2 Hno].
  split; [exact Hno|].
  intros m p Hin. apply Send_deliveries, broadcast_elem in Hin as (_ & Hreg & _).
  assert (Hwf2 : wf (exec st evs)) by now apply wf_exec.
  destruct (wf_registered_socket _ _ Hwf2 Hreg) as (s & u & _ & Hs & Hu & _).
  destruct Hr2 as ((s2 & Hs2 & Hu2) & _). congruence.
Qed.

(** X21.  A connection whose handshake is refused -- no token, an invalid token,
    an exception, or, when the lookup settles, an unknown user or a lookup
    that fails -- is closed with code 1008 or 1011 and is not entered in the
    registry; and whatever happens afterwards, the server never sends
    anything to it: no welcome, no PONG, no event of [broadcastToUser] or
    [broadcast]. *)
Theorem refused_connection_is_never_served
    (history evs : list Event) (h : Handshake)
    (Hrefused : forall u, h <> Verified u) :
  let st := exec Registry.empty history in
  let ws := newSocket st in
  let st1 := (handleConnection st h).2 in
  (exists code reason,
      (handleConnection st h).1 = [CloseWith ws code reason]
      /\ (code = 1008 \/ code = 1011))
  /\ clients st1 = clients st
  /\ (forall p, Send ws p ∉ (run st1 evs).1)
  /\ (forall m p, Send ws p ∉ broadcast (exec st1 evs) m)
  /\ (forall c u r, pending st c u -> r <> UserFound ->
        let st2 := (resumeConnection st c r).2 in
        (exists code reason,
            (resumeConnection st c r).1 = [CloseWith c code reason]
            /\ (code = 1008 \/ code = 1011))
        /\ clients st2 = clients st
        /\ (forall p, Send c p ∉ (run st2 evs).1)
        /\ (forall m p, Send c p ∉ broadcast (exec st2 evs) m)).
Proof.
  intros st ws st1. assert (Hwf : wf st) by (apply wf_exec, wf_empty).
  assert (Hwf1 : wf st1) by (apply wf_handleConnection, Hwf).
  assert (Hr : refused st1 ws).
  { split.
    - subst st1 ws. destruct h; try (now destruct (Hrefused userId)); simpl;
        (eexists; split; [apply lookup_insert_eq|reflexivity]).
    - subst st1 ws. destruct h; try (now destruct (Hrefused userId)); simpl;
        now apply wf_newSocket_idle. }
  destruct (refused_never_served evs st1 ws Hwf1 Hr) as [Hno Hnob].
  split; [|split; [|split; [exact Hno|split; [exact Hnob|]]]].
  - subst ws. destruct h; try (now destruct (Hrefused userId)); simpl;
      eexists _, _; (split; [reflexivity|]); auto.
  - subst st1. now destruct h.
  - intros c u r Hp Hfail st2. unfold pending in Hp.
    assert (Hwf2 : wf st2) by (apply wf_resumeConnection, Hwf).
    pose proof Hwf as (_ & _ & _ & Ha). destruct (Ha c u Hp) as (s & Hs & Hnone).
    assert (Hr2 : refused st2 c).
    { subst st2. unfold Registry.resumeConnection. rewrite Hp, Hs.
      destruct r; [contradiction| |]; simpl;
        (split; [eexists; split; [apply lookup_insert_eq|exact Hnone]
                |apply lookup_delete_eq]). }
    destruct (refused_never_served evs st2 c Hwf2 Hr2) as [Hno2 Hnob2].
    split; [|split; [|split; [exact Hno2|exact Hnob2]]].
    + unfold Registry.resumeConnection. rewrite Hp, Hs.
      destruct r; [contradiction| |]; simpl;
        eexists _, _; (split; [reflexivity|]); auto.
    + subst st2. apply resumeConnection_failed, Hfail.
Qed.

(** X22.  A connection that has closed is forgotten for good.  Once the 'close'
    event of a tracked connection whose handshake is over has been handled,
    the connection is neither tracked nor registered, and in whatever state
    the server is later, [broadcastToUser] and [broadcast] send nothing to
    it and the heartbeat neither pings nor terminates it. *)
Theorem closed_connection_is_forgotten
    (history evs : list Event) (ws : ConnId)
    (Htracked : ws ∈ wssClients (exec Registry.empty history))
    (Hsettled : awaiting (exec Registry.empty history) !! ws = None) :
  let st := exec Registry.empty history in
  let st' := exec (onClose st ws) evs in
  (ws ∉ wssClients st') /\ ~ registered st' ws
  /\ (forall u m p, Send ws p ∉ broadcastToUser st' u m)
  /\ (forall m p, Send ws p ∉ broadcast st' m)
  /\ (Ping ws ∉ (heartbeat st').1) /\ (Terminate ws ∉ (heartbeat st').1).
Proof.
  intros st st'. assert (Hwf : wf st) by (apply wf_exec, wf_empty).
  assert (Hk : is_Some (socks st !! ws)) by (destruct Hwf as (_ & Hk & _); now apply Hk).
  assert (Hwf1 : wf (onClose st ws)) by now apply wf_onClose.
  assert (Hk1 : is_Some (socks (onClose st ws) !! ws))
    by (apply (known_step st (EClose ws)); assumption).
  assert (Hgone : (ws ∉ wssClients st') /\ ~ registered st' ws).
  { apply gone_exec; [exact Hwf1|exact Hk1| | |].
    - now rewrite onClose_awaiting.
    - now apply onClose_untracks.
    - now apply unregistered_onClose. }
  destruct Hgone as [Hu Hnr].
  assert (Hwf' : wf st') by now apply wf_exec.
  split; [exact Hu|]. split; [exact Hnr|]. split; [|split; [|split]].
  - intros u m p Hin. apply broadcastToUser_sends in Hin as (_ & _ & conns & Hc & Hin).
    apply Hnr. now exists u, conns.
  - intros m p Hin. apply Send_deliveries, broadcast_elem in Hin as (_ & Hreg & _).
    contradiction.
  - intros Hin. apply (heartbeat_probes st' _ Hwf') in Hin as (c & Hc & [E|E]);
      [injection E as <-; contradiction|discriminate].
  - intros Hin. apply (heartbeat_probes st' _ Hwf') in Hin as (c & Hc & [E|E]);
      [discriminate|injection E as <-; contradiction].
Qed.

(** ** A new connection *)

Lemma flat_map_sends_ext st st' payload (conns : list ConnId) :
  (forall c, c ∈ conns -> isOpen st' c = isOpen st c) ->
  flat_map (fun ws => if isOpen st' ws then [Send (Message := Message) ws payload] else [])
    conns
  = flat_map (fun ws => if isOpen st ws then [Send ws payload] else []) conns.
Proof.
  induction conns as [|c conns IH]; intros H; [reflexivity|].
  simpl. rewrite (H c) by now left. f_equal. apply IH. intros c0 H0. apply H. now right.
Qed.

(** X23.  An accepted connection is served from then on.  The 'connection'
    event with a verified token sends nothing and suspends the handshake of
    the new, open socket at the lookup.  When the lookup finds the user, the
    handshake answers the socket with one CONNECTED message, serialized
    once, and enters it in the registry, open or not.  From the state after
    it, an event for the user is delivered to the connections that received
    it before, in the same order, and then to the new one if its transport
    is open; events for other users go exactly where they went before. *)
Theorem accepted_connection_is_served
    (history : list Event) (ws : ConnId) (u : ObjectId) (m : Message)
    (Hpending : pending (exec Registry.empty history) ws u) :
  let st := exec Registry.empty history in
  let st1 := (resumeConnection st ws UserFound).2 in
  (forall u0,
      let st0 := (handleConnection st (Verified u0)).2 in
      (handleConnection st (Verified u0)).1 = []
      /\ pending st0 (newSocket st) u0
      /\ isOpen st0 (newSocket st) = true
      /\ ~ registered st0 (newSocket st))
  /\ (resumeConnection st ws UserFound).1
     = [Stringify (connectedMsg u); Send ws (stringify (connectedMsg u))]
  /\ registered st1 ws /\ authenticated st1 ws /\ isOpen st1 ws = isOpen st ws
  /\ serializations (broadcastToUser st1 u m) = [m]
  /\ deliveries (broadcastToUser st1 u m)
     = deliveries (broadcastToUser st u m)
       ++ (if isOpen st ws then [(ws, stringify m)] else [])
  /\ (forall u', u' <> u -> broadcastToUser st1 u' m = broadcastToUser st u' m).
Proof.
  intros st st1. assert (Hwf : wf st) by (apply wf_exec, wf_empty).
  unfold pending in Hpending. fold st in Hpending.
  pose proof Hwf as (_ & _ & Hr & Ha). destruct (Ha ws u Hpending) as (s & Hs & Hnone).
  assert (E1 : resumeConnection st ws UserFound
               = ([Stringify (connectedMsg u); Send ws (stringify (connectedMsg u))],
                  {| socks := <[ws := {| ws_userId := Some u; isAlive := Some true;
                                         readyState := readyState s |}]> (socks st);
                     clients := <[u := setAdd ws (default [] (clients st !! u))]> (clients st);
                     wssClients := wssClients st;
                     awaiting := delete ws (awaiting st) |})).
  { unfold Registry.resumeConnection. now rewrite Hpending, Hs. }
  assert (Hopen : forall c, isOpen st1 c = isOpen st c).
  { intros c. unfold isOpen. subst st1. rewrite E1. simpl.
    destruct (decide (ws = c)) as [<-|Hne].
    - now rewrite lookup_insert_eq, Hs.
    - now rewrite lookup_insert_ne by exact Hne. }
  assert (Hnin : ws ∉ default [] (clients st !! u)).
  { intros Hin. destruct (clients st !! u) as [conns|] eqn:Hc; simpl in Hin;
      [|inversion Hin].
    destruct (Hr u conns Hc) as (_ & _ & H). destruct (H ws Hin) as (s' & Hs' & Hu').
    congruence. }
  assert (Hset : clients st1 !! u = Some (default [] (clients st !! u) ++ [ws])).
  { subst st1. rewrite E1. simpl. rewrite lookup_insert_eq. f_equal. unfold setAdd.
    now rewrite bool_decide_eq_false_2. }
  split; [|split; [now rewrite E1|split; [|split; [|split; [apply Hopen|split; [|split]]]]]].
  - intros u0 st0. subst st0. simpl. split; [reflexivity|]. split; [|split].
    + unfold pending. simpl. apply lookup_insert_eq.
    + unfold isOpen. simpl. now rewrite lookup_insert_eq.
    + intros (u' & conns & Hc & Hin). simpl in Hc.
      apply (known_not_new st (newSocket st)); [|reflexivity].
      now apply (wf_set_known st u' conns).
  - exists u, (default [] (clients st !! u) ++ [ws]). split; [exact Hset|].
    apply elem_of_app. right. now left.
  - subst st1. rewrite E1. simpl. eexists _, u. split; [apply lookup_insert_eq|reflexivity].
  - unfold Registry.broadcastToUser. rewrite Hset.
    change (serializations (Stringify m :: ?l)) with (m :: serializations l).
    now rewrite serializations_flat_map.
  - unfold Registry.broadcastToUser. rewrite Hset.
    change (deliveries (Stringify m :: ?l)) with (deliveries l).
    rewrite flat_map_app, deliveries_app. simpl. rewrite Hopen.
    assert (E2 : deliveries (if isOpen st ws then [Send ws (stringify m)] else [] ++ [])
                 = if isOpen st ws then [(ws, stringify m)] else [])
      by now destruct (isOpen st ws).
    rewrite app_nil_r in E2 |- *. rewrite E2. f_equal.
    destruct (clients st !! u) as [conns|] eqn:Hc; simpl; [|reflexivity].
    change (deliveries (Stringify m :: ?l)) with (deliveries l). f_equal.
    apply flat_map_sends_ext. intros c Hin. apply Hopen.
  - intros u' Hne. unfold Registry.broadcastToUser.
    assert (E : clients st1 !! u' = clients st !! u')
      by (subst st1; rewrite E1; simpl; now rewrite lookup_insert_ne by congruence).
    rewrite E. destruct (clients st !! u') as [conns|] eqn:Hc; [|reflexivity].
    f_equal. apply flat_map_sends_ext. intros c Hin. apply Hopen.
Qed.

(** ** A socket that closes during its handshake *)

Lemma registered_keep_handleDisconnection st c ws :
  c <> ws -> registered st ws -> registered (handleDisconnection st c) ws.
Proof.
  intros Hne (u & conns & Hc & Hin). unfold handleDisconnection.
  destruct (socks st !! c) as [s|]; [|now exists u, conns].
  destruct (ws_userId s) as [u'|]; [|now exists u, conns].
  destruct (clients st !! u') as [conns'|] eqn:Hc'; [|now exists u, conns].
  destruct (decide (u' = u)) as [->|Hu].
  - assert (conns' = conns) by congruence. subst conns'.
    assert (Hin' : ws ∈ setDelete c conns) by (apply elem_of_setDelete; split; congruence).
    destruct (Nat.eqb_spec (length (setDelete c conns)) 0) as [H0|H0].
    + destruct (setDelete c conns); [inversion Hin'|discriminate H0].
    + exists u, (setDelete c conns). simpl. split; [apply lookup_insert_eq|exact Hin'].
  - exists u, conns. simpl. split; [|exact Hin].
    destruct (length (setDelete c conns') =? 0).
    + now rewrite lookup_delete_ne.
    + now rewrite lookup_insert_ne.
Qed.

Lemma registered_keep_onClose st c ws :
  c <> ws -> registered st ws -> registered (onClose st c) ws.
Proof.
  intros Hne Hr.
  destruct (registered_keep_handleDisconnection st c ws Hne Hr) as (u & conns & Hc & Hin).
  exists u, conns. split; [now rewrite onClose_clients|exact Hin].
Qed.

Lemma registered_keep_foldl_onClose l st ws :
  ws ∉ l -> registered st ws -> registered (foldl onClose st l) ws.
Proof.
  revert st. induction l as [|x l IH]; intros st Hn Hr; simpl; [exact Hr|].
  apply not_elem_of_cons in Hn as [Hne Hn].
  apply IH; [exact Hn|]. apply registered_keep_onClose; [congruence|exact Hr].
Qed.

(** Only its own 'close' or 'error' event takes a socket out of the
    registry, or a sweep that tracks it. *)
Lemma registered_keep_step st ev ws :
  wf st -> ws ∉ wssClients st -> ev <> EClose ws -> ev <> EError ws ->
  registered st ws -> registered (step st ev).2 ws.
Proof.
  intros Hwf Hu Hc He Hr.
  destruct ev as [h|c r|c|c data|c|c| |u m]; simpl; try exact Hr.
  - destruct Hr as (u & conns & Hl & Hin). exists u, conns. now destruct h.
  - destruct Hr as (u & conns & Hl & Hin). unfold Registry.resumeConnection.
    destruct (awaiting st !! c) as [u0|]; [|now exists u, conns].
    destruct (socks st !! c) as [s|]; [|now exists u, conns].
    destruct r; simpl; try (now exists u, conns).
    destruct (decide (u0 = u)) as [->|Hne].
    + exists u, (setAdd c (default [] (clients st !! u))). simpl.
      split; [apply lookup_insert_eq|]. rewrite Hl. simpl.
      apply elem_of_setAdd. now right.
    + exists u, conns. simpl. split; [|exact Hin]. now rewrite lookup_insert_ne.
  - destruct Hr as (u & conns & Hl & Hin). exists u, conns. unfold onPong.
    destruct (socks st !! c) as [s|]; [|now split]. now destruct (ws_userId s).
  - apply registered_keep_onClose; [congruence|exact Hr].
  - apply registered_keep_handleDisconnection; [congruence|exact Hr].
  - destruct (heartbeat_eq st Hwf) as (st1 & -> & _ & _ & Hcl & _). simpl.
    apply registered_keep_foldl_onClose.
    + now intros [_ H]%list_elem_of_filter.
    + destruct Hr as (u & conns & Hl & Hin). exists u, conns. now rewrite Hcl.
Qed.

Lemma not_open_onClose st c ws : isOpen st ws = false -> isOpen (onClose st c) ws = false.
Proof.
  intros H. unfold onClose. destruct (socks st !! c) as [s|]; [|exact H].
  unfold isOpen in *. simpl. rewrite handleDisconnection_socks.
  destruct (decide (c = ws)) as [->|Hne].
  - now rewrite lookup_insert_eq.
  - now rewrite lookup_insert_ne.
Qed.

Lemma not_open_foldl_onClose l st ws :
  isOpen st ws = false -> isOpen (foldl onClose st l) ws = false.
Proof.
  revert st. induction l as [|x l IH]; intros st H; simpl; [exact H|].
  now apply IH, not_open_onClose.
Qed.

(** A known socket that is not open does not open again. *)
Lemma not_open_step st ev ws :
  wf st -> is_Some (socks st !! ws) -> isOpen st ws = false ->
  isOpen (step st ev).2 ws = false.
Proof.
  intros Hwf Hk Ho. pose proof (known_not_new st ws Hk) as Hnew.
  destruct ev as [h|c r|c|c data|c|c| |u m]; simpl; try exact Ho.
  - unfold isOpen in *. destruct h; simpl; now rewrite lookup_insert_ne.
  - unfold isOpen in *. unfold Registry.resumeConnection.
    destruct (awaiting st !! c) as [u0|]; [|exact Ho].
    destruct (socks st !! c) as [s|] eqn:Hs; [|exact Ho].
    destruct r; simpl;
      (destruct (decide (c = ws)) as [->|Hne];
       [rewrite lookup_insert_eq; rewrite Hs in Ho; simpl;
        repeat case_bool_decide; congruence
       |now rewrite lookup_insert_ne]).
  - unfold isOpen, onPong in *. destruct (socks st !! c) as [s|] eqn:Hs; [|exact Ho].
    destruct (ws_userId s); [|exact Ho]. simpl.
    destruct (decide (c = ws)) as [->|Hne].
    + rewrite lookup_insert_eq. now rewrite Hs in Ho.
    + now rewrite lookup_insert_ne.
  - now apply not_open_onClose.
  - unfold isOpen, onError in *. now rewrite handleDisconnection_socks.
  - destruct (heartbeat_eq st Hwf) as (st1 & -> & _ & _ & _ & _ & Hin & Hout). simpl.
    apply not_open_foldl_onClose. unfold isOpen in *.
    destruct (decide (ws ∈ wssClients st)) as [Hc|Hc].
    + rewrite (Hin ws Hc). now destruct (socks st !! ws).
    + now rewrite (Hout ws Hc).
Qed.

Lemma stale_exec evs st ws :
  wf st -> is_Some (socks st !! ws) -> ws ∉ wssClients st ->
  isOpen st ws = false -> registered st ws ->
  EClose ws ∉ evs -> EError ws ∉ evs ->
  registered (exec st evs) ws /\ isOpen (exec st evs) ws = false.
Proof.
  revert st. induction evs as [|ev rest IH]; intros st Hwf Hk Hu Ho Hr Hc He; [now split|].
  apply not_elem_of_cons in Hc as [Hc1 Hc], He as [He1 He].
  rewrite exec_cons. apply IH; try assumption.
  - now apply wf_step.
  - now apply known_step.
  - now apply untracked_step.
  - now apply not_open_step.
  - apply registered_keep_step; try assumption; congruence.
Qed.

(** X30.  A socket that closes while its handshake waits for the lookup is
    entered in the registry all the same.  Let the handshake of [ws] be
    suspended at the lookup of user [u], and let the socket close: it is no
    longer tracked, and the handshake is still suspended.  When the lookup
    then finds the user, the greeting is serialized and handed to the
    socket, and the socket is registered: [getClientCount] grows by one.
    Whatever happens afterwards, short of another 'close' or 'error' event
    of that socket, it stays registered, it is not tracked and not open, no
    event of [broadcastToUser] is sent to it, and the sweep neither probes
    nor terminates it. *)
Theorem closed_during_handshake_stays_registered
    (history evs : list Event) (ws : ConnId) (u : ObjectId)
    (Hpending : pending (exec Registry.empty history) ws u)
    (Hquiet : (EClose ws ∉ evs) /\ (EError ws ∉ evs)) :
  let st := exec Registry.empty history in
  let st1 := onClose st ws in
  let st2 := (resumeConnection st1 ws UserFound).2 in
  let st3 := exec st2 evs in
  (ws ∉ wssClients st1) /\ pending st1 ws u /\ ~ registered st1 ws
  /\ (resumeConnection st1 ws UserFound).1
     = [Stringify (connectedMsg u); Send ws (stringify (connectedMsg u))]
  /\ getClientCount st2 = S (getClientCount st1)
  /\ registered st3 ws /\ (ws ∉ wssClients st3) /\ isOpen st3 ws = false
  /\ (forall u' m p, Send ws p ∉ broadcastToUser st3 u' m)
  /\ (Ping ws ∉ (heartbeat st3).1) /\ (Terminate ws ∉ (heartbeat st3).1).
Proof.
  intros st st1 st2 st3. destruct Hquiet as [Hc He].
  assert (Hwf : wf st) by (apply wf_exec, wf_empty).
  unfold pending in Hpending. fold st in Hpending.
  pose proof Hwf as (_ & _ & _ & Ha). destruct (Ha ws u Hpending) as (s & Hs & Hnone).
  assert (Hwf1 : wf st1) by now apply wf_onClose.
  assert (Hp1 : awaiting st1 !! ws = Some u) by (subst st1; now rewrite onClose_awaiting).
  assert (Hu1 : ws ∉ wssClients st1) by (apply onClose_untracks; eauto).
  assert (Hs1 : socks st1 !! ws
                = Some {| ws_userId := None; isAlive := isAlive s; readyState := CLOSED |}).
  { subst st1. unfold onClose. rewrite Hs. simpl. rewrite lookup_insert_eq.
    now rewrite Hnone. }
  assert (Hnr1 : ~ registered st1 ws) by (apply unregistered_onClose; eauto).
  assert (E2 : resumeConnection st1 ws UserFound
               = ([Stringify (connectedMsg u); Send ws (stringify (connectedMsg u))],
                  {| socks := <[ws := {| ws_userId := Some u; isAlive := Some true;
                                         readyState := CLOSED |}]> (socks st1);
                     clients := <[u := setAdd ws (default [] (clients st1 !! u))]>
                                  (clients st1);
                     wssClients := wssClients st1;
                     awaiting := delete ws (awaiting st1) |})).
  { unfold Registry.resumeConnection. now rewrite Hp1, Hs1. }
  assert (Hwf2 : wf st2) by (apply wf_resumeConnection, Hwf1).
  assert (Hk2 : is_Some (socks st2 !! ws)).
  { subst st2. rewrite E2. simpl. rewrite lookup_insert_eq. eauto. }
  assert (Hu2 : ws ∉ wssClients st2) by (subst st2; now rewrite E2).
  assert (Ho2 : isOpen st2 ws = false).
  { unfold isOpen. subst st2. rewrite E2. simpl. now rewrite lookup_insert_eq. }
  assert (Hr2 : registered st2 ws).
  { exists u, (setAdd ws (default [] (clients st1 !! u))). subst st2. rewrite E2. simpl.
    split; [apply lookup_insert_eq|]. apply elem_of_setAdd. now left. }
  destruct (stale_exec evs st2 ws Hwf2 Hk2 Hu2 Ho2 Hr2 Hc He) as [Hr3 Ho3].
  assert (Hwf3 : wf st3) by now apply wf_exec.
  assert (Hu3 : ws ∉ wssClients st3) by now apply untracked_exec.
  split; [exact Hu1|]. split; [exact Hp1|]. split; [exact Hnr1|].
  split; [now rewrite E2|]. split; [exact (getClientCount_resume st1 ws u Hwf1 Hp1)|].
  split; [exact Hr3|]. split; [exact Hu3|]. split; [exact Ho3|]. split; [|split].
  - intros u' m p Hin. apply broadcastToUser_sends in Hin as (_ & Hopen & _).
    fold st3 in Ho3. congruence.
  - intros Hin. apply (heartbeat_probes st3 _ Hwf3) in Hin as (c & Hcin & [E|E]);
      [injection E as <-; contradiction|discriminate].
  - intros Hin. apply (heartbeat_probes st3 _ Hwf3) in Hin as (c & Hcin & [E|E]);
      [discriminate|injection E as <-; contradiction].
Qed.

(** ** A connection that answers *)

Lemma authenticated_step st ev ws :
  wf st -> authenticated st ws -> authenticated (step st ev).2 ws.
Proof.
  intros Hwf Hauth. pose proof (wf_authenticated_idle st ws Hwf Hauth) as Hidle.
  destruct Hauth as (s & u & Hs & Hu).
  pose proof (userId_step st ev ws Hwf ltac:(eauto) Hidle) as E.
  rewrite Hs in E. simpl in E.
  destruct (socks (step st ev).2 !! ws) as [s'|] eqn:Hs'; [|discriminate].
  exists s', u. split; [exact Hs'|]. simpl in E. congruence.
Qed.

Lemma step_terminates st ev ws : Terminate ws ∈ (step st ev).1 -> ev = EHeartbeat.
Proof.
  destruct ev as [h|c r|c|c data|c|c| |u m]; simpl; intros Hin;
    try reflexivity; exfalso; try (now inversion Hin).
  - destruct h; simpl in Hin;
      repeat (apply elem_of_cons in Hin as [Hin|Hin]; [discriminate Hin|]);
      inversion Hin.
  - unfold Registry.resumeConnection in Hin.
    destruct (awaiting st !! c); [|now inversion Hin].
    destruct (socks st !! c); [|now inversion Hin].
    destruct r; simpl in Hin;
      repeat (apply elem_of_cons in Hin as [Hin|Hin]; [discriminate Hin|]);
      inversion Hin.
  - unfold Registry.onMessage in Hin. destruct (socks st !! c) as [s0|]; [|inversion Hin].
    destruct (ws_userId s0), data; try (now inversion Hin).
    case_bool_decide; [|inversion Hin].
    repeat (apply elem_of_cons in Hin as [Hin|Hin]; [discriminate Hin|]).
    inversion Hin.
  - unfold Registry.broadcastToUser in Hin.
    destruct (clients st !! u) as [conns|]; [|inversion Hin].
    apply elem_of_cons in Hin as [Hin|Hin]; [discriminate Hin|].
    apply list_elem_of_In, in_flat_map in Hin as (c & _ & Hin).
    destruct (isOpen st c); [|inversion Hin]. destruct Hin as [Hin|[]]. discriminate Hin.
Qed.

Lemma tracked_step st ev ws :
  wf st -> ws ∈ wssClients st -> ev <> EClose ws -> ev <> EHeartbeat ->
  ws ∈ wssClients (step st ev).2 /\ (Terminate ws ∉ (step st ev).1).
Proof.
  intros Hwf Hin Hc Hh. split; [|intros H; now apply step_terminates in H].
  destruct ev as [h|c r|c|c data|c|c| |u m]; simpl; try congruence.
  - destruct h; simpl; apply elem_of_app; now left.
  - now rewrite resumeConnection_wssClients.
  - unfold onPong. destruct (socks st !! c) as [s0|]; [|exact Hin].
    now destruct (ws_userId s0).
  - apply onClose_keeps_tracked; [congruence|exact Hin].
  - unfold onError. now rewrite handleDisconnection_wssClients.
Qed.

Lemma block_survives b st ws :
  wf st -> ws ∈ wssClients st -> authenticated st ws ->
  EClose ws ∉ b -> EHeartbeat ∉ b ->
  wf (exec st b) /\ ws ∈ wssClients (exec st b) /\ authenticated (exec st b) ws
  /\ (Terminate ws ∉ (run st b).1).
Proof.
  revert st. induction b as [|ev rest IH]; intros st Hwf Hin Ha Hc Hh.
  - split; [exact Hwf|]. split; [exact Hin|]. split; [exact Ha|]. intros H. inversion H.
  - apply not_elem_of_cons in Hc as [Hc1 Hc], Hh as [Hh1 Hh].
    destruct (tracked_step st ev ws Hwf Hin) as [Hin1 Hno1]; [congruence..|].
    destruct (IH (step st ev).2 (wf_step st ev Hwf) Hin1
                (authenticated_step st ev ws Hwf Ha) Hc Hh) as (H1 & H2 & H3 & H4).
    rewrite exec_cons, run_cons. split; [exact H1|]. split; [exact H2|].
    split; [exact H3|]. simpl. intros [H|H]%elem_of_app; contradiction.
Qed.

Lemma pong_then_sweep st ws :
  wf st -> ws ∈ wssClients st -> authenticated st ws ->
  let st1 := onPong st ws in
  Ping ws ∈ (heartbeat st1).1 /\ (Terminate ws ∉ (heartbeat st1).1)
  /\ wf (heartbeat st1).2 /\ ws ∈ wssClients (heartbeat st1).2
  /\ authenticated (heartbeat st1).2 ws.
Proof.
  intros Hwf Hin Ha st1.
  assert (Hwf1 : wf st1) by now apply wf_onPong.
  assert (Ha1 : authenticated st1 ws) by apply (authenticated_step st (EPong ws) ws Hwf Ha).
  assert (Hin1 : ws ∈ wssClients st1).
  { subst st1. unfold onPong. destruct (socks st !! ws) as [s|]; [|exact Hin].
    now destruct (ws_userId s). }
  assert (Hfl : flagged st1 ws = false).
  { destruct Ha as (s & u & Hs & Hu). subst st1. unfold onPong, flagged.
    rewrite Hs, Hu. simpl. now rewrite lookup_insert_eq. }
  destruct (heartbeat_alive st1 ws Hwf1 Hin1 Hfl) as (H1 & H2 & H3 & _).
  split; [exact H1|]. split; [exact H2|]. split; [now apply wf_heartbeat|].
  split; [exact H3|]. apply (authenticated_step st1 EHeartbeat ws Hwf1 Ha1).
Qed.

(** X24.  A connection that answers is kept.  Take an accepted connection that the
    server tracks, and let events come in rounds: anything except the close
    of that connection and a sweep, then a pong of the connection, then a
    sweep.  However many rounds there are, the connection is never
    terminated and is still tracked at the end; every sweep pings it. *)
Theorem answering_connection_is_kept
    (history : list Event) (blocks : list (list Event)) (ws : ConnId)
    (Htracked : ws ∈ wssClients (exec Registry.empty history))
    (Haccepted : authenticated (exec Registry.empty history) ws)
    (Hquiet : forall b, b ∈ blocks -> (EClose ws ∉ b) /\ (EHeartbeat ∉ b)) :
  let st := exec Registry.empty history in
  let evs := flat_map (fun b => b ++ [EPong ws; EHeartbeat]) blocks in
  (Terminate ws ∉ (run st evs).1)
  /\ ws ∈ wssClients (exec st evs)
  /\ (blocks <> [] -> Ping ws ∈ (run st evs).1).
Proof.
  intros st evs. assert (Hwf : wf st) by (apply wf_exec, wf_empty).
  subst evs. revert Hquiet Hwf Htracked Haccepted. fold st. generalize st. clear st.
  induction blocks as [|b rest IH]; intros st Hq Hwf Hin Ha.
  - split; [intros H; inversion H|]. split; [exact Hin|]. congruence.
  - destruct (Hq b ltac:(now left)) as [Hc Hh].
    destruct (block_survives b st ws Hwf Hin Ha Hc Hh) as (Hwf1 & Hin1 & Ha1 & Hno1).
    destruct (pong_then_sweep _ ws Hwf1 Hin1 Ha1) as (Hp & Hno2 & Hwf2 & Hin2 & Ha2).
    destruct (IH _ (fun b0 H0 => Hq b0 (list_elem_of_further _ _ _ H0)) Hwf2 Hin2 Ha2)
      as (Hno3 & Hin3 & _).
    assert (E : run st (b ++ [EPong ws; EHeartbeat])
                = ((run st b).1 ++ (heartbeat (onPong (exec st b) ws)).1,
                   (heartbeat (onPong (exec st b) ws)).2)).
    { rewrite run_app, run_cons. cbn [Registry.step fst snd].
      rewrite run_cons. cbn [Registry.step Registry.run fst snd].
      now rewrite !app_nil_r. }
    assert (E' : exec st (b ++ [EPong ws; EHeartbeat])
                 = (heartbeat (onPong (exec st b) ws)).2).
    { change (exec st (b ++ [EPong ws; EHeartbeat]))
        with (run st (b ++ [EPong ws; EHeartbeat])).2.
      now rewrite E. }
    cbn [flat_map].
    match goal with |- context [exec st (?x ++ ?y)] =>
      change (exec st (x ++ y)) with (run st (x ++ y)).2 end.
    rewrite !(run_app st (b ++ [EPong ws; EHeartbeat])), E', E. cbn [fst snd].
    split; [|split].
    + intros [[H|H]%elem_of_app|H]%elem_of_app; contradiction.
    + exact Hin3.
    + intros _. apply elem_of_app. left. apply elem_of_app. now right.
Qed.

End RegistryFacts.

(** * Properties of the reconnection controller *)

Section ClientFacts.

Import Client.

Lemma hook_run_cons h ev rest :
  run h (ev :: rest)
  = ((step h ev).1 ++ (run (step h ev).2 rest).1, (run (step h ev).2 rest).2).
Proof.
  simpl. destruct (step h ev) as [a h']. simpl. now destruct (run h' rest).
Qed.

Lemma hook_run_app h evs evs' :
  run h (evs ++ evs')
  = ((run h evs).1 ++ (run (run h evs).2 evs').1, (run (run h evs).2 evs').2).
Proof.
  revert h. induction evs as [|ev rest IH]; intros h.
  - simpl. now destruct (run h evs').
  - rewrite <- app_comm_cons, !hook_run_cons, IH. simpl. now rewrite app_assoc.
Qed.

Lemma scheduled_app a b : scheduled (a ++ b) = scheduled a ++ scheduled b.
Proof. unfold scheduled. apply omap_app. Qed.

Lemma attempted_app a b : attempted (a ++ b) = attempted a + attempted b.
Proof. unfold attempted. now rewrite List.filter_app, length_app. Qed.

(** ** Cleanup and effect, seen from outside *)

Lemma cleanupIfAny_quiet h :
  scheduled (cleanupIfAny h).1 = [] /\ attempted (cleanupIfAny h).1 = 0
  /\ reconnectAttemptsRef (cleanupIfAny h).2 = reconnectAttemptsRef h
  /\ cleanup (cleanupIfAny h).2 = false
  /\ unmounted (cleanupIfAny h).2 = unmounted h
  /\ token (cleanupIfAny h).2 = token h.
Proof.
  unfold cleanupIfAny, runCleanup. destruct (cleanup h) eqn:Hc.
  - destruct (wsRef h); simpl; now repeat split.
  - simpl. now repeat split.
Qed.

Lemma effect_quiet tok h :
  scheduled (effect tok h).1 = [] /\ attempted (effect tok h).1 = 0
  /\ reconnectAttemptsRef (effect tok h).2 = reconnectAttemptsRef h
  /\ unmounted (effect tok h).2 = unmounted h
  /\ token (effect tok h).2 = tok
  /\ (cleanup (effect tok h).2 = true -> hasToken tok = true).
Proof.
  unfold effect. destruct tok as [t|]; simpl.
  - destruct (bool_decide (t = "")) eqn:Ht; simpl; [now repeat split|].
    destruct (from_option (liveState h) false (wsRef h)); simpl; now repeat split.
  - now repeat split.
Qed.

(** ** One event: at most one reconnection is scheduled, with the next delay *)

Lemma step_schedule h ev :
  (forall id, ev <> Opened id) ->
  (scheduled (step h ev).1 = []
   /\ reconnectAttemptsRef (step h ev).2 = reconnectAttemptsRef h)
  \/ (scheduled (step h ev).1
      = [(baseDelay * Z.of_nat (S (reconnectAttemptsRef h)))%Z]
      /\ reconnectAttemptsRef (step h ev).2 = S (reconnectAttemptsRef h)
      /\ reconnectAttemptsRef h < maxAttempts
      /\ exists id code, ev = Closed id code /\ code <> cleanClose).
Proof.
  intros Hno. destruct ev as [tok| |id|id code|id data|id|timer]; simpl.
  - left. unfold render. destruct (unmounted h); [now split|].
    case_bool_decide; [now split|].
    destruct (cleanupIfAny_quiet h) as (Hs & _ & Ha & _).
    destruct (cleanupIfAny h) as [a1 h1]. simpl in *.
    destruct (effect_quiet tok h1) as (Hs2 & _ & Ha2 & _).
    destruct (effect tok h1) as [a2 h2]. simpl in *.
    rewrite scheduled_app, Hs, Hs2. split; [reflexivity|congruence].
  - left. unfold unmount. destruct (unmounted h); [now split|].
    destruct (cleanupIfAny_quiet h) as (Hs & _ & Ha & _).
    destruct (cleanupIfAny h) as [a1 h1]. simpl in *. now split.
  - exfalso. now apply (Hno id).
  - unfold onclose. destruct (sockets h !! id) as [w|]; [|left; now split].
    case_bool_decide; [left; now split|]. simpl.
    destruct (ws_onclose w); simpl; [|left; now split].
    destruct (mountedRef h); simpl; [|left; now split].
    case_bool_decide as Hcode; simpl; [left; now split|].
    destruct (Nat.ltb_spec (reconnectAttemptsRef h) maxAttempts) as [Hlt|Hge]; simpl;
      [|left; now split].
    destruct (bool_decide (ws_token w = "")); simpl; [left; now split|].
    right. rewrite Nat.add_1_r. split; [reflexivity|]. split; [reflexivity|].
    split; [exact Hlt|]. now exists id, code.
  - left. unfold onmessage. destruct (sockets h !! id), data; try now split.
    destruct (negb (mountedRef h)); [now split|].
    destruct (_ && _); now split.
  - left. now split.
  - left. unfold ontimeout. destruct (timers h !! timer); [|now split].
    destruct (mountedRef h && _); now split.
Qed.

(** Without an intervening open, the reconnections scheduled from a state
    with [a] attempts so far have the delays [baseDelay * (a+1)],
    [baseDelay * (a+2)], ... and the counter ends at [a] plus their number,
    which is at most [maxAttempts] once one was scheduled. *)
Lemma run_schedule evs h :
  (forall id, Opened id ∉ evs) ->
  let ds := scheduled (run h evs).1 in
  ds = (fun k => (baseDelay * Z.of_nat k)%Z)
         <$> seq (S (reconnectAttemptsRef h)) (length ds)
  /\ reconnectAttemptsRef (run h evs).2 = reconnectAttemptsRef h + length ds
  /\ (0 < length ds -> reconnectAttemptsRef h + length ds <= maxAttempts).
Proof.
  revert h. induction evs as [|ev rest IH]; intros h Hno; simpl.
  - split; [reflexivity|]. split; [lia|]. simpl. lia.
  - assert (Hno' : forall id, Opened id ∉ rest).
    { intros id Hin. apply (Hno id). now right. }
    assert (Hev : forall id, ev <> Opened id).
    { intros id ->. apply (Hno id). now left. }
    pose proof (hook_run_cons h ev rest) as Hrun. simpl in Hrun. rewrite Hrun. clear Hrun.
    simpl. rewrite scheduled_app.
    specialize (IH (step h ev).2 Hno'). simpl in IH.
    destruct IH as (IH1 & IH2 & IH3).
    destruct (step_schedule h ev Hev) as [(Hs & Ha)|(Hs & Ha & Hlt & _)].
    + rewrite Hs, Ha in *. simpl. now repeat split.
    + rewrite Hs, Ha in *. simpl. split; [|split].
      * f_equal. exact IH1.
      * lia.
      * intros _. destruct (length (scheduled (run (step h ev).2 rest).1)) eqn:Hl.
        -- lia.
        -- specialize (IH3 ltac:(lia)). lia.
Qed.

(** ** The invariant of the hook *)

Lemma quiet_Inv h : quiet h -> Inv h.
Proof.
  intros (Ha & Ht & Hc). split; [|split].
  - intros id H. now apply Ha in H.
  - intros t tok H. rewrite Ht, lookup_empty in H. discriminate.
  - congruence.
Qed.

Lemma Inv_idle_quiet h : Inv h -> cleanup h = false -> quiet h.
Proof.
  intros (H1 & H2 & _) Hc. split; [|split; [|exact Hc]].
  - intros id Ha. destruct (H1 id Ha) as (_ & ? & _). congruence.
  - apply map_eq. intros t. rewrite lookup_empty.
    destruct (timers h !! t) as [tok|] eqn:Ht; [|reflexivity].
    destruct (H2 t tok Ht). congruence.
Qed.

Lemma cleanupIfAny_makes_quiet h : Inv h -> quiet (cleanupIfAny h).2.
Proof.
  intros HI. pose proof HI as (H1 & H2 & H3).
  unfold cleanupIfAny. destruct (cleanup h) eqn:Hc; [|now apply Inv_idle_quiet].
  assert (Ht : match reconnectTimeoutRef h with
               | Some t => delete t (timers h)
               | None => timers h
               end = ∅).
  { apply map_eq. intros t. rewrite lookup_empty.
    destruct (reconnectTimeoutRef h) as [t0|] eqn:Hr.
    - destruct (decide (t0 = t)) as [->|Hne]; [apply lookup_delete_eq|].
      rewrite lookup_delete_ne by exact Hne.
      destruct (timers h !! t) as [tok|] eqn:Hl; [|reflexivity].
      destruct (H2 t tok Hl). congruence.
    - destruct (timers h !! t) as [tok|] eqn:Hl; [|reflexivity].
      destruct (H2 t tok Hl). congruence. }
  unfold runCleanup. destruct (wsRef h) as [id|] eqn:Hw; simpl.
  - split; [|split; [exact Ht|reflexivity]].
    intros id' (w' & Hl & Ho & Hs). simpl in Hl.
    destruct (sockets h !! id) as [w|] eqn:Hlid.
    + destruct (decide (id = id')) as [->|Hne].
      * rewrite lookup_insert_eq in Hl. injection Hl as <-. discriminate.
      * rewrite lookup_insert_ne in Hl by exact Hne.
        destruct (H1 id') as (Hw' & _); [now exists w'|]. congruence.
    + destruct (H1 id') as (Hw' & _); [now exists w'|]. congruence.
  - split; [|split; [exact Ht|reflexivity]].
    intros id' Ha. destruct (H1 id' Ha) as (Hw' & _). congruence.
Qed.

Lemma effect_Inv tok h : quiet h -> unmounted h = false -> Inv (effect tok h).2.
Proof.
  intros (Ha & Ht & Hc) Hu.
  assert (Hq : forall tk, quiet {| token := tk; sockets := sockets h; wsRef := wsRef h;
               reconnectTimeoutRef := reconnectTimeoutRef h; timers := timers h;
               reconnectAttemptsRef := reconnectAttemptsRef h;
               isConnected := isConnected h; mountedRef := true;
               cleanup := false; unmounted := unmounted h |}).
  { intros tk. split; [|split; [exact Ht|reflexivity]].
    intros id (w & Hl & Ho & Hs). apply (Ha id). now exists w. }
  unfold effect. destruct tok as [t|]; [|apply quiet_Inv, Hq].
  destruct (hasToken (Some t)) eqn:Htok; simpl; [|apply quiet_Inv, Hq].
  destruct (from_option (liveState h) false (wsRef h)); [apply quiet_Inv, Hq|].
  split; [|split]; simpl.
  - intros id (w & Hl & Ho & Hs). simpl in Hl.
    destruct (decide (fresh (dom (sockets h)) = id)) as [<-|Hne]; [now repeat split|].
    rewrite lookup_insert_ne in Hl by exact Hne.
    exfalso. apply (Ha id). now exists w.
  - intros tm tk H. rewrite Ht, lookup_empty in H. discriminate.
  - intros _. split; [exact Hu|exact Htok].
Qed.

Lemma Inv_step h ev : Inv h -> Inv (step h ev).2.
Proof.
  intros HI. pose proof HI as (H1 & H2 & H3).
  destruct ev as [tok| |id|id code|id data|id|timer]; simpl; try exact HI.
  - unfold render. destruct (unmounted h) eqn:Hu; [exact HI|].
    case_bool_decide; [exact HI|].
    pose proof (cleanupIfAny_makes_quiet h HI) as Hq.
    destruct (cleanupIfAny_quiet h) as (_ & _ & _ & _ & Hu' & _).
    destruct (cleanupIfAny h) as [a1 h1]. simpl in *.
    pose proof (effect_Inv tok h1 Hq ltac:(congruence)) as HI2.
    now destruct (effect tok h1).
  - unfold unmount. destruct (unmounted h) eqn:Hu; [exact HI|].
    pose proof (cleanupIfAny_makes_quiet h HI) as (Ha & Ht & Hc).
    destruct (cleanupIfAny h) as [a1 h1]. simpl in *.
    apply quiet_Inv. split; [|split; [exact Ht|exact Hc]].
    intros id (w & Hl & Ho & Hs). apply (Ha id). now exists w.
  - unfold onopen. destruct (sockets h !! id) as [w|] eqn:Hl; [|exact HI].
    case_bool_decide as Hst; [|exact HI].
    assert (Harm : forall id' w', <[id := {| ws_token := ws_token w; ws_readyState := OPEN;
                                             ws_onclose := ws_onclose w |}]> (sockets h) !! id'
                                   = Some w' ->
                    ws_onclose w' = true -> ws_readyState w' <> CLOSED -> armed h id').
    { intros id' w' Hl' Ho Hs. destruct (decide (id = id')) as [->|Hne].
      - rewrite lookup_insert_eq in Hl'. injection Hl' as <-. simpl in *.
        exists w. split; [exact Hl|]. split; [exact Ho|]. congruence.
      - rewrite lookup_insert_ne in Hl' by exact Hne. now exists w'. }
    destruct (negb (mountedRef _)); simpl;
      (split; [|split]; simpl;
       [intros id' (w' & Hl' & Ho & Hs); now apply H1, (Harm id' w')
       |exact H2|exact H3]).
  - unfold onclose. destruct (sockets h !! id) as [w|] eqn:Hl; [|exact HI].
    case_bool_decide as Hst; [exact HI|].
    assert (Hothers : forall id' w',
              <[id := {| ws_token := ws_token w; ws_readyState := CLOSED;
                         ws_onclose := ws_onclose w |}]> (sockets h) !! id' = Some w' ->
              ws_onclose w' = true -> ws_readyState w' <> CLOSED ->
              id' <> id /\ armed h id').
    { intros id' w' Hl' Ho Hs. destruct (decide (id = id')) as [->|Hne].
      - rewrite lookup_insert_eq in Hl'. injection Hl' as <-. simpl in Hs. congruence.
      - rewrite lookup_insert_ne in Hl' by exact Hne. split; [congruence|now exists w']. }
    assert (Hshrunk : Inv (setSocket id {| ws_token := ws_token w; ws_readyState := CLOSED;
                                           ws_onclose := ws_onclose w |} h)).
    { split; [|split]; simpl; [|exact H2|exact H3].
      intros id' (w' & Hl' & Ho & Hs). now apply H1, (Hothers id' w'). }
    destruct (ws_onclose w) eqn:Hon; simpl; [|exact Hshrunk].
    destruct (mountedRef h) eqn:Hm; simpl; [|exact Hshrunk].
    assert (Harm : armed h id) by (exists w; now repeat split).
    destruct (H1 id Harm) as (Hw & Hc & Ht).
    assert (Hnone : forall id', ~ armed (setSocket id {| ws_token := ws_token w;
                      ws_readyState := CLOSED; ws_onclose := true |} h) id').
    { intros id' (w' & Hl' & Ho & Hs). simpl in Hl'.
      destruct (Hothers id' w' Hl' Ho Hs) as (Hne & Ha').
      destruct (H1 id' Ha') as (Hw' & _). congruence. }
    destruct (_ && _); simpl.
    + split; [|split]; simpl.
      * intros id' Ha'. exfalso. apply (Hnone id'). exact Ha'.
      * intros t tok Hlt.
        destruct (decide (fresh (dom (timers h)) = t)) as [<-|Hne]; [now split|].
        rewrite lookup_insert_ne in Hlt by exact Hne.
        pose proof (f_equal (fun m : gmap nat string => m !! t) Ht) as E.
        simpl in E. rewrite lookup_empty in E. congruence.
      * exact H3.
    + split; [|split]; simpl.
      * intros id' Ha'. exfalso. apply (Hnone id'). exact Ha'.
      * exact H2.
      * exact H3.
  - unfold ontimeout. destruct (timers h !! timer) as [tok|] eqn:Hl; [|exact HI].
    assert (Hsub : forall t tk, delete timer (timers h) !! t = Some tk ->
                     timers h !! t = Some tk).
    { intros t tk Hd. destruct (decide (timer = t)) as [->|Hne].
      - rewrite lookup_delete_eq in Hd. discriminate.
      - now rewrite lookup_delete_ne in Hd. }
    destruct (mountedRef h && _); simpl;
      (split; [|split]; simpl;
       [intros id Ha; destruct (H1 id Ha) as (? & ? & Ht); rewrite Ht, lookup_empty in Hl;
        discriminate
       |intros t tk Hd; apply (H2 t tk), Hsub, Hd
       |exact H3]).
Qed.

Lemma Inv_initial : Inv initial.
Proof.
  apply quiet_Inv. split; [|now split].
  intros id (w & Hl & _). simpl in Hl. rewrite lookup_empty in Hl. discriminate.
Qed.

Lemma Inv_mount tok : Inv (mount tok).2.
Proof.
  apply effect_Inv; [|reflexivity].
  split; [|now split].
  intros id (w & Hl & _). simpl in Hl. rewrite lookup_empty in Hl. discriminate.
Qed.

Lemma Inv_run evs h : Inv h -> Inv (run h evs).2.
Proof.
  revert h. induction evs as [|ev rest IH]; intros h HI; [exact HI|].
  rewrite hook_run_cons. simpl. apply IH, Inv_step, HI.
Qed.

(** ** No reconnection while nothing is armed *)

Lemma quiet_calm h : quiet h -> calm h.
Proof. intros (Ha & Ht & _). now split. Qed.

Lemma Inv_no_token h : Inv h -> hasToken (token h) = false -> calm h.
Proof.
  intros HI Ht. apply quiet_calm, Inv_idle_quiet; [exact HI|].
  destruct HI as (_ & _ & H3). destruct (cleanup h); [|reflexivity].
  destruct (H3 eq_refl). congruence.
Qed.

Lemma Inv_unmounted h : Inv h -> unmounted h = true -> calm h.
Proof.
  intros HI Hu. apply quiet_calm, Inv_idle_quiet; [exact HI|].
  destruct HI as (_ & _ & H3). destruct (cleanup h); [|reflexivity].
  destruct (H3 eq_refl). congruence.
Qed.

Lemma unmounted_step h ev : unmounted h = true -> unmounted (step h ev).2 = true.
Proof.
  intros Hu. destruct ev as [tok| |id|id code|id data|id|timer]; simpl; try exact Hu.
  - unfold render. now rewrite Hu.
  - unfold unmount. now rewrite Hu.
  - unfold onopen. destruct (sockets h !! id); [|exact Hu].
    case_bool_decide; [|exact Hu]. now destruct (negb _).
  - unfold onclose. destruct (sockets h !! id) as [w|]; [|exact Hu].
    case_bool_decide; [exact Hu|]. destruct (negb (ws_onclose w)); [exact Hu|].
    destruct (negb _); [exact Hu|]. now destruct (_ && _).
  - unfold ontimeout. destruct (timers h !! timer); [|exact Hu]. now destruct (_ && _).
Qed.

Lemma cleanupIfAny_calm h : calm h -> calm (cleanupIfAny h).2.
Proof.
  intros (Ha & Ht). unfold cleanupIfAny. destruct (cleanup h); [|now split].
  assert (Ht' : match reconnectTimeoutRef h with
                | Some t => delete t (timers h)
                | None => timers h
                end = ∅).
  { destruct (reconnectTimeoutRef h) as [t|]; [|exact Ht].
    rewrite Ht. apply delete_empty. }
  unfold runCleanup. destruct (wsRef h) as [id|]; simpl; (split; [|exact Ht']).
  - intros id' (w' & Hl & Ho & Hs). simpl in Hl.
    destruct (sockets h !! id) as [w|] eqn:Hlid.
    + destruct (decide (id = id')) as [->|Hne].
      * rewrite lookup_insert_eq in Hl. injection Hl as <-. discriminate.
      * rewrite lookup_insert_ne in Hl by exact Hne. apply (Ha id'). now exists w'.
    + apply (Ha id'). now exists w'.
  - exact Ha.
Qed.

Lemma effect_without_token tok h :
  hasToken tok = false -> calm h -> calm (effect tok h).2.
Proof.
  intros Htok (Ha & Ht). unfold effect. destruct tok as [t|]; [|now split].
  rewrite Htok. simpl. now split.
Qed.

(** While nothing is armed, an event that is not a render with a token
    schedules and attempts nothing, and nothing becomes armed. *)
Lemma calm_step h ev :
  calm h ->
  (forall tok, ev = Render tok -> hasToken tok = false \/ unmounted h = true) ->
  scheduled (step h ev).1 = [] /\ attempted (step h ev).1 = 0
  /\ calm (step h ev).2.
Proof.
  intros Hcalm Hr. pose proof Hcalm as (Ha & Ht).
  destruct ev as [tok| |id|id code|id data|id|timer]; simpl.
  - unfold render. destruct (unmounted h) eqn:Hu; [now repeat split|].
    case_bool_decide; [now repeat split|].
    destruct (Hr tok eq_refl) as [Htok|?]; [|discriminate].
    pose proof (cleanupIfAny_calm h Hcalm) as Hc1.
    destruct (cleanupIfAny_quiet h) as (Hs & Hat & _).
    destruct (cleanupIfAny h) as [a1 h1]. simpl in *.
    pose proof (effect_without_token tok h1 Htok Hc1) as Hc2.
    destruct (effect_quiet tok h1) as (Hs2 & Hat2 & _).
    destruct (effect tok h1) as [a2 h2]. simpl in *.
    rewrite scheduled_app, attempted_app, Hs, Hs2, Hat, Hat2.
    split; [reflexivity|]. split; [reflexivity|exact Hc2].
  - unfold unmount. destruct (unmounted h); [now repeat split|].
    pose proof (cleanupIfAny_calm h Hcalm) as (Ha1 & Ht1).
    destruct (cleanupIfAny_quiet h) as (Hs & Hat & _).
    destruct (cleanupIfAny h) as [a1 h1]. simpl in *.
    split; [exact Hs|]. split; [exact Hat|]. split; [|exact Ht1].
    intros id (w & Hl & Ho & Hst). apply (Ha1 id). now exists w.
  - unfold onopen. destruct (sockets h !! id) as [w|] eqn:Hl; [|now repeat split].
    case_bool_decide as Hst; [|now repeat split].
    assert (Hno : forall id', ~ exists w',
              <[id := {| ws_token := ws_token w; ws_readyState := OPEN;
                         ws_onclose := ws_onclose w |}]> (sockets h) !! id' = Some w'
              /\ ws_onclose w' = true /\ ws_readyState w' <> CLOSED).
    { intros id' (w' & Hl' & Ho & Hs). destruct (decide (id = id')) as [->|Hne].
      - rewrite lookup_insert_eq in Hl'. injection Hl' as <-. simpl in *.
        apply (Ha id'). exists w. split; [exact Hl|]. split; [exact Ho|]. congruence.
      - rewrite lookup_insert_ne in Hl' by exact Hne. apply (Ha id'). now exists w'. }
    destruct (negb _); simpl; (split; [reflexivity|]); (split; [reflexivity|]);
      (split; [exact Hno|exact Ht]).
  - unfold onclose. destruct (sockets h !! id) as [w|] eqn:Hl; [|now repeat split].
    case_bool_decide as Hst; [now repeat split|].
    destruct (ws_onclose w) eqn:Hon; simpl.
    + exfalso. apply (Ha id). now exists w.
    + split; [reflexivity|]. split; [reflexivity|]. split; [|exact Ht].
      intros id' (w' & Hl' & Ho & Hs). simpl in Hl'.
      destruct (decide (id = id')) as [->|Hne].
      * rewrite lookup_insert_eq in Hl'. injection Hl' as <-. simpl in Hs. congruence.
      * rewrite lookup_insert_ne in Hl' by exact Hne. apply (Ha id'). now exists w'.
  - unfold onmessage. split; [|split; [|exact Hcalm]];
      destruct (sockets h !! id), data; try reflexivity;
      destruct (negb (mountedRef h)); try reflexivity; now destruct (_ && _).
  - now repeat split.
  - unfold ontimeout.
    pose proof (f_equal (fun m : gmap nat string => m !! timer) Ht) as E.
    simpl in E. rewrite lookup_empty in E. rewrite E. now repeat split.
Qed.

Lemma calm_run evs h :
  calm h ->
  (unmounted h = true \/ forall tok, Render tok ∈ evs -> hasToken tok = false) ->
  scheduled (run h evs).1 = [] /\ attempted (run h evs).1 = 0.
Proof.
  revert h. induction evs as [|ev rest IH]; intros h Hc Hr; [now split|].
  rewrite hook_run_cons. simpl. rewrite scheduled_app, attempted_app.
  destruct (calm_step h ev Hc) as (Hs & Ha & Hc').
  { intros tok ->. destruct Hr as [Hu|Hr]; [now right|]. left. apply Hr. now left. }
  destruct (IH (step h ev).2 Hc') as (Hs' & Ha').
  { destruct Hr as [Hu|Hr]; [left; now apply unmounted_step|].
    right. intros tok Hin. apply Hr. now right. }
  rewrite Hs, Ha, Hs', Ha'. now split.
Qed.

(** A clean closure of the armed socket schedules nothing and leaves
    nothing armed. *)
Lemma clean_close_calm h id :
  Inv h -> armed h id ->
  (step h (Closed id cleanClose)).1 = [] /\ calm (step h (Closed id cleanClose)).2.
Proof.
  intros (H1 & _ & H3) Harm. pose proof Harm as (w & Hl & Hon & Hst).
  destruct (H1 id Harm) as (Hw & Hc & Ht).
  assert (Hnone : forall id' w',
            <[id := {| ws_token := ws_token w; ws_readyState := CLOSED;
                       ws_onclose := true |}]> (sockets h) !! id' = Some w' ->
            ws_onclose w' = true -> ws_readyState w' <> CLOSED -> False).
  { intros id' w' Hl' Ho Hs. destruct (decide (id = id')) as [->|Hne].
    - rewrite lookup_insert_eq in Hl'. injection Hl' as <-. simpl in Hs. congruence.
    - rewrite lookup_insert_ne in Hl' by exact Hne.
      destruct (H1 id') as (Hw' & _); [now exists w'|]. congruence. }
  simpl. unfold onclose. rewrite Hl. rewrite bool_decide_eq_false_2 by exact Hst.
  rewrite Hon. simpl.
  destruct (mountedRef h); simpl.
  - split; [reflexivity|]. split; [|exact Ht].
    intros id' (w' & Hl' & Ho & Hs). exact (Hnone id' w' Hl' Ho Hs).
  - split; [reflexivity|]. split; [|exact Ht].
    intros id' (w' & Hl' & Ho & Hs). exact (Hnone id' w' Hl' Ho Hs).
Qed.

(** ** Attempts never outnumber the timers that were set *)

Lemma cleanupIfAny_timers h : size (timers (cleanupIfAny h).2) <= size (timers h).
Proof.
  unfold cleanupIfAny, runCleanup. destruct (cleanup h); [|reflexivity].
  assert (H : size (match reconnectTimeoutRef h with
                    | Some t => delete t (timers h)
                    | None => timers h
                    end) <= size (timers h)).
  { destruct (reconnectTimeoutRef h) as [t|]; [|reflexivity].
    rewrite map_size_delete. destruct (timers h !! t); simpl; lia. }
  now destruct (wsRef h).
Qed.

Lemma effect_timers tok h : timers (effect tok h).2 = timers h.
Proof.
  unfold effect. destruct tok as [t|]; [|reflexivity].
  destruct (negb _); [reflexivity|]. now destruct (from_option _ _ _).
Qed.

Lemma step_attempted h ev :
  attempted (step h ev).1 + size (timers (step h ev).2)
  <= size (timers h) + length (scheduled (step h ev).1).
Proof.
  destruct ev as [tok| |id|id code|id data|id|timer]; simpl.
  - unfold render. destruct (unmounted h); [simpl; lia|].
    case_bool_decide; [simpl; lia|].
    pose proof (cleanupIfAny_timers h) as Hsz.
    destruct (cleanupIfAny_quiet h) as (Hs & Ha & _).
    destruct (cleanupIfAny h) as [a1 h1]. simpl in *.
    pose proof (effect_timers tok h1) as Ht.
    destruct (effect_quiet tok h1) as (Hs2 & Ha2 & _).
    destruct (effect tok h1) as [a2 h2]. simpl in *.
    rewrite attempted_app, scheduled_app, Hs, Hs2, Ha, Ha2, Ht. simpl. lia.
  - unfold unmount. destruct (unmounted h); [simpl; lia|].
    pose proof (cleanupIfAny_timers h) as Hsz.
    destruct (cleanupIfAny_quiet h) as (Hs & Ha & _).
    destruct (cleanupIfAny h) as [a1 h1]. simpl in *. rewrite Hs, Ha. simpl. lia.
  - unfold onopen. destruct (sockets h !! id); [|simpl; lia].
    case_bool_decide; [|simpl; lia]. destruct (negb _); simpl; lia.
  - unfold onclose. destruct (sockets h !! id) as [w|]; [|simpl; lia].
    case_bool_decide; [simpl; lia|]. destruct (negb (ws_onclose w)); [simpl; lia|].
    destruct (negb _); [simpl; lia|]. destruct (_ && _); simpl; [|lia].
    rewrite map_size_insert_None; [lia|]. apply not_elem_of_dom, is_fresh.
  - assert (H : attempted (onmessage id data h) = 0
                /\ scheduled (onmessage id data h) = []).
    { unfold onmessage. destruct (sockets h !! id), data; try now split.
      destruct (negb (mountedRef h)); [now split|]. now destruct (_ && _). }
    destruct H as [-> ->]. simpl. lia.
  - simpl. lia.
  - unfold ontimeout. destruct (timers h !! timer) as [tok|] eqn:Hl; [|simpl; lia].
    assert (Hsz : S (size (delete timer (timers h))) = size (timers h)).
    { rewrite map_size_delete, Hl. simpl.
      destruct (size (timers h)) eqn:E; [|reflexivity].
      apply map_size_empty_iff in E. rewrite E, lookup_empty in Hl. discriminate. }
    destruct (_ && _); simpl; lia.
Qed.

Lemma run_attempted evs h :
  attempted (run h evs).1 + size (timers (run h evs).2)
  <= size (timers h) + length (scheduled (run h evs).1).
Proof.
  revert h. induction evs as [|ev rest IH]; intros h; [simpl; lia|].
  rewrite hook_run_cons. simpl. rewrite attempted_app, scheduled_app, length_app.
  pose proof (step_attempted h ev). pose proof (IH (step h ev).2). lia.
Qed.

Lemma delays_increasing (a n : nat) :
  StronglySorted Z.lt ((fun k => (baseDelay * Z.of_nat k)%Z) <$> seq a n).
Proof.
  revert a. induction n as [|n IH]; intros a; simpl; [constructor|].
  constructor; [apply IH|].
  apply Forall_fmap, Forall_seq. intros j Hj. simpl. unfold baseDelay. lia.
Qed.

(** The timer callback itself opens no socket: it only sets [isConnected].
    A new socket comes from a run of the effect, that is, from a render
    with another token. *)
Lemma ontimeout_opens_nothing timer h :
  sockets (ontimeout timer h).2 = sockets h
  /\ wsRef (ontimeout timer h).2 = wsRef h
  /\ (ontimeout timer h).1 ⊆ [AttemptReconnect].
Proof.
  unfold ontimeout. destruct (timers h !! timer); [|now repeat split].
  destruct (_ && _); simpl; repeat split; try reflexivity.
  apply list_subseteq_nil.
Qed.

(** ** C9: bounded, backing-off reconnection *)

(** C9.  Take the hook in any state reached after a mount, and any further
    events among which no socket opens (an open resets the counter).  The
    reconnections scheduled by these events have the delays
    3000 ms * (a+1), 3000 ms * (a+2), ... where [a] is the attempt counter at
    the start: each delay is the base interval times the incremented
    counter, the delays increase strictly, and there are at most 3.  Counted
    from the mount, the timer callbacks that attempt a reconnection never
    outnumber the scheduled ones.  A closure with code 1000 schedules
    nothing, and after such a closure of the current socket nothing is
    scheduled or attempted until a render brings another token; the same
    holds while the token is missing, and after the unmount whatever
    happens. *)
Theorem reconnection_bounded
    (tok : option string) (evs0 evs : list Event)
    (Hnoopen : forall id, Opened id ∉ evs) :
  let h := (run (mount tok).2 evs0).2 in
  let acts := (run h evs).1 in
  baseDelay = 3000%Z /\ maxAttempts = 3 /\ cleanClose = 1000
  /\ scheduled acts
     = (fun k => (baseDelay * Z.of_nat k)%Z)
         <$> seq (S (reconnectAttemptsRef h)) (length (scheduled acts))
  /\ length (scheduled acts) <= maxAttempts
  /\ StronglySorted Z.lt (scheduled acts)
  /\ attempted (run (mount tok).2 evs).1 <= length (scheduled (run (mount tok).2 evs).1)
  /\ length (scheduled (run (mount tok).2 evs).1) <= maxAttempts
  /\ (forall id, scheduled (step h (Closed id cleanClose)).1 = [])
  /\ (forall id, armed h id ->
        (forall t, hasToken t = true -> Render t ∉ evs) ->
        scheduled (run h (Closed id cleanClose :: evs)).1 = []
        /\ attempted (run h (Closed id cleanClose :: evs)).1 = 0)
  /\ (hasToken (token h) = false ->
      (forall t, hasToken t = true -> Render t ∉ evs) ->
      scheduled acts = [] /\ attempted acts = 0)
  /\ (unmounted h = true -> scheduled acts = [] /\ attempted acts = 0).
Proof.
  intros h acts.
  assert (HI : Inv h) by apply Inv_run, Inv_mount.
  destruct (run_schedule evs h Hnoopen) as (Hd & _ & Hle).
  fold acts in Hd, Hle.
  split; [reflexivity|]. split; [reflexivity|]. split; [reflexivity|].
  split; [exact Hd|]. split.
  { destruct (length (scheduled acts)) eqn:E; [unfold maxAttempts; lia|].
    specialize (Hle ltac:(lia)). lia. }
  split; [rewrite Hd; apply delays_increasing|]. split.
  { pose proof (run_attempted evs (mount tok).2) as Ha.
    assert (Ht : size (timers (mount tok).2) = 0).
    { unfold mount. rewrite effect_timers. reflexivity. }
    lia. }
  split.
  { destruct (run_schedule evs (mount tok).2 Hnoopen) as (_ & _ & Hle').
    destruct (length (scheduled (run (mount tok).2 evs).1)) eqn:E;
      [unfold maxAttempts; lia|].
    specialize (Hle' ltac:(lia)). lia. }
  split.
  { intros id. destruct (step_schedule h (Closed id cleanClose)) as [(Hs & _)|Hs].
    - discriminate.
    - exact Hs.
    - destruct Hs as (_ & _ & _ & id' & code & Heq & Hne).
      injection Heq as _ <-. contradiction. }
  assert (Hfalsy : (forall t, hasToken t = true -> Render t ∉ evs) ->
                   forall t, Render t ∈ evs -> hasToken t = false).
  { intros Hnor t Hin. destruct (hasToken t) eqn:Ht; [|reflexivity].
    now apply Hnor in Hin. }
  split.
  { intros id Harm Hnor. rewrite hook_run_cons.
    destruct (clean_close_calm h id HI Harm) as (Hact & Hcalm).
    rewrite Hact. simpl. apply calm_run; [exact Hcalm|]. right. now apply Hfalsy. }
  split.
  - intros Htok Hnor. apply calm_run; [now apply Inv_no_token|].
    right. now apply Hfalsy.
  - intros Hu. apply calm_run; [now apply Inv_unmounted|]. now left.
Qed.

(** * Further properties of the reconnection controller *)

(** ** One live socket at a time *)

Lemma disarmedClosing_cleanupIfAny h :
  disarmedClosing h -> disarmedClosing (cleanupIfAny h).2.
Proof.
  intros HJ. unfold cleanupIfAny. destruct (cleanup h); [|exact HJ].
  unfold runCleanup. destruct (wsRef h) as [id|]; [|exact HJ]. simpl.
  destruct (sockets h !! id) as [w|] eqn:Hw; [|exact HJ].
  intros id' w' Hl Ho. simpl in Hl. destruct (decide (id = id')) as [->|Hne].
  - rewrite lookup_insert_eq in Hl. injection Hl as <-. simpl.
    case_bool_decide; auto.
  - rewrite lookup_insert_ne in Hl by exact Hne. now apply (HJ id').
Qed.

Lemma disarmedClosing_effect tok h :
  disarmedClosing h -> disarmedClosing (effect tok h).2.
Proof.
  intros HJ. unfold effect. destruct tok as [t|]; [|exact HJ].
  destruct (negb (hasToken (Some t))); [exact HJ|].
  destruct (from_option (liveState h) false (wsRef h)); [exact HJ|].
  intros id' w' Hl Ho. simpl in Hl.
  destruct (decide (fresh (dom (sockets h)) = id')) as [<-|Hne].
  - rewrite lookup_insert_eq in Hl. injection Hl as <-. discriminate Ho.
  - rewrite lookup_insert_ne in Hl by exact Hne. now apply (HJ id').
Qed.

Lemma disarmedClosing_step h ev : disarmedClosing h -> disarmedClosing (step h ev).2.
Proof.
  intros HJ. destruct ev as [tok| |id|id code|id data|id|timer]; simpl; try exact HJ.
  - unfold render. destruct (unmounted h); [exact HJ|].
    case_bool_decide; [exact HJ|].
    pose proof (disarmedClosing_cleanupIfAny h HJ) as H1.
    destruct (cleanupIfAny h) as [a1 h1]. simpl in *.
    pose proof (disarmedClosing_effect tok h1 H1) as H2.
    now destruct (effect tok h1).
  - unfold unmount. destruct (unmounted h); [exact HJ|].
    pose proof (disarmedClosing_cleanupIfAny h HJ) as H1.
    destruct (cleanupIfAny h) as [a1 h1]. exact H1.
  - unfold onopen. destruct (sockets h !! id) as [w|] eqn:Hw; [|exact HJ].
    case_bool_decide as Hst; [|exact HJ].
    assert (H1 : disarmedClosing
              (setSocket id {| ws_token := ws_token w; ws_readyState := OPEN;
                               ws_onclose := ws_onclose w |} h)).
    { intros id' w' Hl Ho. simpl in Hl. destruct (decide (id = id')) as [->|Hne].
      - rewrite lookup_insert_eq in Hl. injection Hl as <-. simpl in Ho.
        destruct (HJ id' w Hw Ho) as [E|E]; congruence.
      - rewrite lookup_insert_ne in Hl by exact Hne. now apply (HJ id'). }
    destruct (negb (mountedRef _)); exact H1.
  - unfold onclose. destruct (sockets h !! id) as [w|] eqn:Hw; [|exact HJ].
    case_bool_decide as Hst; [exact HJ|].
    assert (H1 : disarmedClosing
              (setSocket id {| ws_token := ws_token w; ws_readyState := CLOSED;
                               ws_onclose := ws_onclose w |} h)).
    { intros id' w' Hl Ho. simpl in Hl. destruct (decide (id = id')) as [->|Hne].
      - rewrite lookup_insert_eq in Hl. injection Hl as <-. now right.
      - rewrite lookup_insert_ne in Hl by exact Hne. now apply (HJ id'). }
    destruct (negb (ws_onclose w)); [exact H1|].
    destruct (negb (mountedRef _)); [exact H1|].
    destruct (_ && _); exact H1.
  - unfold ontimeout. destruct (timers h !! timer); [|exact HJ].
    destruct (mountedRef h && _); exact HJ.
Qed.

Lemma disarmedClosing_run evs h : disarmedClosing h -> disarmedClosing (run h evs).2.
Proof.
  revert h. induction evs as [|ev rest IH]; intros h HJ; [exact HJ|].
  rewrite hook_run_cons. simpl. apply IH, disarmedClosing_step, HJ.
Qed.

Lemma disarmedClosing_mount tok : disarmedClosing (mount tok).2.
Proof.
  apply disarmedClosing_effect. intros id w Hl. simpl in Hl.
  rewrite lookup_empty in Hl. discriminate.
Qed.

(** A socket that is connecting or open is armed, hence the current one. *)
Lemma live_armed h id : disarmedClosing h -> liveState h id = true -> armed h id.
Proof.
  intros HJ Hlive. unfold liveState in Hlive.
  destruct (sockets h !! id) as [w|] eqn:Hw; [|discriminate].
  apply orb_true_iff in Hlive.
  assert (Hst : ws_readyState w = OPEN \/ ws_readyState w = CONNECTING)
    by (destruct Hlive as [E|E]; apply bool_decide_eq_true in E; auto).
  destruct (ws_onclose w) eqn:Ho.
  - exists w. split; [exact Hw|]. split; [exact Ho|]. destruct Hst; congruence.
  - destruct (HJ id w Hw Ho); destruct Hst; congruence.
Qed.

Lemma live_is_current h id :
  Inv h -> disarmedClosing h -> liveState h id = true -> wsRef h = Some id.
Proof.
  intros (H1 & _) HJ Hlive. now apply H1, live_armed.
Qed.

(** X25.  The hook never holds two live connections.  In every state a mounted
    hook can reach -- whatever renders, token changes, opens, closes, timers
    and unmounts happened --, a socket that is connecting or open is the one
    [wsRef] points to; so there is at most one such socket. *)
Theorem at_most_one_live_socket (tok : option string) (evs : list Event) :
  let h := (run (mount tok).2 evs).2 in
  (forall id, liveState h id = true -> wsRef h = Some id)
  /\ (forall id1 id2, liveState h id1 = true -> liveState h id2 = true -> id1 = id2).
Proof.
  intros h.
  assert (HI : Inv h) by (apply Inv_run, Inv_mount).
  assert (HJ : disarmedClosing h) by (apply disarmedClosing_run, disarmedClosing_mount).
  split; [intros id; now apply live_is_current|].
  intros id1 id2 H1 H2. apply (live_is_current h _ HI HJ) in H1, H2. congruence.
Qed.

(** ** Opening a socket *)

Lemma step_opens h ev id t :
  NewWebSocket id t ∈ (step h ev).1 ->
  ev = Render (Some t) /\ t <> "" /\ Some t <> token h /\ unmounted h = false.
Proof.
  destruct ev as [tok| |i|i code|i data|i|timer]; simpl; intros Hin.
  - unfold render in Hin. destruct (unmounted h) eqn:Hu; [inversion Hin|].
    case_bool_decide as Htok; [inversion Hin|].
    assert (Hc : NewWebSocket id t ∉ (cleanupIfAny h).1).
    { unfold cleanupIfAny, runCleanup. destruct (cleanup h), (wsRef h); simpl;
        intros H; repeat (apply elem_of_cons in H as [H|H]; [discriminate H|]);
        inversion H. }
    destruct (cleanupIfAny h) as [a1 h1]. simpl in Hc.
    destruct (effect tok h1) as [a2 h2] eqn:He. simpl in Hin.
    apply elem_of_app in Hin as [Hin|Hin]; [contradiction|].
    unfold effect in He. destruct tok as [t0|]; [|injection He as <- _; inversion Hin].
    destruct (hasToken (Some t0)) eqn:Ht; simpl in He;
      [|injection He as <- _; inversion Hin].
    destruct (from_option (liveState h1) false (wsRef h1));
      [injection He as <- _; inversion Hin|].
    injection He as <- _. apply list_elem_of_singleton in Hin. injection Hin as -> ->.
    split; [reflexivity|]. split; [|now split].
    simpl in Ht. now apply negb_true_iff, bool_decide_eq_false in Ht.
  - exfalso. unfold unmount in Hin. destruct (unmounted h); [inversion Hin|].
    unfold cleanupIfAny, runCleanup in Hin.
    destruct (cleanup h), (wsRef h); simpl in Hin;
      repeat (apply elem_of_cons in Hin as [Hin|Hin]; [discriminate Hin|]);
      inversion Hin.
  - exfalso. unfold onopen in Hin. destruct (sockets h !! i); [|inversion Hin].
    case_bool_decide; [|inversion Hin]. destruct (negb _); inversion Hin.
  - exfalso. unfold onclose in Hin. destruct (sockets h !! i); [|inversion Hin].
    case_bool_decide; [inversion Hin|].
    destruct (negb (ws_onclose _)); [inversion Hin|].
    destruct (negb (mountedRef _)); [inversion Hin|].
    destruct (_ && _); simpl in Hin;
      repeat (apply elem_of_cons in Hin as [Hin|Hin]; [discriminate Hin|]);
      inversion Hin.
  - exfalso. unfold onmessage in Hin. destruct (sockets h !! i); [|inversion Hin].
    destruct data as [ty|]; [|inversion Hin].
    destruct (negb (mountedRef h)); [inversion Hin|].
    destruct (_ && _); simpl in Hin;
      repeat (apply elem_of_cons in Hin as [Hin|Hin]; [discriminate Hin|]);
      inversion Hin.
  - inversion Hin.
  - exfalso. unfold ontimeout in Hin. destruct (timers h !! timer); [|inversion Hin].
    destruct (mountedRef h && _); simpl in Hin;
      repeat (apply elem_of_cons in Hin as [Hin|Hin]; [discriminate Hin|]);
      inversion Hin.
Qed.

(** X26.  After the first render, a socket is opened by a change of the token and
    by nothing else.  Over any run of events, every socket the hook opens
    was opened by a render with that token, which is not empty; a close, an
    error, a message or the reconnect timer never opens one -- after an
    abnormal close the hook schedules its timers, but no new connection is
    made until the token changes. *)
Theorem socket_opened_only_by_token_change
    (h : Hook) (evs : list Event) (id : nat) (t : string) :
  NewWebSocket id t ∈ (run h evs).1 -> t <> "" /\ Render (Some t) ∈ evs.
Proof.
  revert h. induction evs as [|ev rest IH]; intros h Hin; [inversion Hin|].
  rewrite hook_run_cons in Hin. simpl in Hin. apply elem_of_app in Hin as [Hin|Hin].
  - apply step_opens in Hin as (-> & Ht & _). split; [exact Ht|now left].
  - destruct (IH _ Hin) as [Ht Hr]. split; [exact Ht|now right].
Qed.

Lemma render_new_token h t' :
  Inv h -> disarmedClosing h ->
  unmounted h = false -> Some t' <> token h -> t' <> "" ->
  exists id,
    (render (Some t') h).1
    = (if cleanup h then
         match wsRef h with
         | Some old => [CloseSocket old cleanClose]
         | None => []
         end
       else []) ++ [NewWebSocket id t']
    /\ wsRef (render (Some t') h).2 = Some id
    /\ liveState (render (Some t') h).2 id = true
    /\ token (render (Some t') h).2 = Some t'.
Proof.
  intros HI HJ Hmounted Hnew Htruthy.
  assert (Hguard : from_option (liveState (cleanupIfAny h).2) false
                     (wsRef (cleanupIfAny h).2) = false).
  { pose proof (cleanupIfAny_makes_quiet h HI) as (Hq & _).
    pose proof (disarmedClosing_cleanupIfAny h HJ) as HJ1.
    destruct (wsRef (cleanupIfAny h).2) as [i|]; [|reflexivity]. simpl.
    destruct (liveState (cleanupIfAny h).2 i) eqn:Hl; [|reflexivity].
    exfalso. apply (Hq i). now apply live_armed. }
  assert (Hout : (cleanupIfAny h).1
                 = if cleanup h then
                     match wsRef h with
                     | Some old => [CloseSocket old cleanClose]
                     | None => []
                     end
                   else []).
  { unfold cleanupIfAny, runCleanup. destruct (cleanup h); [|reflexivity].
    now destruct (wsRef h). }
  rewrite <- Hout. unfold render. rewrite Hmounted.
  rewrite bool_decide_eq_false_2 by exact Hnew.
  destruct (cleanupIfAny h) as [a1 h1]. cbn [fst snd] in Hguard |- *.
  unfold effect. cbn [hasToken]. rewrite bool_decide_eq_false_2 by exact Htruthy.
  cbn [negb]. rewrite Hguard. cbn [fst snd wsRef token].
  eexists. split; [reflexivity|]. split; [reflexivity|]. split; [|reflexivity].
  unfold liveState. cbn [sockets]. rewrite lookup_insert_eq. reflexivity.
Qed.

(** X27.  A new token reconnects.  In every state a mounted hook can reach, a
    render with a different, non-empty token opens exactly one socket with
    the new token -- the guard against duplicate connections never stands in
    the way --, the socket held before is closed with code 1000, and
    afterwards the new socket is the current one and the only live one. *)
Theorem token_change_reconnects
    (tok : option string) (evs : list Event) (t' : string)
    (Hmounted : unmounted (run (mount tok).2 evs).2 = false)
    (Hnew : Some t' <> token (run (mount tok).2 evs).2)
    (Htruthy : t' <> "") :
  let h := (run (mount tok).2 evs).2 in
  let out := (step h (Render (Some t'))).1 in
  let h' := (step h (Render (Some t'))).2 in
  exists id,
    out = (if cleanup h then
             match wsRef h with
             | Some old => [CloseSocket old cleanClose]
             | None => []
             end
           else []) ++ [NewWebSocket id t']
    /\ wsRef h' = Some id /\ liveState h' id = true /\ token h' = Some t'
    /\ (forall id', liveState h' id' = true -> id' = id).
Proof.
  intros h out h'.
  assert (HI : Inv h) by (apply Inv_run, Inv_mount).
  assert (HJ : disarmedClosing h) by (apply disarmedClosing_run, disarmedClosing_mount).
  assert (HI' : Inv h') by (apply Inv_step, HI).
  assert (HJ' : disarmedClosing h') by (apply disarmedClosing_step, HJ).
  destruct (render_new_token h t' HI HJ Hmounted Hnew Htruthy)
    as (id & H1 & H2 & H3 & H4).
  exists id. split; [exact H1|]. split; [exact H2|]. split; [exact H3|].
  split; [exact H4|].
  intros id' Hl. apply (live_is_current h' id' HI' HJ') in Hl.
  change (wsRef h') with (wsRef (render (Some t') h).2) in Hl. congruence.
Qed.

(** ** What reaches the application *)

Lemma step_delivers h ev ty :
  Deliver ty ∈ (step h ev).1 ->
  ty <> "PONG" /\ ty <> "CONNECTED" /\ exists id, ev = Incoming id (Some ty).
Proof.
  destruct ev as [tok| |id|id code|id data|id|timer]; simpl; intros Hin.
  - exfalso. unfold render in Hin. destruct (unmounted h); [inversion Hin|].
    case_bool_decide; [inversion Hin|].
    unfold cleanupIfAny, runCleanup, effect in Hin.
    destruct (cleanup h), (wsRef h), tok as [t|]; simpl in Hin;
      repeat match type of Hin with
             | context [if ?b then _ else _] => destruct b; simpl in Hin
             end;
      repeat (apply elem_of_cons in Hin as [Hin|Hin]; [discriminate Hin|]);
      inversion Hin.
  - exfalso. unfold unmount in Hin. destruct (unmounted h); [inversion Hin|].
    unfold cleanupIfAny, runCleanup in Hin.
    destruct (cleanup h), (wsRef h); simpl in Hin;
      repeat (apply elem_of_cons in Hin as [Hin|Hin]; [discriminate Hin|]);
      inversion Hin.
  - exfalso. unfold onopen in Hin. destruct (sockets h !! id); [|inversion Hin].
    case_bool_decide; [|inversion Hin]. destruct (negb _); inversion Hin.
  - exfalso. unfold onclose in Hin. destruct (sockets h !! id); [|inversion Hin].
    case_bool_decide; [inversion Hin|].
    destruct (negb (ws_onclose _)); [inversion Hin|].
    destruct (negb (mountedRef _)); [inversion Hin|].
    destruct (_ && _); simpl in Hin;
      repeat (apply elem_of_cons in Hin as [Hin|Hin]; [discriminate Hin|]);
      inversion Hin.
  - unfold onmessage in Hin. destruct (sockets h !! id); [|inversion Hin].
    destruct data as [ty'|]; [|inversion Hin].
    destruct (negb (mountedRef h)); [inversion Hin|].
    destruct (negb (bool_decide (ty' = "PONG"))) eqn:H1; simpl in Hin; [|inversion Hin].
    destruct (negb (bool_decide (ty' = "CONNECTED"))) eqn:H2; simpl in Hin; [|inversion Hin].
    apply list_elem_of_singleton in Hin. injection Hin as ->.
    apply negb_true_iff, bool_decide_eq_false in H1, H2.
    split; [exact H1|]. split; [exact H2|]. now exists id.
  - inversion Hin.
  - exfalso. unfold ontimeout in Hin. destruct (timers h !! timer); [|inversion Hin].
    destruct (mountedRef h && _); simpl in Hin;
      repeat (apply elem_of_cons in Hin as [Hin|Hin]; [discriminate Hin|]);
      inversion Hin.
Qed.

(** X28.  The hook hands a message to the application only when a socket received
    it: over any run of events, every message delivered to [onMessage] is
    the parsed payload of an incoming message, and it is never a PONG or the
    CONNECTED greeting; a payload that does not parse is dropped. *)
Theorem hook_filters_protocol_messages (h : Hook) (evs : list Event) (ty : string) :
  Deliver ty ∈ (run h evs).1 ->
  ty <> "PONG" /\ ty <> "CONNECTED" /\ exists id, Incoming id (Some ty) ∈ evs.
Proof.
  revert h. induction evs as [|ev rest IH]; intros h Hin; [inversion Hin|].
  rewrite hook_run_cons in Hin. simpl in Hin. apply elem_of_app in Hin as [Hin|Hin].
  - apply step_delivers in Hin as (H1 & H2 & id & ->).
    split; [exact H1|]. split; [exact H2|]. exists id. now left.
  - destruct (IH _ Hin) as (H1 & H2 & id & H3).
    split; [exact H1|]. split; [exact H2|]. exists id. now right.
Qed.

End ClientFacts.

(** * The task board *)

(** X29.  The columns of the board are a partition of the tasks.  Every task is
    shown in exactly one of the columns 'To Do', 'In Progress', 'Completed'
    -- the one of its status --, within a column the tasks keep the order of
    the list, and the three counts in the column headers add up to the
    number of tasks. *)
Theorem board_columns_partition (tasks : list Dashboard.Item) :
  flat_map (Dashboard.getTasksByStatus tasks) Dashboard.columns ≡ₚ tasks
  /\ (forall c task, task ∈ Dashboard.getTasksByStatus tasks c
                     <-> task ∈ tasks /\ statusName (status task.2) = c)
  /\ (forall task, task ∈ tasks ->
        exists c, c ∈ Dashboard.columns /\ task ∈ Dashboard.getTasksByStatus tasks c)
  /\ (forall c, Dashboard.getTasksByStatus tasks c `sublist_of` tasks)
  /\ length (Dashboard.getTasksByStatus tasks "To Do")
     + length (Dashboard.getTasksByStatus tasks "In Progress")
     + length (Dashboard.getTasksByStatus tasks "Completed")
     = length tasks.
Proof.
  assert (Hp : flat_map (Dashboard.getTasksByStatus tasks) Dashboard.columns ≡ₚ tasks).
  { unfold Dashboard.columns, Dashboard.getTasksByStatus. cbn [flat_map].
    rewrite app_nil_r.
    induction tasks as [|[i t] l IH]; [reflexivity|].
    rewrite !filter_cons. cbn [snd].
    destruct (status t); cbn [statusName];
      repeat first [rewrite decide_True by reflexivity
                   |rewrite decide_False by discriminate].
    - simpl. now rewrite IH.
    - rewrite <- app_comm_cons, <- Permutation_middle. now rewrite IH.
    - rewrite app_assoc, <- Permutation_middle, <- app_assoc. now rewrite IH. }
  split; [exact Hp|]. split; [|split; [|split]].
  - intros c task. unfold Dashboard.getTasksByStatus. rewrite list_elem_of_filter. tauto.
  - intros task Hin. exists (statusName (status task.2)). split.
    + unfold Dashboard.columns. destruct (status task.2); simpl; set_solver.
    + unfold Dashboard.getTasksByStatus. now apply list_elem_of_filter.
  - intros c. apply sublist_filter.
  - apply Permutation_length in Hp. unfold Dashboard.columns in Hp.
    cbn [flat_map] in Hp. rewrite app_nil_r, !length_app in Hp. lia.
Qed.

(** * Examples and instances *)

(** ** The registry at a concrete serializer *)

Example fanout_two_devices :
  Registry.broadcastToUser RegistrySample.stringify RegistrySample.three 1 "TASK_UPDATED"
  = [Registry.Stringify "TASK_UPDATED";
     Registry.Send 0 "{type:TASK_UPDATED}";
     Registry.Send 1 "{type:TASK_UPDATED}"].
Proof. vm_compute. reflexivity. Qed.

Example fanout_skips_closed :
  Registry.broadcastToUser RegistrySample.stringify RegistrySample.halfOpen 1 "TASK_UPDATED"
  = [Registry.Stringify "TASK_UPDATED"; Registry.Send 0 "{type:TASK_UPDATED}"].
Proof. vm_compute. reflexivity. Qed.

Example two_sweeps_reap_silent_connections :
  (RegistrySample.run RegistrySample.three
     [Registry.EHeartbeat; @Registry.EPong string 0; Registry.EHeartbeat]).1
  = [Registry.Ping 0; Registry.Ping 1; Registry.Ping 2;
     Registry.Ping 0; Registry.Terminate 1; Registry.Terminate 2]
  /\ Registry.clients
       (RegistrySample.exec RegistrySample.three
          [Registry.EHeartbeat; @Registry.EPong string 0; Registry.EHeartbeat])
     = {[ 1 := [0] ]}.
Proof. vm_compute. split; reflexivity. Qed.

(** The claim C7 as worded -- "for every user id ... serializes the event
    exactly once" -- fails for a user without a registry entry: on the
    empty registry nothing is serialized and nothing is sent. *)
Lemma broadcast_to_unregistered_serializes_nothing :
  Registry.clients Registry.empty !! 7 = None
  /\ Registry.broadcastToUser RegistrySample.stringify Registry.empty 7 "TASK_UPDATED"
     = []
  /\ ~ (forall (st : Registry.Server) (userId : ObjectId) (message : string),
          length (Registry.serializations
                    (Registry.broadcastToUser RegistrySample.stringify st userId message))
          = 1).
Proof.
  split; [reflexivity|]. split; [reflexivity|].
  intros H. specialize (H Registry.empty 7 "TASK_UPDATED").
  vm_compute in H. discriminate H.
Qed.

Lemma liveness_sweep_witness :
  Registry.Terminate 1
    ∈ (RegistrySample.run RegistrySample.three
         (Registry.EHeartbeat :: [@Registry.EPong string 0] ++ [Registry.EHeartbeat])).1
  \/ @Registry.EClose string 1 ∈ [@Registry.EPong string 0].
Proof.
  assert (Htracked : 1 ∈ Registry.wssClients
                         (Registry.exec RegistrySample.stringify RegistrySample.connectedMsg
                            RegistrySample.pongMsg Registry.empty
                            (RegistrySample.connect 0 1 ++ RegistrySample.connect 1 1
                             ++ RegistrySample.connect 2 2)))
    by (vm_compute; right; left).
  assert (Hsilent : @Registry.EPong string 1 ∉ [@Registry.EPong string 0]).
  { intros [H|H]%elem_of_cons; [discriminate H|inversion H]. }
  assert (Hsettled : Registry.awaiting
                       (Registry.exec RegistrySample.stringify RegistrySample.connectedMsg
                          RegistrySample.pongMsg Registry.empty
                          (RegistrySample.connect 0 1 ++ RegistrySample.connect 1 1
                           ++ RegistrySample.connect 2 2)) !! 1 = None
                     \/ @Registry.EFindById string 1 Registry.UserFound
                          ∉ [@Registry.EPong string 0])
    by (left; vm_compute; reflexivity).
  exact (proj1 (proj2 (proj2 (proj2 (proj2 (proj2 (proj2
           (liveness_sweep RegistrySample.stringify RegistrySample.connectedMsg
              RegistrySample.pongMsg _ _ 1 Htracked Hsilent Hsettled)))))))).
Defined.

(** ** The reconnection controller on a run of failures *)

Example three_reconnections_then_none :
  Client.scheduled
    (Client.run (Client.mount (Some "t1")).2
       [Client.Closed 0 1006; Client.Timeout 0; Client.Render (Some "t2");
        Client.Closed 1 1006; Client.Render (Some "t3");
        Client.Closed 2 1006; Client.Render (Some "t4");
        Client.Closed 3 1006]).1
  = [3000%Z; 6000%Z; 9000%Z].
Proof. vm_compute. reflexivity. Qed.

Example timer_does_not_reconnect :
  (Client.run (Client.mount (Some "t1")).2 [Client.Closed 0 1006; Client.Timeout 0]).1
  = [Client.Schedule 3000 1; Client.AttemptReconnect]
  /\ Client.wsRef (Client.run (Client.mount (Some "t1")).2
                     [Client.Closed 0 1006; Client.Timeout 0]).2 = None.
Proof. vm_compute. split; reflexivity. Qed.

Example clean_close_is_final :
  (Client.run (Client.mount (Some "t1")).2 [Client.Opened 0; Client.Closed 0 1000]).1 = [].
Proof. vm_compute. reflexivity. Qed.

Lemma reconnection_bounded_witness :
  Client.scheduled
    (Client.run (Client.run (Client.mount (Some "t1")).2 []).2 [Client.Closed 0 1006]).1
  = (fun k => (Client.baseDelay * Z.of_nat k)%Z) <$> seq 1 1.
Proof.
  assert (Hnoopen : forall id, Client.Opened id ∉ [Client.Closed 0 1006]).
  { intros id [H|H]%elem_of_cons; [discriminate H|inversion H]. }
  exact (proj1 (proj2 (proj2 (proj2
           (reconnection_bounded (Some "t1") [] [Client.Closed 0 1006] Hnoopen))))).
Defined.

(** ** The task engine on the sample store *)

(** The conditions on a request, at a concrete request. *)
Ltac concrete_request :=
  repeat split; intros; simpl in *;
  repeat match goal with
  | H : None = Some _ |- _ => discriminate H
  | H : Some _ = Some _ |- _ => injection H as <-
  | H : _ ∈ _ :: _ |- _ => apply elem_of_cons in H as [->|H]
  | H : _ ∈ [] |- _ => inversion H
  end;
  repeat split;
  try (vm_compute; first [reflexivity | discriminate | lia]).

Lemma completedAt_set_once_witness :
  exists t',
    Tasks (handle (Sample.env 7) Sample.db
             (UpdateTask 1 10
                {| b_title := None; b_description := None; b_dueDate := None;
                   b_priority := None; b_tags := None;
                   b_status := Some Completed |})).2 !! 10 = Some t'
    /\ completedAt t' = Some 7%Z.
Proof.
  destruct (completedAt_set_once (Sample.env 7) Sample.db
              (UpdateTask 1 10
                 {| b_title := None; b_description := None; b_dueDate := None;
                    b_priority := None; b_tags := None; b_status := Some Completed |})
              10 (Sample.task 1 ToDo None) eq_refl) as [(t' & Hl & Hc) _].
  exists t'. split; [exact Hl|].
  rewrite Hc. vm_compute in Hl. injection Hl as <-. reflexivity.
Defined.


Lemma tags_replaced_without_audit_witness :
  exists t',
    Tasks (updateTask (Sample.env 7) Sample.db 1 10
             {| b_title := None; b_description := None; b_dueDate := None;
                b_priority := None; b_tags := Some ["x"; "y"]; b_status := None |}).2 !! 10
    = Some t'
    /\ tags t' = ["x"; "y"]
    /\ auditHistory t' = [].
Proof.
  destruct (tags_replaced_without_audit (Sample.env 7) Sample.db 1 10
              {| b_title := None; b_description := None; b_dueDate := None;
                 b_priority := None; b_tags := Some ["x"; "y"]; b_status := None |}
              (Sample.task 1 ToDo None) ["x"; "y"])
    as (t' & _ & Hl & Ht & Hau).
  - repeat split.
  - intros H; discriminate H.
  - concrete_request.
  - reflexivity.
  - exists t'. split; [exact Hl|]. split; [exact Ht|].
    apply Hau. repeat split; intros v H; discriminate H.
Defined.

Lemma deleteUser_two_step_witness :
  deleteUser (Sample.env 7) Sample.db 2 (idString 1) None
  = (needsReassign (countDocuments Sample.db 1), [], Sample.db).
Proof.
  refine (proj1 (deleteUser_two_step (Sample.env 7) Sample.db 2 (idString 1) 1
                   Sample.alice 10 (Sample.task 1 ToDo None) _ eq_refl eq_refl eq_refl _)).
  - vm_compute. discriminate.
  - split; reflexivity.
Defined.

Example delete_user_counts_open_tasks : countDocuments Sample.db 1 = 2.
Proof. vm_compute. reflexivity. Qed.

Example delete_user_reassigns :
  (fun t => (assignedTo t, map audit_action (auditHistory t)))
    <$> Tasks (deleteUser (Sample.env 7) Sample.db 2 (idString 1) (Some 2)).2
  = {[ 10 := (2, [reassigned]); 11 := (2, [reassigned]); 12 := (2, []) ]}
  /\ Users (deleteUser (Sample.env 7) Sample.db 2 (idString 1) (Some 2)).2 = {[ 2 := Sample.bob ]}.
Proof. vm_compute. split; reflexivity. Qed.

(** ** Further examples on the sample store *)

(** User 2 asks for a task of user 1. *)
Lemma unreachable_task_is_denied_witness :
  getTask Sample.db 2 10 = notFound.
Proof.
  refine (proj1 (unreachable_task_is_denied (Sample.env 7) Sample.db 2 10 _)).
  intros t Hl. vm_compute in Hl. injection Hl as <-. left. discriminate.
Defined.

Lemma deleteTask_is_soft_witness :
  Tasks (deleteTask (Sample.env 7) Sample.db 1 10).2 !! 10
  = Some (set_isDeleted true (Sample.task 1 ToDo None)).
Proof.
  refine (proj1 (proj2 (proj2
            (deleteTask_is_soft (Sample.env 7) Sample.db 1 10 (Sample.task 1 ToDo None) _)))).
  repeat split.
Defined.

(** Task 10 is soft-deleted; an update of it and the deletion of its
    assignee with reassignment follow. *)
Lemma soft_deleted_task_is_frozen_witness :
  Tasks (run (deleteTask (Sample.env 7) Sample.db 1 10).2
           [(Sample.env 8,
             UpdateTask 1 10
               {| b_title := Some "Other"; b_description := None; b_dueDate := None;
                  b_priority := None; b_tags := None; b_status := Some Completed |});
            (Sample.env 9, DeleteUser 2 (idString 1) (Some 2))]) !! 10
  = Some (set_isDeleted true (Sample.task 1 ToDo None)).
Proof.
  apply soft_deleted_task_is_frozen.
  - vm_compute. reflexivity.
  - reflexivity.
Defined.

Lemma comments_append_only_witness :
  exists t',
    Tasks (run Sample.db
             [(Sample.env 8, AddComment 1 10 "first");
              (Sample.env 9, DeleteTask 1 10)]) !! 10 = Some t'
    /\ comments (Sample.task 1 ToDo None) `prefix_of` comments t'
    /\ length (comments (Sample.task 1 ToDo None)) <= length (comments t')
    /\ createdBy t' = createdBy (Sample.task 1 ToDo None).
Proof.
  apply comments_append_only. reflexivity.
Defined.

(** Task 11 is Completed; an update that asks for In Progress and a
    reassignment follow. *)
Lemma completed_is_final_witness :
  exists t',
    Tasks (run Sample.db
             [(Sample.env 8,
               UpdateTask 1 11
                 {| b_title := None; b_description := None; b_dueDate := None;
                    b_priority := None; b_tags := None; b_status := Some InProgress |});
              (Sample.env 9, DeleteUser 2 (idString 1) (Some 2))]) !! 11 = Some t'
    /\ status t' = Completed
    /\ completedAt t' = completedAt (Sample.task 1 Completed (Some 40%Z)).
Proof.
  apply completed_is_final; reflexivity.
Defined.

(** From the store without tasks: a task is created and then completed. *)
Lemma completedAt_iff_completed_witness :
  exists t,
    Tasks (run {| Tasks := ∅; Users := Users Sample.db |}
             [(Sample.env 8,
               CreateTask 2
                 {| cb_title := "Plan"; cb_description := None; cb_assignedTo := 1;
                    cb_dueDate := 900%Z; cb_priority := None; cb_tags := None |});
              (Sample.env 9,
               UpdateTask 1 0
                 {| b_title := None; b_description := None; b_dueDate := None;
                    b_priority := None; b_tags := None; b_status := Some Completed |})])
      !! 0 = Some t
    /\ (status t = Completed <-> is_Some (completedAt t)).
Proof.
  assert (Hinit : forall i t,
            Tasks {| Tasks := ∅; Users := Users Sample.db |} !! i = Some t ->
            consistent t).
  { intros i t H. simpl in H. rewrite lookup_empty in H. discriminate H. }
  match goal with |- exists t, ?m !! 0 = Some t /\ _ =>
    destruct (m !! 0) as [t|] eqn:Hl; [|vm_compute in Hl; discriminate Hl] end.
  exists t. split; [reflexivity|].
  exact (completedAt_iff_completed _ _ Hinit 0 t Hl).
Defined.


Lemma addComment_appends_witness :
  exists t',
    addComment (Sample.env 7) Sample.db 1 10 "first"
    = (json 200 true (BodyTask (Some t')),
       push (Sample.env 7) 1 TASK_UPDATED 10 (Some t'),
       with_Tasks (<[10 := t']> (Tasks Sample.db)) Sample.db)
    /\ comments t'
       = comments (Sample.task 1 ToDo None)
         ++ [{| comment_user := 1; comment_text := "first";
                comment_createdAt := now (Sample.env 7) |}].
Proof.
  destruct (addComment_appends (Sample.env 7) Sample.db 1 10 "first"
              (Sample.task 1 ToDo None)) as (t' & H1 & H2 & _).
  - repeat split.
  - split; [discriminate|simpl; lia].
  - exists t'. split; [exact H1|exact H2].
Defined.

Lemma attachment_add_then_remove_witness :
  exists t2,
    Tasks (removeAttachment (Sample.env 8)
             (addAttachment (Sample.env 7) Sample.db 1 10
                (Some {| f_filename := "f-1.pdf"; f_originalname := "report.pdf";
                         f_mimetype := "application/pdf"; f_size := 10 |})).2
             1 10 (oid (Sample.env 7))).2 !! 10 = Some t2
    /\ attachments t2 = attachments (Sample.task 1 ToDo None).
Proof.
  destruct (attachment_add_then_remove (Sample.env 7) (Sample.env 8) Sample.db 1 10
              {| f_filename := "f-1.pdf"; f_originalname := "report.pdf";
                 f_mimetype := "application/pdf"; f_size := 10 |}
              (Sample.task 1 ToDo None)) as (t2 & H1 & H2 & _).
  - repeat split.
  - split; discriminate.
  - intros a Ha. inversion Ha.
  - exists t2. split; [|exact H2]. rewrite H1. simpl. apply lookup_insert_eq.
Defined.

Lemma removed_attachment_is_gone_witness :
    downloadAttachment None
      (removeAttachment (Sample.env 8)
         (addAttachment (Sample.env 7) Sample.db 1 10
            (Some {| f_filename := "f-1.pdf"; f_originalname := "report.pdf";
                     f_mimetype := "application/pdf"; f_size := 10 |})).2
         1 10 100).2 1 10 100
    = answered (json 404 false (BodyMessage "Attachment not found")).
Proof.
  refine (proj1 (proj2 (proj2
            (removed_attachment_is_gone (Sample.env 8)
               (addAttachment (Sample.env 7) Sample.db 1 10
                  (Some {| f_filename := "f-1.pdf"; f_originalname := "report.pdf";
                           f_mimetype := "application/pdf"; f_size := 10 |})).2
               1 10 100
               (attached (Sample.env 7) 1
                  {| f_filename := "f-1.pdf"; f_originalname := "report.pdf";
                     f_mimetype := "application/pdf"; f_size := 10 |}
                  (Sample.task 1 ToDo None))
               (newAttachment (Sample.env 7) 1
                  {| f_filename := "f-1.pdf"; f_originalname := "report.pdf";
                     f_mimetype := "application/pdf"; f_size := 10 |}) _ _))) None).
  - repeat split.
  - reflexivity.
Defined.


(** User 2 asks to delete user 1, who has open tasks, and names nobody to
    take them over. *)
Lemma deleteUser_all_or_nothing_witness :
  (deleteUser (Sample.env 7) Sample.db 2 (idString 1) None).2 = Sample.db.
Proof.
  destruct (deleteUser_all_or_nothing (Sample.env 7) Sample.db 2 (idString 1) 1 None
              eq_refl) as [(H & _)|(H & _)];
    [vm_compute in H; discriminate H|exact H].
Defined.


Lemma deleteUser_reassign_to_self_dangles_witness :
  exists t',
    Tasks (deleteUser (Sample.env 7) Sample.db 2 (idString 1) (Some 1)).2 !! 10 = Some t'
    /\ assignedTo t' = 1 /\ isDeleted t' = false.
Proof.
  refine (proj2 (proj2 (proj2
            (deleteUser_reassign_to_self_dangles (Sample.env 7) Sample.db 2 (idString 1) 1
               Sample.alice 10 (Sample.task 1 ToDo None) _ eq_refl eq_refl eq_refl _)))).
  - vm_compute. discriminate.
  - split; reflexivity.
Defined.

Lemma deleted_user_is_gone_witness :
  getUser (deleteUser (Sample.env 7) Sample.db 2 (idString 1) (Some 2)).2 1
  = userError 404 false "User not found".
Proof.
  refine (proj1 (deleted_user_is_gone (Sample.env 7) Sample.db 2 (idString 1) 1
                   (Some 2) 2 eq_refl _)).
  vm_compute. reflexivity.
Defined.

(** ** Further examples on the registry and the hook *)

(** A handshake without token, then an accepted one, a broadcast and a sweep. *)
Lemma refused_connection_is_never_served_witness :
    Registry.Send (Registry.newSocket Registry.empty) "{type:TASK_UPDATED}"
    ∉ (RegistrySample.run
         (Registry.handleConnection (Message := string) Registry.empty Registry.NoToken).2
         (RegistrySample.connect 1 1
          ++ [Registry.EBroadcast 1 "TASK_UPDATED";
              Registry.EMessage 0 (Some "PING");
              Registry.EHeartbeat])).1.
Proof.
  refine (proj1 (proj2 (proj2
            (refused_connection_is_never_served RegistrySample.stringify
               RegistrySample.connectedMsg RegistrySample.pongMsg [] _ Registry.NoToken _)))
            "{type:TASK_UPDATED}").
  intros u. discriminate.
Defined.

Lemma closed_connection_is_forgotten_witness :
    Registry.Send 1 "{type:TASK_UPDATED}"
    ∉ Registry.broadcastToUser RegistrySample.stringify
        (RegistrySample.exec (Registry.onClose RegistrySample.three 1)
           (RegistrySample.connect 3 1)) 1 "TASK_UPDATED".
Proof.
  assert (Htracked : 1 ∈ Registry.wssClients
                         (Registry.exec RegistrySample.stringify RegistrySample.connectedMsg
                            RegistrySample.pongMsg Registry.empty
                            (RegistrySample.connect 0 1 ++ RegistrySample.connect 1 1
                             ++ RegistrySample.connect 2 2)))
    by (vm_compute; right; left).
  assert (Hsettled : Registry.awaiting
                       (Registry.exec RegistrySample.stringify RegistrySample.connectedMsg
                          RegistrySample.pongMsg Registry.empty
                          (RegistrySample.connect 0 1 ++ RegistrySample.connect 1 1
                           ++ RegistrySample.connect 2 2)) !! 1 = None)
    by (vm_compute; reflexivity).
  exact (proj1 (proj2 (proj2
           (closed_connection_is_forgotten RegistrySample.stringify
              RegistrySample.connectedMsg RegistrySample.pongMsg _
              (RegistrySample.connect 3 1) 1 Htracked Hsettled)))
           1 "TASK_UPDATED" "{type:TASK_UPDATED}").
Defined.

(** The handshake of socket 0 is suspended at the lookup of user 1, and the
    lookup finds the user. *)
Lemma accepted_connection_is_served_witness :
  (Registry.resumeConnection RegistrySample.stringify RegistrySample.connectedMsg
     (RegistrySample.exec Registry.empty [Registry.EConnection (Registry.Verified 1)])
     0 Registry.UserFound).1
  = [Registry.Stringify "CONNECTED"; Registry.Send 0 "{type:CONNECTED}"].
Proof.
  assert (Hpending : Registry.pending
                       (Registry.exec RegistrySample.stringify RegistrySample.connectedMsg
                          RegistrySample.pongMsg Registry.empty
                          [Registry.EConnection (Registry.Verified 1)]) 0 1)
    by (vm_compute; reflexivity).
  exact (proj1 (proj2
           (accepted_connection_is_served RegistrySample.stringify
              RegistrySample.connectedMsg RegistrySample.pongMsg _ 0 1 "TASK_UPDATED"
              Hpending))).
Defined.

(** Socket 0 closes while its handshake waits for the lookup of user 1; the
    lookup finds the user, and a sweep and an event for user 1 follow. *)
Lemma closed_during_handshake_stays_registered_witness :
  Registry.registered
    (RegistrySample.exec
       (Registry.resumeConnection RegistrySample.stringify RegistrySample.connectedMsg
          (Registry.onClose
             (RegistrySample.exec Registry.empty
                [Registry.EConnection (Registry.Verified 1)]) 0)
          0 Registry.UserFound).2
       [Registry.EHeartbeat; Registry.EBroadcast 1 "TASK_UPDATED"]) 0.
Proof.
  assert (Hpending : Registry.pending
                       (Registry.exec RegistrySample.stringify RegistrySample.connectedMsg
                          RegistrySample.pongMsg Registry.empty
                          [Registry.EConnection (Registry.Verified 1)]) 0 1)
    by (vm_compute; reflexivity).
  assert (Hquiet : (@Registry.EClose string 0
                      ∉ [Registry.EHeartbeat; Registry.EBroadcast 1 "TASK_UPDATED"])
                   /\ (@Registry.EError string 0
                         ∉ [Registry.EHeartbeat; Registry.EBroadcast 1 "TASK_UPDATED"])).
  { split; intros H;
      repeat (apply elem_of_cons in H as [H|H]; [discriminate H|]); inversion H. }
  exact (proj1 (proj2 (proj2 (proj2 (proj2 (proj2
           (closed_during_handshake_stays_registered RegistrySample.stringify
              RegistrySample.connectedMsg RegistrySample.pongMsg _ _ 0 1
              Hpending Hquiet))))))).
Defined.

(** Two rounds: a broadcast, then the pong of connection 0 and a sweep. *)
Lemma answering_connection_is_kept_witness :
  Registry.Terminate 0
  ∉ (RegistrySample.run RegistrySample.three
       (flat_map (fun b => b ++ [@Registry.EPong string 0; Registry.EHeartbeat])
          [[Registry.EBroadcast 1 "TASK_UPDATED"]; []])).1.
Proof.
  assert (Htracked : 0 ∈ Registry.wssClients
                         (Registry.exec RegistrySample.stringify RegistrySample.connectedMsg
                            RegistrySample.pongMsg Registry.empty
                            (RegistrySample.connect 0 1 ++ RegistrySample.connect 1 1
                             ++ RegistrySample.connect 2 2)))
    by (vm_compute; left).
  assert (Haccepted : Registry.authenticated
                        (Registry.exec RegistrySample.stringify RegistrySample.connectedMsg
                           RegistrySample.pongMsg Registry.empty
                           (RegistrySample.connect 0 1 ++ RegistrySample.connect 1 1
                            ++ RegistrySample.connect 2 2)) 0).
  { eexists _, 1. split; [vm_compute; reflexivity|reflexivity]. }
  assert (Hquiet : forall b,
            b ∈ [[Registry.EBroadcast 1 "TASK_UPDATED"]; []] ->
            (@Registry.EClose string 0 ∉ b) /\ (@Registry.EHeartbeat string ∉ b)).
  { intros b [->|[->|H]%elem_of_cons]%elem_of_cons; [| |inversion H]; split; intros H;
      repeat (apply elem_of_cons in H as [H|H]; [discriminate H|]); inversion H. }
  exact (proj1 (answering_connection_is_kept RegistrySample.stringify
                  RegistrySample.connectedMsg RegistrySample.pongMsg _ _ 0
                  Htracked Haccepted Hquiet)).
Defined.

Lemma hook_filters_protocol_messages_witness :
  "TASK_UPDATED" <> "PONG" /\ "TASK_UPDATED" <> "CONNECTED"
  /\ exists id,
       Client.Incoming id (Some "TASK_UPDATED")
       ∈ [Client.Opened 0; Client.Incoming 0 (Some "PONG");
          Client.Incoming 0 (Some "TASK_UPDATED")].
Proof.
  apply (hook_filters_protocol_messages (Client.mount (Some "t1")).2).
  vm_compute. left.
Defined.

(** ** Further examples: repeated update, token change *)


(** An abnormal close, its timer, then a render with a new token. *)
Lemma socket_opened_only_by_token_change_witness :
  "t2" <> ""
  /\ Client.Render (Some "t2")
     ∈ [Client.Closed 0 1006; Client.Timeout 0; Client.Render (Some "t2")].
Proof.
  apply (socket_opened_only_by_token_change (Client.mount (Some "t1")).2 _ 1).
  vm_compute. do 2 right. left.
Defined.

Lemma token_change_reconnects_witness :
  exists id,
    Client.wsRef
      (Client.step (Client.run (Client.mount (Some "t1")).2 [Client.Opened 0]).2
         (Client.Render (Some "t2"))).2 = Some id.
Proof.
  destruct (token_change_reconnects (Some "t1") [Client.Opened 0] "t2")
    as (id & _ & H & _).
  - reflexivity.
  - intros H. vm_compute in H. discriminate H.
  - discriminate.
  - exists id. exact H.
Defined.
